(** * Acquisition-to-storage pipeline of the CAEN scope recorder

    A shallow embedding of [main.py] (the [DataAcquisition] producer and
    consumer threads, the ADC calibration, the settings applied to the
    digitizer, the key listener), of [bin_check.py] (the [ReadRawFile]
    record reader) and of [config.py] (the [ConfigReader]), with the
    properties of the channel-file format, of the shutdown protocol and
    of the configuration look-up proved over it. *)

From Stdlib Require Import ZArith Bool Lia.
From Stdlib Require Import Strings.Byte.
From Stdlib Require Import Floats.SpecFloat.
From stdpp Require Import gmap strings pretty list.

Local Open Scope Z_scope.

(** ** Bytes and little-endian integers *)

Module Bytes.

Definition byte_of_Z (z : Z) : byte :=
  default x00 (Byte.of_N (Z.to_N (z mod 256))).

Definition Z_of_byte (b : byte) : Z := Z.of_N (Byte.to_N b).

(** [int.to_bytes(n, "little")]: the [n] low-order bytes of [v], least
    significant first. *)
Fixpoint int_to_bytes_le (n : nat) (v : Z) : list byte :=
  match n with
  | O => []
  | S n' => byte_of_Z v :: int_to_bytes_le n' (v / 256)
  end.

(** [int.from_bytes(bs, "little")]. *)
Fixpoint int_from_bytes_le (bs : list byte) : Z :=
  match bs with
  | [] => 0
  | b :: bs' => Z_of_byte b + 256 * int_from_bytes_le bs'
  end.

End Bytes.

(** ** Python exceptions and the [struct] module *)

Inductive exception :=
  | StructError        (* struct.error *)
  | KeyError
  | IndexError
  | OverflowError
  | ZeroDivisionError
  | DeviceError.       (* caen_felib.error.Error *)

Definition result (A : Type) : Type := exception + A.

Definition raise {A} (e : exception) : result A := inl e.

Definition rbind {A B} (x : result A) (k : A -> result B) : result B :=
  match x with
  | inl e => inl e
  | inr a => k a
  end.

Notation "'let!' x ':=' c1 'in' c2" := (rbind c1 (fun x => c2))
  (at level 10, x pattern, c1 at level 100, c2 at level 200).

Module Struct.
Import Bytes.

Inductive byteorder := LittleEndian | BigEndian.

(** [sys.byteorder] of the acquisition host. The format strings ["I"],
    ["Q"] of [save_thread] and [ndarray.tofile] use the native order;
    the hosts the CAEN FELib supports (x86-64, AArch64) are
    little-endian. *)
Definition sys_byteorder : byteorder := LittleEndian.

Definition int_to_bytes (o : byteorder) (n : nat) (v : Z) : list byte :=
  match o with
  | LittleEndian => int_to_bytes_le n v
  | BigEndian => rev (int_to_bytes_le n v)
  end.

(** [struct.pack] of one unsigned integer of [size] bytes in native
    order; a value outside [0, 2^(8*size)) raises [struct.error]. *)
Definition pack_uint (size : nat) (v : Z) : result (list byte) :=
  if bool_decide (0 <= v < 256 ^ Z.of_nat size)
  then inr (int_to_bytes sys_byteorder size v)
  else raise StructError.

(** [struct.pack("I", v)] and [struct.pack("Q", v)]. *)
Definition pack_I : Z -> result (list byte) := pack_uint 4.
Definition pack_Q : Z -> result (list byte) := pack_uint 8.

(** [struct.unpack("<I", bs)[0]] and [struct.unpack("<Q", bs)[0]]: the
    buffer must have exactly the size of the format. *)
Definition unpack_uint_le (size : nat) (bs : list byte) : result Z :=
  if bool_decide (length bs = size)
  then inr (int_from_bytes_le bs)
  else raise StructError.

Definition unpack_I_le : list byte -> result Z := unpack_uint_le 4.
Definition unpack_Q_le : list byte -> result Z := unpack_uint_le 8.

End Struct.

(** ** IEEE 754 binary32 ([numpy.float32]) and binary64 (Python [float]) *)

Module F32.

Definition prec : Z := 24.
Definition emax : Z := 128.

Definition sign_bit (s : bool) : Z := if s then 2147483648 else 0.

(** The value held by a 32-bit word in the binary32 interchange
    format: sign bit 31, biased exponent bits 30..23, fraction bits
    22..0. *)
Definition of_bits (w : Z) : spec_float :=
  let s := Z.testbit w 31 in
  let e := Z.land (Z.shiftr w 23) 255 in
  let m := Z.land w 8388607 in
  if e =? 0 then
    match m with
    | Zpos p => S754_finite s p (-149)
    | _ => S754_zero s
    end
  else if e =? 255 then
    if m =? 0 then S754_infinity s else S754_nan
  else
    match m + 8388608 with
    | Zpos p => S754_finite s p (e - 150)
    | _ => S754_nan
    end.

(** The word that stores a binary32 value: the fields are masked to
    their widths and put in place. *)
Definition to_bits (x : spec_float) : Z :=
  match x with
  | S754_zero s => sign_bit s
  | S754_infinity s => sign_bit s + 2139095040            (* 0x7F800000 *)
  | S754_nan => 2143289344                                (* 0x7FC00000 *)
  | S754_finite s m e =>
      if Zpos m <? 8388608
      then sign_bit s + Zpos m
      else sign_bit s + Z.shiftl (Z.land (e + 150) 255) 23
           + Z.land (Zpos m) 8388607
  end.

(** A [float32] array element is its 32-bit word; arithmetic rounds to
    nearest-even as the hardware does. *)
Definition mul (a b : Z) : Z := to_bits (SFmul prec emax (of_bits a) (of_bits b)).
Definition add (a b : Z) : Z := to_bits (SFadd prec emax (of_bits a) (of_bits b)).

(** [ndarray.astype(np.float32)] on an integer element. *)
Definition of_int (r : Z) : Z := to_bits (binary_normalize prec emax r 0 false).

(** Conversion of a Python [float] operand to [float32]. *)
Definition of_pyfloat (x : spec_float) : Z :=
  to_bits match x with
          | S754_finite s m e => binary_round prec emax s m e
          | _ => x
          end.

Definition ltb (a b : Z) : bool := SFltb (of_bits a) (of_bits b).
Definition leb (a b : Z) : bool := SFleb (of_bits a) (of_bits b).

(** [ndarray.tofile] of one element, and [struct.unpack("<f", bs)[0]]. *)
Definition tofile (w : Z) : list byte :=
  Struct.int_to_bytes Struct.sys_byteorder 4 w.

Definition unpack_f_le (bs : list byte) : result spec_float :=
  if bool_decide (length bs = 4%nat)
  then inr (of_bits (Bytes.int_from_bytes_le bs))
  else raise StructError.

End F32.

Module PyFloat.

Definition prec : Z := 53.
Definition emax : Z := 1024.

(** [float(n)] for a Python [int]: correctly rounded, [OverflowError]
    when the integer exceeds the largest finite double. *)
Definition of_int (n : Z) : result spec_float :=
  match binary_normalize prec emax n 0 false with
  | S754_infinity _ => raise OverflowError
  | x => inr x
  end.

(** [x / y] on floats. *)
Definition truediv (x y : spec_float) : result spec_float :=
  match y with
  | S754_zero _ => raise ZeroDivisionError
  | _ => inr (SFdiv prec emax x y)
  end.

Definition two : spec_float := S754_finite false (2 ^ 52) (-51).
Definition minus_one : spec_float := S754_finite true (2 ^ 52) (-52).

End PyFloat.

(** ** [DataAcquisition]: calibration *)

Record DataAcquisition := {
  adc_n_bits : N;
  adc_scale : spec_float;     (* Python float *)
  adc_offset : spec_float;    (* Python float *)
}.

(** The calibration part of [DataAcquisition.__init__]:
    [adc_scale = 2.0 / (2**adc_n_bits - 1)], [adc_offset = -1.0]. *)
Definition init (n_bits : N) : result DataAcquisition :=
  let! d := PyFloat.of_int (2 ^ Z.of_N n_bits - 1) in
  let! scale := PyFloat.truediv PyFloat.two d in
  inr {| adc_n_bits := n_bits; adc_scale := scale;
         adc_offset := PyFloat.minus_one |}.

(** [adc_array.astype(np.float32) * self.adc_scale + self.adc_offset],
    element by element. *)
Definition calibrate (self : DataAcquisition) (r : Z) : Z :=
  F32.add (F32.mul (F32.of_int r) (F32.of_pyfloat (adc_scale self)))
          (F32.of_pyfloat (adc_offset self)).

Definition adc_to_mv (self : DataAcquisition) (adc_array : list Z) : list Z :=
  map (calibrate self) adc_array.

(** ** [bin_check.py]: the record reader *)

Record Event := {
  EventNumber : Z;
  Timestamp : Z;
  NSamples : Z;
  TimeResolution : Z;
  Waveform : list spec_float;   (* array.array('f', wf) *)
}.

Module Reader.
Import Struct.

(** [myfile.read(n)] on the unread part of the file: at most [n]
    bytes, fewer at end of file. *)
Definition read (n : nat) (f : list byte) : list byte * list byte :=
  (take n f, drop n f).

(** The [for _ in range(nSamples)] loop. *)
Fixpoint read_waveform (n : nat) (f : list byte)
  : result (list spec_float * list byte) :=
  match n with
  | O => inr ([], f)
  | S n' =>
      let '(bs, f1) := read 4 f in
      let! x := F32.unpack_f_le bs in
      let! (wf, f2) := read_waveform n' f1 in
      inr (x :: wf, f2)
  end.

(** One pass through the body of [while True: try: ...] up to the
    [yield]. *)
Definition read_event (f : list byte) : result (Event * list byte) :=
  let '(b1, f1) := read 4 f in
  let! event_number := unpack_I_le b1 in
  let '(b2, f2) := read 8 f1 in
  let! timestamp := unpack_Q_le b2 in
  let '(b3, f3) := read 4 f2 in
  let! nSamples := unpack_I_le b3 in
  let '(b4, f4) := read 8 f3 in
  let! time_resolution := unpack_Q_le b4 in
  let! (wf, f5) := read_waveform (Z.to_nat nSamples) f4 in
  inr ({| EventNumber := event_number; Timestamp := timestamp;
          NSamples := nSamples; TimeResolution := time_resolution;
          Waveform := wf |}, f5).

(** The generator: events are yielded until [struct.error] breaks the
    loop. Each event consumes at least its 24 header bytes, so the
    length of the file bounds the number of iterations. *)
Fixpoint read_loop (fuel : nat) (f : list byte) : list Event :=
  match fuel with
  | O => []
  | S fuel' =>
      match read_event f with
      | inl _ => []
      | inr (ev, f') => ev :: read_loop fuel' f'
      end
  end.

Definition read_raw_data (file : list byte) : list Event :=
  read_loop (S (length file)) file.

End Reader.

(** ** Files opened by the storage consumer *)

(** A buffered binary file object from [open(filename, "ab",
    buffering=8192)]: bytes written stay in [pending] until a flush
    appends them to the file. (The automatic flush of a full buffer moves
    bytes to the file in the same order and is left out.) *)
Record file_object := {
  name : string;
  pending : list byte;
  closed : bool;
}.

Record io_state := {
  fs : gmap string (list byte);            (* the directory *)
  file_handles : list file_object;         (* the dict of [save_thread] *)
}.

(** [file_handles] receives the keys [0 .. n-1] in this order, so the
    dict is kept as the list of its values: [file_handles[i]] is the
    lookup at [i] ([KeyError] beyond the end) and [values()] is the list
    itself. *)

Definition file_content (fs : gmap string (list byte)) (fname : string) : list byte :=
  default [] (fs !! fname).

(** [open(filename, "ab")]: the file is created when missing and never
    truncated; writes go to its end. *)
Definition open_ab (fname : string) (fs : gmap string (list byte))
  : gmap string (list byte) * file_object :=
  (<[fname := file_content fs fname]> fs,
   {| name := fname; pending := []; closed := false |}).

Definition write (f : file_object) (bs : list byte) : file_object :=
  {| name := name f; pending := pending f ++ bs; closed := closed f |}.

Definition flush (f : file_object) (fs : gmap string (list byte))
  : gmap string (list byte) * file_object :=
  (<[name f := file_content fs (name f) ++ pending f]> fs,
   {| name := name f; pending := []; closed := closed f |}).

Definition close (f : file_object) (fs : gmap string (list byte))
  : gmap string (list byte) * file_object :=
  let '(fs', f') := flush f fs in
  (fs', {| name := name f'; pending := pending f'; closed := true |}).

(** State-and-exception monad of the consumer body: an exception keeps
    the bytes written before it. *)
Definition IO (A : Type) : Type := io_state -> result A * io_state.

Definition io_ret {A} (a : A) : IO A := fun st => (inr a, st).

Definition io_bind {A B} (m : IO A) (k : A -> IO B) : IO B :=
  fun st =>
    match m st with
    | (inl e, st') => (inl e, st')
    | (inr a, st') => k a st'
    end.

Notation "'let*' x ':=' c1 'in' c2" := (io_bind c1 (fun x => c2))
  (at level 10, x pattern, c1 at level 100, c2 at level 200).

Definition io_lift {A} (r : result A) : IO A := fun st => (r, st).

(** [file_handles[i]] followed by an operation on that file object. *)
Definition with_handle (i : nat) (op : file_object -> gmap string (list byte)
                                       -> gmap string (list byte) * file_object)
  : IO unit :=
  fun st =>
    match file_handles st !! i with
    | None => (raise KeyError, st)
    | Some f =>
        let '(fs', f') := op f (fs st) in
        (inr tt, {| fs := fs'; file_handles := <[i := f']> (file_handles st) |})
    end.

Definition f_write (i : nat) (bs : list byte) : IO unit :=
  with_handle i (fun f fs => (fs, write f bs)).

Definition f_flush (i : nat) : IO unit := with_handle i flush.

Definition f_close (i : nat) : IO unit := with_handle i close.

(** ** [DataAcquisition.save_thread]: serialising one acquisition *)

(** The dict put on the queue by the producer. *)
Record acquisition_data := {
  trigger_num : Z;                (* U32 *)
  timestamp : Z;                  (* U64 *)
  waveforms : list (list Z);      (* U16, one row per channel *)
  waveform_sizes : list Z;        (* U64, one entry per channel *)
}.

Definition filename (i : nat) : string := "raw_CH" +:+ pretty i +:+ ".bin".

Section Save.
Variable self : DataAcquisition.

(** Body of [for i, waveform in enumerate(waveforms)]. *)
Definition save_channel (d : acquisition_data) (i : nat) (waveform : list Z)
  : IO unit :=
  let* _ := with_handle i (fun f fs => (fs, f)) in          (* f = file_handles[i] *)
  let* size := io_lift (match waveform_sizes d !! i with
                        | Some size => inr size
                        | None => raise IndexError
                        end) in
  let* b := io_lift (Struct.pack_I (trigger_num d)) in
  let* _ := f_write i b in
  let* b := io_lift (Struct.pack_Q (timestamp d)) in
  let* _ := f_write i b in
  let* b := io_lift (Struct.pack_I size) in
  let* _ := f_write i b in
  let* b := io_lift (Struct.pack_Q 8) in
  let* _ := f_write i b in
  let waveform_mv := adc_to_mv self (take (Z.to_nat size) waveform) in
  let* _ := f_write i (concat (map F32.tofile waveform_mv)) in
  if bool_decide (trigger_num d mod 10 = 0) then f_flush i else io_ret tt.

Fixpoint save_channels (d : acquisition_data) (i : nat) (rows : list (list Z))
  : IO unit :=
  match rows with
  | [] => io_ret tt
  | waveform :: rows' =>
      let* _ := save_channel d i waveform in
      save_channels d (S i) rows'
  end.

(** The part of the [try] body after the sentinel test. *)
Definition save_acquisition (d : acquisition_data) : IO unit :=
  save_channels d 0 (waveforms d).

End Save.

(** The opening loop [for i in range(len(self.data[2].value))], started
    at key [i] with [n] files left to open. *)
Fixpoint open_files (i : nat) (n : nat) (st : io_state) : io_state :=
  match n with
  | O => st
  | S n' =>
      let '(fs', f) := open_ab (filename i) (fs st) in
      open_files (S i) n'
        {| fs := fs'; file_handles := file_handles st ++ [f] |}
  end.

(** The [finally] block: [f.flush(); f.close()] for every handle. *)
Fixpoint close_all (hs : list file_object) (fs : gmap string (list byte))
  : gmap string (list byte) * list file_object :=
  match hs with
  | [] => (fs, [])
  | f :: hs' =>
      let '(fs1, f1) := flush f fs in
      let '(fs2, f2) := close f1 fs1 in
      let '(fs3, hs'') := close_all hs' fs2 in
      (fs3, f2 :: hs'')
  end.

Definition close_files (st : io_state) : io_state :=
  let '(fs', hs') := close_all (file_handles st) (fs st) in
  {| fs := fs'; file_handles := hs' |}.

(** ** The worker threads *)

(** The digitizer as [acquisition_thread] uses it: the outcome of the
    arm and start commands, and of the [k]-th software trigger followed
    by [read_data]. *)
Record digitizer := {
  ArmAcquisition : result unit;
  SwStartAcquisition : result unit;
  read_data : nat -> result acquisition_data;
}.

Inductive command := CmdArm | CmdStart | CmdTrigger | CmdDisarm.

(** Control points of [acquisition_thread]. [failed] records that the
    [except] clause ran. *)
Inductive producer_pc :=
  | PStart                       (* entering the [try] *)
  | PLoop                        (* test of [while not stop_event.is_set()] *)
  | PTrigger                     (* loop body *)
  | PSentinel                    (* [acquisition_queue.put(None)] *)
  | PFinally (failed : bool)     (* [DisarmAcquisition()] *)
  | PExit (failed : bool).

Inductive exit_reason :=
  | Stopped                      (* the loop test saw the stop flag *)
  | EndOfStream                  (* [None] was dequeued *)
  | Failed (e : exception).      (* the outer [except] clause ran *)

(** Control points of [save_thread]. *)
Inductive consumer_pc :=
  | COpen                        (* opening the channel files *)
  | CLoop                        (* test of [while not stop_event.is_set()] *)
  | CGet                         (* [acquisition_queue.get(timeout=1)] *)
  | CFinally (why : exit_reason) (* the [finally] block *)
  | CExit (why : exit_reason).

Record pipeline := {
  stop_event : bool;
  acquisition_queue : list (option acquisition_data);
  ppc : producer_pc;
  acq_count : nat;
  dig_cmds : list command;       (* commands issued so far, oldest first *)
  cpc : consumer_pc;
  io : io_state;
}.

Inductive thread := TProducer | TConsumer | TListener.

Section Pipeline.
Variable self : DataAcquisition.
Variable dig : digitizer.
Variable n_ch : nat.            (* len(self.data[2].value) *)

Definition producer_step (s : pipeline) : pipeline :=
  match ppc s with
  | PStart =>
      match ArmAcquisition dig with
      | inl _ =>
          {| stop_event := true; acquisition_queue := acquisition_queue s;
             ppc := PFinally true; acq_count := acq_count s;
             dig_cmds := dig_cmds s ++ [CmdArm];
             cpc := cpc s; io := io s |}
      | inr _ =>
          match SwStartAcquisition dig with
          | inl _ =>
              {| stop_event := true; acquisition_queue := acquisition_queue s;
                 ppc := PFinally true; acq_count := acq_count s;
                 dig_cmds := dig_cmds s ++ [CmdArm; CmdStart];
                 cpc := cpc s; io := io s |}
          | inr _ =>
              {| stop_event := stop_event s; acquisition_queue := acquisition_queue s;
                 ppc := PLoop; acq_count := acq_count s;
                 dig_cmds := dig_cmds s ++ [CmdArm; CmdStart];
                 cpc := cpc s; io := io s |}
          end
      end
  | PLoop =>
      {| stop_event := stop_event s; acquisition_queue := acquisition_queue s;
         ppc := if stop_event s then PSentinel else PTrigger;
         acq_count := acq_count s; dig_cmds := dig_cmds s;
         cpc := cpc s; io := io s |}
  | PTrigger =>
      match read_data dig (acq_count s) with
      | inr acquisition_data =>
          {| stop_event := stop_event s;
             acquisition_queue := acquisition_queue s ++ [Some acquisition_data];
             ppc := PLoop; acq_count := S (acq_count s);
             dig_cmds := dig_cmds s ++ [CmdTrigger];
             cpc := cpc s; io := io s |}
      | inl _ =>
          {| stop_event := true; acquisition_queue := acquisition_queue s;
             ppc := PFinally true; acq_count := acq_count s;
             dig_cmds := dig_cmds s ++ [CmdTrigger];
             cpc := cpc s; io := io s |}
      end
  | PSentinel =>
      {| stop_event := stop_event s;
         acquisition_queue := acquisition_queue s ++ [None];
         ppc := PFinally false; acq_count := acq_count s;
         dig_cmds := dig_cmds s; cpc := cpc s; io := io s |}
  | PFinally failed =>
      {| stop_event := stop_event s; acquisition_queue := acquisition_queue s;
         ppc := PExit failed; acq_count := acq_count s;
         dig_cmds := dig_cmds s ++ [CmdDisarm];
         cpc := cpc s; io := io s |}
  | PExit _ => s
  end.

Definition consumer_step (s : pipeline) : pipeline :=
  match cpc s with
  | COpen =>
      {| stop_event := stop_event s; acquisition_queue := acquisition_queue s;
         ppc := ppc s; acq_count := acq_count s; dig_cmds := dig_cmds s;
         cpc := CLoop; io := open_files 0 n_ch (io s) |}
  | CLoop =>
      {| stop_event := stop_event s; acquisition_queue := acquisition_queue s;
         ppc := ppc s; acq_count := acq_count s; dig_cmds := dig_cmds s;
         cpc := if stop_event s then CFinally Stopped else CGet;
         io := io s |}
  | CGet =>
      match acquisition_queue s with
      | [] =>                                       (* queue.Empty: continue *)
          {| stop_event := stop_event s; acquisition_queue := [];
             ppc := ppc s; acq_count := acq_count s; dig_cmds := dig_cmds s;
             cpc := CLoop; io := io s |}
      | None :: q =>                                (* break *)
          {| stop_event := stop_event s; acquisition_queue := q;
             ppc := ppc s; acq_count := acq_count s; dig_cmds := dig_cmds s;
             cpc := CFinally EndOfStream; io := io s |}
      | Some acquisition_data :: q =>
          match save_acquisition self acquisition_data (io s) with
          | (inr _, io') =>
              {| stop_event := stop_event s; acquisition_queue := q;
                 ppc := ppc s; acq_count := acq_count s; dig_cmds := dig_cmds s;
                 cpc := CLoop; io := io' |}
          | (inl e, io') =>                         (* raise; outer except *)
              {| stop_event := true; acquisition_queue := q;
                 ppc := ppc s; acq_count := acq_count s; dig_cmds := dig_cmds s;
                 cpc := CFinally (Failed e); io := io' |}
          end
      end
  | CFinally why =>
      {| stop_event := stop_event s; acquisition_queue := acquisition_queue s;
         ppc := ppc s; acq_count := acq_count s; dig_cmds := dig_cmds s;
         cpc := CExit why; io := close_files (io s) |}
  | CExit _ => s
  end.

(** [listen_for_key] on input ['q']. *)
Definition listener_step (s : pipeline) : pipeline :=
  {| stop_event := true; acquisition_queue := acquisition_queue s;
     ppc := ppc s; acq_count := acq_count s; dig_cmds := dig_cmds s;
     cpc := cpc s; io := io s |}.

Definition step (s : pipeline) (t : thread) : pipeline :=
  match t with
  | TProducer => producer_step s
  | TConsumer => consumer_step s
  | TListener => listener_step s
  end.

(** A run of the pipeline under a schedule: the order in which the
    threads take their atomic steps. *)
Definition run (sched : list thread) (s : pipeline) : pipeline :=
  foldl step s sched.

Definition start (fs0 : gmap string (list byte)) : pipeline :=
  {| stop_event := false; acquisition_queue := [];
     ppc := PStart; acq_count := 0; dig_cmds := [];
     cpc := COpen; io := {| fs := fs0; file_handles := [] |} |}.

End Pipeline.

(** ** The channel-file record format *)

Module Format.
Import Bytes.

(** One record of a channel file, as the format table lists its
    fields; [samples] are [float32] words. *)
Record record := {
  trigger_id : Z;
  rec_timestamp : Z;
  sample_count : Z;
  time_resolution : Z;
  samples : list Z;
}.

Definition encode (r : record) : list byte :=
  int_to_bytes_le 4 (trigger_id r) ++
  int_to_bytes_le 8 (rec_timestamp r) ++
  int_to_bytes_le 4 (sample_count r) ++
  int_to_bytes_le 8 (time_resolution r) ++
  concat (map (int_to_bytes_le 4) (samples r)).

Definition well_formed (r : record) : Prop :=
  0 <= trigger_id r < 2 ^ 32 /\
  0 <= rec_timestamp r < 2 ^ 64 /\
  0 <= sample_count r < 2 ^ 32 /\
  0 <= time_resolution r < 2 ^ 64 /\
  sample_count r = Z.of_nat (length (samples r)) /\
  Forall (fun w => 0 <= w < 2 ^ 32) (samples r).

(** The event a reader is expected to build from a record. *)
Definition decode (r : record) : Event :=
  {| EventNumber := trigger_id r; Timestamp := rec_timestamp r;
     NSamples := sample_count r; TimeResolution := time_resolution r;
     Waveform := map F32.of_bits (samples r) |}.

End Format.

(** The record of channel [i] of an acquisition: its header fields and
    the calibrated first [size] raw samples. *)
Definition record_of (self : DataAcquisition) (d : acquisition_data)
    (waveform : list Z) (size : Z) : Format.record :=
  {| Format.trigger_id := trigger_num d;
     Format.rec_timestamp := timestamp d;
     Format.sample_count := size;
     Format.time_resolution := 8;
     Format.samples := adc_to_mv self (take (Z.to_nat size) waveform) |}.

(** What an acquisition contributes to the file of channel [i] when
    [save_acquisition] returns normally. *)
Definition channel_bytes (self : DataAcquisition) (d : acquisition_data)
    (i : nat) : list byte :=
  match waveforms d !! i, waveform_sizes d !! i with
  | Some waveform, Some size => Format.encode (record_of self d waveform size)
  | _, _ => []
  end.


(** Bytes of a channel that were written, flushed or not. *)
Definition channel_content (st : io_state) (i : nat) : list byte :=
  match file_handles st !! i with
  | Some f => file_content (fs st) (name f) ++ pending f
  | None => []
  end.

(** ** Invariants of the consumer's files *)

(** Every file of [fs1] is still there in [fs2], with its bytes followed
    by appended ones. *)
Definition fs_extends (fs1 fs2 : gmap string (list byte)) : Prop :=
  forall fname old, fs1 !! fname = Some old ->
    exists app, fs2 !! fname = Some (old ++ app).

(** The [n] channel files are open, handle [i] on [filename i]. *)
Definition handles_open (n : nat) (st : io_state) : Prop :=
  length (file_handles st) = n /\
  forall i f, file_handles st !! i = Some f ->
    name f = filename i /\ closed f = false /\ is_Some (fs st !! filename i).

(** The [n] channel files are closed and nothing is left in a buffer. *)
Definition handles_closed (n : nat) (st : io_state) : Prop :=
  length (file_handles st) = n /\
  forall i f, file_handles st !! i = Some f ->
    name f = filename i /\ closed f = true /\ pending f = [] /\
    is_Some (fs st !! filename i).

(** ** Invariant of the pipeline *)

Definition no_frame : acquisition_data :=
  {| trigger_num := 0; timestamp := 0; waveforms := []; waveform_sizes := [] |}.

(** The frame the [k]-th successful trigger delivers, and the first [k]
    frames of a run. *)
Definition frame_at (dig : digitizer) (k : nat) : acquisition_data :=
  match read_data dig k with
  | inr d => d
  | inl _ => no_frame
  end.

Definition frames (dig : digitizer) (k : nat) : list acquisition_data :=
  frame_at dig <$> seq 0 k.

(** The bytes the first [k] frames contribute to channel [i]. *)
Definition records (self : DataAcquisition) (dig : digitizer) (i k : nat)
  : list byte :=
  concat ((fun d => channel_bytes self d i) <$> frames dig k).


Definition sentinel_put (pc : producer_pc) : bool :=
  match pc with
  | PFinally false | PExit false => true
  | _ => false
  end.

Definition producer_failed (pc : producer_pc) : bool :=
  match pc with
  | PFinally true | PExit true => true
  | _ => false
  end.

Definition consumer_failed (pc : consumer_pc) : bool :=
  match pc with
  | CFinally (Failed _) | CExit (Failed _) => true
  | _ => false
  end.

Section Invariant.
Variable self : DataAcquisition.
Variable dig : digitizer.
Variable n_ch : nat.
Variable fs0 : gmap string (list byte).

Definition sentinel (s : pipeline) : list (option acquisition_data) :=
  if sentinel_put (ppc s) then [None] else [].

(** The queue holds the frames produced and not yet taken, then the
    sentinel once it is put; [k] frames were taken and saved. *)
Definition queue_inv (k : nat) (s : pipeline) : Prop :=
  match cpc s with
  | CFinally EndOfStream | CExit EndOfStream =>
      sentinel_put (ppc s) = true /\ acquisition_queue s = [] /\
      k = acq_count s
  | CFinally (Failed _) | CExit (Failed _) =>
      (k < acq_count s)%nat /\
      acquisition_queue s
      = (Some <$> drop (S k) (frames dig (acq_count s))) ++ sentinel s
  | _ =>
      acquisition_queue s
      = (Some <$> drop k (frames dig (acq_count s))) ++ sentinel s
  end.

(** Each channel holds what was there before the run followed by the
    records of the [k] saved frames. *)
Definition io_inv (k : nat) (s : pipeline) : Prop :=
  match cpc s with
  | COpen => k = 0%nat /\ io s = {| fs := fs0; file_handles := [] |}
  | CLoop | CGet | CFinally Stopped | CFinally EndOfStream =>
      handles_open n_ch (io s) /\
      forall i, (i < n_ch)%nat ->
        channel_content (io s) i
        = file_content fs0 (filename i) ++ records self dig i k
  | CExit Stopped | CExit EndOfStream =>
      handles_closed n_ch (io s) /\
      forall i, (i < n_ch)%nat ->
        fs (io s) !! filename i
        = Some (file_content fs0 (filename i) ++ records self dig i k)
  | CFinally (Failed _) => handles_open n_ch (io s)
  | CExit (Failed _) => handles_closed n_ch (io s)
  end.

Definition inv (s : pipeline) : Prop :=
  (producer_failed (ppc s) = true -> stop_event s = true) /\
  (consumer_failed (cpc s) = true -> stop_event s = true) /\
  (forall failed, ppc s = PExit failed -> last (dig_cmds s) = Some CmdDisarm) /\
  fs_extends fs0 (fs (io s)) /\
  exists k, (k <= acq_count s)%nat /\ queue_inv k s /\ io_inv k s.

End Invariant.

(** ** Progress of the workers once the stop flag is set *)

Global Instance thread_eq_dec : EqDecision thread.
Proof. solve_decision. Defined.




(** ** Sample runs *)

(** A 16-bit digitizer, as [init 16] builds it. *)
Definition da16 : DataAcquisition :=
  {| adc_n_bits := 16;
     adc_scale := S754_finite false 4503668347895824 (-67);
     adc_offset := PyFloat.minus_one |}.

(** Two channels; three raw samples per row, of which two and three are
    valid. *)
Definition example_frame (k : nat) : acquisition_data :=
  {| trigger_num := Z.of_nat k mod 2 ^ 32;
     timestamp := (1000 + 8 * Z.of_nat k) mod 2 ^ 64;
     waveforms := [[0; 65535; 7]; [100; 200; 300]];
     waveform_sizes := [2; 3] |}.

(** A digitizer that always delivers, and one whose second read fails. *)
Definition example_dig : digitizer :=
  {| ArmAcquisition := inr tt; SwStartAcquisition := inr tt;
     read_data := fun k => inr (example_frame k) |}.

Definition failing_dig : digitizer :=
  {| ArmAcquisition := inr tt; SwStartAcquisition := inr tt;
     read_data := fun k => match k with
                           | O => inr (example_frame 0)
                           | S _ => raise DeviceError
                           end |}.

(** One frame is saved, the stop key is pressed, both workers finish. *)
Definition example_schedule : list thread :=
  [TProducer; TProducer; TProducer;
   TConsumer; TConsumer; TConsumer;
   TListener;
   TConsumer; TConsumer; TConsumer;
   TProducer; TProducer; TProducer].



(** A complete record and its encoding, for the reader. *)
Definition example_record : Format.record :=
  {| Format.trigger_id := 7; Format.rec_timestamp := 123456789;
     Format.sample_count := 2; Format.time_resolution := 8;
     Format.samples := [3212836864; 1065353216] |}.

(** Two open channel files, nothing written yet. *)
Definition example_io : io_state := open_files 0 2 {| fs := ∅; file_handles := [] |}.

(** ** Checking a bit depth by evaluation *)

(** With [scale] and [offset] the two binary32 constants of a
    calibration: it is strictly increasing over the [n] steps that
    follow [r], [prev] being its value at [r]. *)
Fixpoint ascending (scale offset : Z) (n : nat) (r : Z) (prev : Z) : bool :=
  match n with
  | O => true
  | S n' =>
      let next := F32.add (F32.mul (F32.of_int (r + 1)) scale) offset in
      F32.ltb prev next && ascending scale offset n' (r + 1) next
  end.

(** The largest raw sample of a [b]-bit converter. *)
Definition max_raw (b : N) : Z := 2 ^ Z.of_N b - 1.

Definition plus_one32 : Z := 1065353216.     (* 0x3F800000, +1.0 *)
Definition minus_one32 : Z := 3212836864.    (* 0xBF800000, -1.0 *)

(** The end points and the order of the calibration of a [b]-bit
    converter, decided by running it over the whole range of raw
    samples. *)
Definition depth_ok (b : N) : bool :=
  match init b with
  | inl _ => false
  | inr self =>
      (F32.of_pyfloat (adc_offset self) =? minus_one32) &&
      (calibrate self 0 =? minus_one32) &&
      (calibrate self (max_raw b) =? plus_one32) &&
      (F32.add (F32.of_pyfloat (adc_offset self))
               (F32.mul (F32.of_pyfloat (adc_scale self)) (F32.of_int (max_raw b)))
       =? plus_one32) &&
      ascending (F32.of_pyfloat (adc_scale self)) (F32.of_pyfloat (adc_offset self))
                (Z.to_nat (max_raw b)) 0 (calibrate self 0)
  end.

(** ** Auxiliary notions for the proofs *)

(** What every operation on channel [i] keeps, with [n] channels: the
    handles stay open on their files, files only grow, and the other
    channels are untouched. *)
Definition preserves (n i : nat) (st st' : io_state) : Prop :=
  handles_open n st ->
  handles_open n st' /\
  fs_extends (fs st) (fs st') /\
  forall j, j <> i -> channel_content st' j = channel_content st j.

Definition io_preserves {A} (n i : nat) (m : IO A) : Prop :=
  forall st r st', m st = (r, st') -> preserves n i st st'.

(** The state with handle [i] replaced. *)
Definition set_handle (i : nat) (g : file_object) (fs' : gmap string (list byte))
    (st : io_state) : io_state :=
  {| fs := fs'; file_handles := <[i := g]> (file_handles st) |}.

(** Bytes the loop over [rows], started at channel [i], appends to
    channel [j]. *)
Definition rows_bytes (self : DataAcquisition) (d : acquisition_data) (i : nat)
    (rows : list (list Z)) (j : nat) : list byte :=
  if decide (i <= j)%nat then
    match rows !! (j - i)%nat, waveform_sizes d !! j with
    | Some waveform, Some size => Format.encode (record_of self d waveform size)
    | _, _ => []
    end
  else [].


(** ** [config.py]: the configuration reader *)

(** The exceptions of the configuration and set-up code.
    [NoSectionError], [NoOptionError] and [DuplicateSectionError] are
    the subclasses of [configparser.Error] the parser raises here. *)
Module Py.

Inductive exception :=
  | ValueError
  | KeyError
  | NoSectionError
  | NoOptionError
  | DuplicateSectionError
  | ConfigurationError      (* config.ConfigurationError *)
  | RuntimeError
  | EOFError
  | FELibError.             (* caen_felib.error.Error *)

Definition result (A : Type) : Type := exception + A.

Definition raise {A} (e : exception) : result A := inl e.

Definition bind {A B} (x : result A) (k : A -> result B) : result B :=
  match x with
  | inl e => inl e
  | inr a => k a
  end.

(** [isinstance(e, configparser.Error)]. *)
Definition is_configparser_Error (e : exception) : bool :=
  match e with
  | NoSectionError | NoOptionError | DuplicateSectionError => true
  | _ => false
  end.

(** [d[key]] on a dict. *)
Definition getitem {V} (d : gmap string V) (key : string) : result V :=
  match d !! key with
  | Some v => inr v
  | None => raise KeyError
  end.

End Py.

Notation "'let?' x ':=' c1 'in' c2" := (Py.bind c1 (fun x => c2))
  (at level 10, x pattern, c1 at level 100, c2 at level 200).

(** The part of [configparser.ConfigParser] that [ConfigReader] uses,
    as created there: no interpolation, values are strings. The
    parser keeps the [DEFAULT] section apart from the others. *)
Module configparser.
Import Py.

Record ConfigParser := {
  _defaults : gmap string string;
  _sections : gmap string (gmap string string);
}.

Definition default_section : string := "DEFAULT".

Section Parser.
(** [optionxform], which is [str.lower] unless overridden. *)
Variable optionxform : string -> string.

Definition has_section (self : ConfigParser) (section : string) : bool :=
  bool_decide (is_Some (_sections self !! section)).

Definition contains (self : ConfigParser) (key : string) : bool :=
  bool_decide (key = default_section) || has_section self key.

Definition has_option (self : ConfigParser) (section option : string) : bool :=
  if bool_decide (section = "" \/ section = default_section) then
    bool_decide (is_Some (_defaults self !! optionxform option))
  else
    match _sections self !! section with
    | None => false
    | Some d =>
        bool_decide (is_Some (d !! optionxform option))
        || bool_decide (is_Some (_defaults self !! optionxform option))
    end.

(** [get(section, option)] without [vars] and [fallback]: the option
    is looked up in the section, then in [DEFAULT]. *)
Definition get (self : ConfigParser) (section option : string) : result string :=
  let? sectiondict :=
    match _sections self !! section with
    | Some d => inr d
    | None =>
        if bool_decide (section = default_section) then inr ∅
        else raise NoSectionError
    end in
  match sectiondict !! optionxform option with
  | Some value => inr value
  | None =>
      match _defaults self !! optionxform option with
      | Some value => inr value
      | None => raise NoOptionError
      end
  end.

Definition add_section (self : ConfigParser) (section : string)
  : result ConfigParser :=
  if bool_decide (section = default_section) then raise ValueError
  else if has_section self section then raise DuplicateSectionError
  else inr {| _defaults := _defaults self;
              _sections := <[section := ∅]> (_sections self) |}.

Definition set (self : ConfigParser) (section option value : string)
  : result ConfigParser :=
  if bool_decide (section = "" \/ section = default_section) then
    inr {| _defaults := <[optionxform option := value]> (_defaults self);
           _sections := _sections self |}
  else
    match _sections self !! section with
    | None => raise NoSectionError
    | Some sectdict =>
        inr {| _defaults := _defaults self;
               _sections := <[section := <[optionxform option := value]> sectdict]>
                              (_sections self) |}
    end.

Definition remove_option (self : ConfigParser) (section option : string)
  : result (bool * ConfigParser) :=
  if bool_decide (section = "" \/ section = default_section) then
    if bool_decide (is_Some (_defaults self !! optionxform option)) then
      inr (true,
           {| _defaults := delete (optionxform option) (_defaults self);
              _sections := _sections self |})
    else inr (false, self)
  else
    match _sections self !! section with
    | None => raise NoSectionError
    | Some sectdict =>
        if bool_decide (is_Some (sectdict !! optionxform option)) then
          inr (true,
               {| _defaults := _defaults self;
                  _sections := <[section := delete (optionxform option) sectdict]>
                                 (_sections self) |})
        else inr (false, self)
    end.

Definition remove_section (self : ConfigParser) (section : string)
  : bool * ConfigParser :=
  if has_section self section then
    (true, {| _defaults := _defaults self;
              _sections := delete section (_sections self) |})
  else (false, self).

End Parser.
End configparser.

Module config.
Import Py.

Record ChannelSettings := {
  dc_offset : Z;
  threshold : Z;
}.

Record AcquisitionSettings := {
  record_length : Z;
  pretrigger : Z;
  acq_trigger_source : string;
  trigger_mode : string;
  selected_channels : string;
  trigger_mask : string;
}.

(** The reader after [__init__]: [config] holds what [_load_config]
    read from the INI file (nothing when the file does not exist).
    The values of [default_settings] are the strings the callers
    pass. *)
Record ConfigReader := {
  file_path : string;
  default_settings : gmap string (gmap string string);
  num_channels : Z;
  config : configparser.ConfigParser;
}.

Definition with_config (self : ConfigReader) (c : configparser.ConfigParser)
  : ConfigReader :=
  {| file_path := file_path self; default_settings := default_settings self;
     num_channels := num_channels self; config := c |}.

(** The INI file at [file_path], as far as saving goes: whether it can
    be opened for writing, and the configuration last written to it. *)
Record ini_file := {
  writable : bool;
  written : option configparser.ConfigParser;
}.

Section Reader.
Variable optionxform : string -> string.   (* [str.lower] *)
Variable int : string -> option Z.         (* [int(value)]; [None] is [ValueError] *)

(** [except (KeyError, configparser.Error) as e: raise ConfigurationError]. *)
Definition except_lookup {A} (r : result A) : result A :=
  match r with
  | inl e =>
      match e with
      | KeyError => raise ConfigurationError
      | _ => if is_configparser_Error e then raise ConfigurationError else inl e
      end
  | inr a => inr a
  end.

(** [except configparser.Error as e: raise ConfigurationError]. *)
Definition except_parser (e : exception) : exception :=
  if is_configparser_Error e then ConfigurationError else e.

(** [except (ConfigurationError, KeyError, ValueError) as e:
    raise ConfigurationError]. *)
Definition except_settings {A} (r : result A) : result A :=
  match r with
  | inl (ConfigurationError | KeyError | ValueError) => raise ConfigurationError
  | _ => r
  end.

Definition _get_with_default (self : ConfigReader) (section option : string)
  : result string :=
  except_lookup
    (if String.prefix "CH" section then
       if configparser.has_option optionxform (config self) section option
       then configparser.get optionxform (config self) section option
       else
         let? d := getitem (default_settings self) "default_channel" in
         getitem d option
     else
       if configparser.has_option optionxform (config self) section option
       then configparser.get optionxform (config self) section option
       else
         let? d := getitem (default_settings self) section in
         getitem d option).

Definition _get_int_with_default (self : ConfigReader) (section option : string)
  : result Z :=
  let? value := _get_with_default self section option in
  match int value with
  | Some n => inr n
  | None => raise ConfigurationError
  end.

Definition get_acquisition_settings (self : ConfigReader)
  : result AcquisitionSettings :=
  except_settings
    (let? record_length := _get_int_with_default self "ACQ" "record_length" in
     let? pretrigger := _get_int_with_default self "ACQ" "pretrigger" in
     let? acq_trigger_source := _get_with_default self "ACQ" "acq_trigger_source" in
     let? trigger_mode := _get_with_default self "ACQ" "trigger_mode" in
     let? selected_channels := _get_with_default self "ACQ" "selected_channels" in
     let? trigger_mask := _get_with_default self "ACQ" "trigger_mask" in
     inr {| record_length := record_length; pretrigger := pretrigger;
            acq_trigger_source := acq_trigger_source;
            trigger_mode := trigger_mode;
            selected_channels := selected_channels;
            trigger_mask := trigger_mask |}).

Definition get_channel_settings (self : ConfigReader) (channel : Z)
  : result ChannelSettings :=
  if negb (bool_decide (0 <= channel < num_channels self)) then raise ValueError
  else
    except_settings
      (let section := "CH" +:+ pretty channel in
       let? dc_offset := _get_int_with_default self section "dc_offset" in
       let? threshold := _get_int_with_default self section "threshold" in
       inr {| dc_offset := dc_offset; threshold := threshold |}).

Definition get (self : ConfigReader) (section option : string) : result string :=
  _get_with_default self section option.

(** [_save_current_config]: any failure to write the file is raised
    as [ConfigurationError]. *)
Definition _save_current_config (self : ConfigReader) (f : ini_file)
  : result unit * ini_file :=
  if writable f
  then (inr tt, {| writable := true; written := Some (config self) |})
  else (raise ConfigurationError, f).

(** [set(section, option, value)], [value] being [str(value)]. The
    parser object is updated in place, so the reader is returned along
    with the outcome. *)
Definition set (self : ConfigReader) (section option value : string) (f : ini_file)
  : result unit * ConfigReader * ini_file :=
  match (if configparser.contains (config self) section
         then inr (config self)
         else configparser.add_section (config self) section) with
  | inl e => (inl (except_parser e), self, f)
  | inr c1 =>
      match configparser.set optionxform c1 section option value with
      | inl e => (inl (except_parser e), with_config self c1, f)
      | inr c2 =>
          let '(r, f') := _save_current_config (with_config self c2) f in
          (r, with_config self c2, f')
      end
  end.

Definition remove_option (self : ConfigReader) (section option : string)
    (f : ini_file) : result bool * ConfigReader * ini_file :=
  match configparser.remove_option optionxform (config self) section option with
  | inl e => (inl (except_parser e), self, f)
  | inr (result, c1) =>
      if result then
        match _save_current_config (with_config self c1) f with
        | (inl e, f') => (inl e, with_config self c1, f')
        | (inr _, f') => (inr result, with_config self c1, f')
        end
      else (inr result, with_config self c1, f)
  end.

Definition remove_section (self : ConfigReader) (section : string)
    (f : ini_file) : result bool * ConfigReader * ini_file :=
  let '(result, c1) := configparser.remove_section (config self) section in
  if result then
    match _save_current_config (with_config self c1) f with
    | (inl e, f') => (inl e, with_config self c1, f')
    | (inr _, f') => (inr result, with_config self c1, f')
    end
  else (inr result, with_config self c1, f).

End Reader.
End config.

(** ** [main.py]: applying the settings to the digitizer *)

(** The digitizer as [set_settings] uses it: the value read from
    [par.NUMCH], the parameters the device accepts, and the
    assignments made so far, each a FELib path and a value, oldest
    first. An assignment the device refuses raises and is not
    recorded. *)
Module Setup.

Record Device := {
  NUMCH : Py.result string;
  accepts : string -> string -> bool;
  assignments : list (string * string);
}.

Definition set_value (path value : string) (dig : Device)
  : Py.result unit * Device :=
  if accepts dig path value
  then (inr tt, {| NUMCH := NUMCH dig; accepts := accepts dig;
                   assignments := assignments dig ++ [(path, value)] |})
  else (Py.raise Py.FELibError, dig).

(** [dig.par.<name>] and [dig.ch[i].par.<name>]. *)
Definition par (name : string) : string := "/par/" +:+ name.
Definition ch_par (i : Z) (name : string) : string :=
  "/ch/" +:+ pretty i +:+ "/par/" +:+ name.

(** The attributes of [DataAcquisition] that [set_settings] reads. *)
Record Settings := {
  config : config.ConfigReader;
  acq_settings : config.AcquisitionSettings;
}.

Section SetSettings.
Variable optionxform : string -> string.   (* [str.lower] *)
Variable int : string -> option Z.         (* [int(s)] *)
Variable int16 : string -> option Z.       (* [int(s, 16)] *)

(** [check_mask]: the channel's bit of the hexadecimal mask, as the
    string of a [bool]. A negative shift count raises [ValueError]. *)
Definition check_mask (mask : string) (channel : Z) : Py.result string :=
  match int16 mask with
  | None => Py.raise Py.ValueError
  | Some mask =>
      if channel <? 0 then Py.raise Py.ValueError
      else
        let result := negb (Z.land mask (Z.shiftl 1 channel) =? 0) in
        inr (if result then "True" else "False")
  end.

(** State-and-exception threading of the assignments. *)
Definition dev_bind {A B} (m : Device -> Py.result A * Device)
    (k : A -> Device -> Py.result B * Device) : Device -> Py.result B * Device :=
  fun dig =>
    match m dig with
    | (inl e, dig') => (inl e, dig')
    | (inr a, dig') => k a dig'
    end.

Definition dev_lift {A} (r : Py.result A) : Device -> Py.result A * Device :=
  fun dig => (r, dig).

(** Body of [for i in range(...)] for one channel. *)
Definition set_channel (self : Settings) (i : Z)
  : Device -> Py.result unit * Device :=
  dev_bind (dev_lift (config.get_channel_settings optionxform int (config self) i))
    (fun channel_settings =>
  dev_bind (set_value (ch_par i "DCOffset") (pretty (config.dc_offset channel_settings)))
    (fun _ =>
  dev_bind (set_value (ch_par i "TriggerThr") (pretty (config.threshold channel_settings)))
    (fun _ =>
  dev_bind (dev_lift (check_mask (config.selected_channels (acq_settings self)) i))
    (fun enable =>
  set_value (ch_par i "chenable") enable)))).

Fixpoint set_channels (self : Settings) (channels : list Z)
  : Device -> Py.result unit * Device :=
  match channels with
  | [] => dev_lift (inr tt)
  | i :: channels' =>
      dev_bind (set_channel self i) (fun _ => set_channels self channels')
  end.

(** [range(n)]. *)
Definition range (n : Z) : list Z := Z.of_nat <$> seq 0 (Z.to_nat n).

(** The [try] block of [set_settings]. *)
Definition set_settings_body (self : Settings)
  : Device -> Py.result unit * Device :=
  dev_bind (set_value (par "RECORDLENGTHT")
              (pretty (config.record_length (acq_settings self))))
    (fun _ =>
  dev_bind (set_value (par "PRETRIGGERT")
              (pretty (config.pretrigger (acq_settings self))))
    (fun _ =>
  dev_bind (set_value (par "AcqTriggerSource")
              (config.acq_trigger_source (acq_settings self)))
    (fun _ =>
  dev_bind (set_value (par "ITLAMASK") (config.trigger_mask (acq_settings self)))
    (fun _ =>
  dev_bind (fun dig => (NUMCH dig, dig))
    (fun numch =>
  dev_bind (dev_lift (match int numch with
                      | Some n => inr n
                      | None => Py.raise Py.ValueError
                      end))
    (fun n => set_channels self (range n))))))).

(** [set_settings]: every exception is raised as [RuntimeError]. *)
Definition set_settings (self : Settings) (dig : Device)
  : Py.result unit * Device :=
  match set_settings_body self dig with
  | (inl _, dig') => (Py.raise Py.RuntimeError, dig')
  | (inr _, dig') => (inr tt, dig')
  end.

End SetSettings.

End Setup.

(** ** [main.py]: the key listener *)

Section Listener.
(** [user_input.strip().lower()]. *)
Variable strip_lower : string -> string.
(** Outcome of the [k]-th call of [print_settings], which reads the
    device. *)
Variable print_settings : nat -> Py.result unit.

(** What [listen_for_key] has done when it returns or raises: whether
    it set the stop flag, how often it printed the settings, and the
    lines of the input it has not read. *)
Record listened := {
  outcome : Py.result unit;
  stop_set : bool;
  printed : nat;
  unread : list string;
}.

(** The loop over the lines of the standard input; [input()] raises
    [EOFError] at the end of the input. *)
Fixpoint listen_for_key (lines : list string) (printed : nat) : listened :=
  match lines with
  | [] => {| outcome := Py.raise Py.EOFError; stop_set := false;
             printed := printed; unread := [] |}
  | user_input :: lines' =>
      if bool_decide (strip_lower user_input = "q") then
        {| outcome := inr tt; stop_set := true;
           printed := printed; unread := lines' |}
      else if bool_decide (strip_lower user_input = "s") then
        match print_settings printed with
        | inl e => {| outcome := inl e; stop_set := false;
                      printed := printed; unread := lines' |}
        | inr _ => listen_for_key lines' (S printed)
        end
      else listen_for_key lines' printed
  end.

End Listener.

(** ** Sample configuration *)

(** [str.lower] and [int] on the strings of the examples: ASCII
    letters, and decimal literals made of an optional minus sign and
    ASCII digits. *)
Definition lower_ascii (c : Ascii.ascii) : Ascii.ascii :=
  let n := Ascii.nat_of_ascii c in
  if (65 <=? n)%nat && (n <=? 90)%nat then Ascii.ascii_of_nat (n + 32) else c.

Fixpoint lower (s : string) : string :=
  match s with
  | EmptyString => EmptyString
  | String c s' => String (lower_ascii c) (lower s')
  end.

Fixpoint int_digits (s : string) (acc : Z) : option Z :=
  match s with
  | EmptyString => Some acc
  | String c s' =>
      let n := Z.of_nat (Ascii.nat_of_ascii c) in
      if (48 <=? n) && (n <=? 57) then int_digits s' (10 * acc + (n - 48))
      else None
  end.

Definition int_decimal (s : string) : option Z :=
  match s with
  | EmptyString => None
  | String c s' =>
      if (Ascii.nat_of_ascii c =? 45)%nat then
        match s' with
        | EmptyString => None
        | _ => Z.opp <$> int_digits s' 0
        end
      else int_digits s 0
  end.

(** The defaults of [main.py], and a reader for three channels whose
    file sets the DC offset of channel 1 and a trigger source. *)
Definition main_default_settings : gmap string (gmap string string) :=
  {[ "ACQ" := {[ "record_length" := "300000"; "pretrigger" := "16336";
                 "acq_trigger_source" := "SwTrg"; "trigger_mode" := "Normal";
                 "selected_channels" := "0x7"; "trigger_mask" := "0x0" ]};
     "default_channel" := {[ "dc_offset" := "50"; "threshold" := "100" ]} ]}.

Definition example_reader : config.ConfigReader :=
  {| config.file_path := "settings.ini";
     config.default_settings := main_default_settings;
     config.num_channels := 3;
     config.config :=
       {| configparser._defaults := ∅;
          configparser._sections :=
            {[ "CH1" := {[ "dc_offset" := "75" ]};
               "ACQ" := {[ "acq_trigger_source" := "TrgIn" ]} ]} |} |}.

Definition example_ini : config.ini_file :=
  {| config.writable := true; config.written := None |}.

(** [int(s, 16)] on the masks of the examples: an optional [0x]
    followed by ASCII hexadecimal digits. *)
Fixpoint hex_digits (s : string) (acc : Z) : option Z :=
  match s with
  | EmptyString => Some acc
  | String c s' =>
      let n := Z.of_nat (Ascii.nat_of_ascii c) in
      if (48 <=? n) && (n <=? 57) then hex_digits s' (16 * acc + (n - 48))
      else if (97 <=? n) && (n <=? 102) then hex_digits s' (16 * acc + (n - 87))
      else if (65 <=? n) && (n <=? 70) then hex_digits s' (16 * acc + (n - 55))
      else None
  end.

Definition int_hex (s : string) : option Z :=
  match s with
  | EmptyString => None
  | String a (String b s') =>
      if (Ascii.nat_of_ascii a =? 48)%nat
         && ((Ascii.nat_of_ascii b =? 120)%nat || (Ascii.nat_of_ascii b =? 88)%nat)
      then match s' with EmptyString => None | _ => hex_digits s' 0 end
      else hex_digits s 0
  | _ => hex_digits s 0
  end.

(** A digitizer with three channels that accepts every assignment,
    and settings that select channels 0 and 2. *)
Definition example_device : Setup.Device :=
  {| Setup.NUMCH := inr "3"; Setup.accepts := fun _ _ => true;
     Setup.assignments := [] |}.

Definition example_settings : Setup.Settings :=
  {| Setup.config := example_reader;
     Setup.acq_settings :=
       {| config.record_length := 300000; config.pretrigger := 16336;
          config.acq_trigger_source := "TrgIn"; config.trigger_mode := "Normal";
          config.selected_channels := "0x5"; config.trigger_mask := "0x0" |} |}.

(** ** Further notions for the proofs *)

(** The commands the producer has sent to the digitizer, by control
    point: arm and start once, one software trigger per read attempt,
    and the disarm of the [finally] block last. After a failure the
    attempt that raised may have sent one trigger more than there are
    frames. *)
Definition cmds_inv (s : pipeline) : Prop :=
  match ppc s with
  | PStart => dig_cmds s = [] /\ acq_count s = 0%nat
  | PLoop | PTrigger | PSentinel | PFinally false =>
      dig_cmds s = [CmdArm; CmdStart] ++ repeat CmdTrigger (acq_count s)
  | PFinally true =>
      (dig_cmds s = [CmdArm] /\ acq_count s = 0%nat) \/
      exists t, (acq_count s <= t <= S (acq_count s))%nat /\
        dig_cmds s = [CmdArm; CmdStart] ++ repeat CmdTrigger t
  | PExit false =>
      dig_cmds s
      = [CmdArm; CmdStart] ++ repeat CmdTrigger (acq_count s) ++ [CmdDisarm]
  | PExit true =>
      (dig_cmds s = [CmdArm; CmdDisarm] /\ acq_count s = 0%nat) \/
      exists t, (acq_count s <= t <= S (acq_count s))%nat /\
        dig_cmds s = [CmdArm; CmdStart] ++ repeat CmdTrigger t ++ [CmdDisarm]
  end.

(** The producer has left its acquisition loop. *)
Definition producer_left_loop (pc : producer_pc) : bool :=
  match pc with
  | PSentinel | PFinally _ | PExit _ => true
  | _ => false
  end.

(** The consumer has left its saving loop. *)
Definition consumer_left_loop (pc : consumer_pc) : bool :=
  match pc with
  | CFinally _ | CExit _ => true
  | _ => false
  end.

(** Bytes of the file one event stands for: the 24 header bytes and
    four bytes for each sample the header announces. *)
Definition event_size (ev : Event) : nat :=
  (24 + 4 * Z.to_nat (NSamples ev))%nat.

(** Depths at which [__init__] computes a scale. *)
Definition init_succeeds (b : N) : bool :=
  match init b with
  | inr self =>
      match adc_scale self with
      | S754_finite false _ _ => true
      | _ => false
      end
  | inl _ => false
  end.

Definition init_overflows (b : N) : bool :=
  match init b with
  | inl OverflowError => true
  | _ => false
  end.

(** What the defaults give for an option, when the file has nothing
    for it: [default_settings["default_channel"][option]] for a
    channel section, [default_settings[section][option]] otherwise,
    a missing key being reported as [ConfigurationError]. *)
Definition default_value (self : config.ConfigReader) (section option : string)
  : Py.result string :=
  match config.default_settings self
          !! (if String.prefix "CH" section then "default_channel" else section) with
  | Some d =>
      match d !! option with
      | Some value => inr value
      | None => Py.raise Py.ConfigurationError
      end
  | None => Py.raise Py.ConfigurationError
  end.

(** What holds of the parser of a [ConfigReader] at all times: the
    [DEFAULT] section is not among the named sections, and a section
    with the empty name, which only [set("", ...)] can create, has no
    options of its own. *)
Definition parser_ok (c : configparser.ConfigParser) : Prop :=
  configparser._sections c !! configparser.default_section = None /\
  forall d, configparser._sections c !! "" = Some d -> d = ∅.

(** The assignments [set_settings] makes for channel [i] when the
    settings of the channel resolve and the mask parses. *)
Definition channel_assignments (optionxform : string -> string)
    (int int16 : string -> option Z) (self : Setup.Settings) (i : Z)
  : list (string * string) :=
  match config.get_channel_settings optionxform int (Setup.config self) i,
        int16 (config.selected_channels (Setup.acq_settings self)) with
  | inr channel_settings, Some mask =>
      [(Setup.ch_par i "DCOffset", pretty (config.dc_offset channel_settings));
       (Setup.ch_par i "TriggerThr", pretty (config.threshold channel_settings));
       (Setup.ch_par i "chenable", if Z.testbit mask i then "True" else "False")]
  | _, _ => []
  end.

Definition global_assignments (self : Setup.Settings) : list (string * string) :=
  [(Setup.par "RECORDLENGTHT",
    pretty (config.record_length (Setup.acq_settings self)));
   (Setup.par "PRETRIGGERT",
    pretty (config.pretrigger (Setup.acq_settings self)));
   (Setup.par "AcqTriggerSource",
    config.acq_trigger_source (Setup.acq_settings self));
   (Setup.par "ITLAMASK", config.trigger_mask (Setup.acq_settings self))].

(** * Properties *)

(** ** Little-endian integers *)

Module BytesFacts.
Import Bytes.

Lemma Z_of_byte_range b : 0 <= Z_of_byte b < 256.
Proof.
  unfold Z_of_byte. pose proof (Byte.to_N_bounded b) as H.
  split; [apply N2Z.is_nonneg|].
  apply (Z.le_lt_trans _ (Z.of_N 255)); [|done].
  by apply N2Z.inj_le.
Qed.

Lemma Z_of_byte_of_Z z : Z_of_byte (byte_of_Z z) = z mod 256.
Proof.
  unfold Z_of_byte, byte_of_Z.
  assert (Hr : 0 <= z mod 256 < 256) by (apply Z.mod_pos_bound; lia).
  destruct (Byte.of_N (Z.to_N (z mod 256))) as [b|] eqn:E; simpl.
  - apply Byte.to_of_N in E. rewrite E. rewrite Z2N.id; lia.
  - apply Byte.of_N_None_iff in E. lia.
Qed.

Lemma byte_of_Z_of_byte b : byte_of_Z (Z_of_byte b) = b.
Proof.
  unfold byte_of_Z, Z_of_byte.
  rewrite Z.mod_small by apply Z_of_byte_range.
  by rewrite N2Z.id, Byte.of_to_N.
Qed.

Lemma length_int_to_bytes_le n v : length (int_to_bytes_le n v) = n.
Proof. revert v. induction n as [|n IH]; intros v; simpl; [done|]. by rewrite IH. Qed.

Lemma int_from_bytes_le_range bs :
  0 <= int_from_bytes_le bs < 256 ^ Z.of_nat (length bs).
Proof.
  induction bs as [|b bs IH]; [simpl; lia|].
  cbn [int_from_bytes_le length]. pose proof (Z_of_byte_range b).
  rewrite Nat2Z.inj_succ, Z.pow_succ_r by lia. lia.
Qed.

Lemma int_from_to_bytes_le n v :
  int_from_bytes_le (int_to_bytes_le n v) = v mod 256 ^ Z.of_nat n.
Proof.
  revert v. induction n as [|n IH]; intros v.
  - simpl. by rewrite Z.mod_1_r.
  - cbn [int_to_bytes_le int_from_bytes_le].
    rewrite IH, Z_of_byte_of_Z, Nat2Z.inj_succ, Z.pow_succ_r by lia.
    rewrite Z.rem_mul_r by lia. lia.
Qed.

Lemma int_from_to_bytes_le_small n v :
  0 <= v < 256 ^ Z.of_nat n ->
  int_from_bytes_le (int_to_bytes_le n v) = v.
Proof. intros H. rewrite int_from_to_bytes_le. by apply Z.mod_small. Qed.

Lemma byte_of_Z_add_mul a k : byte_of_Z (a + 256 * k) = byte_of_Z a.
Proof.
  unfold byte_of_Z. replace (a + 256 * k) with (a + k * 256) by lia.
  by rewrite Z.mod_add by lia.
Qed.

Lemma int_to_from_bytes_le bs :
  int_to_bytes_le (length bs) (int_from_bytes_le bs) = bs.
Proof.
  induction bs as [|b bs IH]; [done|].
  cbn [length int_to_bytes_le int_from_bytes_le].
  pose proof (Z_of_byte_range b) as Hb.
  rewrite byte_of_Z_add_mul, byte_of_Z_of_byte. f_equal.
  replace ((Z_of_byte b + 256 * int_from_bytes_le bs) / 256)
    with (int_from_bytes_le bs); [done|].
  apply (Z.div_unique _ _ _ (Z_of_byte b)); lia.
Qed.

End BytesFacts.

(** ** The [struct] formats *)

Module StructFacts.
Import Bytes BytesFacts Struct.

Lemma pack_uint_ok size v :
  0 <= v < 256 ^ Z.of_nat size ->
  pack_uint size v = inr (int_to_bytes_le size v).
Proof. intros H. unfold pack_uint. by rewrite bool_decide_true. Qed.

Lemma pack_uint_inr size v bs :
  pack_uint size v = inr bs ->
  0 <= v < 256 ^ Z.of_nat size /\ bs = int_to_bytes_le size v.
Proof.
  unfold pack_uint. case_bool_decide; [|done]. intros [= <-]. done.
Qed.

Lemma pack_uint_error size v :
  ~ 0 <= v < 256 ^ Z.of_nat size -> pack_uint size v = inl StructError.
Proof. intros H. unfold pack_uint. by rewrite bool_decide_false. Qed.

Lemma unpack_pack_uint size v :
  0 <= v < 256 ^ Z.of_nat size ->
  unpack_uint_le size (int_to_bytes_le size v) = inr v.
Proof.
  intros H. unfold unpack_uint_le.
  rewrite bool_decide_true by apply length_int_to_bytes_le.
  by rewrite int_from_to_bytes_le_small.
Qed.

Lemma unpack_uint_le_inr size bs v :
  unpack_uint_le size bs = inr v ->
  length bs = size /\ v = int_from_bytes_le bs.
Proof. unfold unpack_uint_le. case_bool_decide; [|done]. by intros [= <-]. Qed.

Lemma unpack_uint_le_inl size bs e :
  unpack_uint_le size bs = inl e -> e = StructError /\ length bs <> size.
Proof. unfold unpack_uint_le. case_bool_decide; [done|]. by intros [= <-]. Qed.

End StructFacts.

(** ** binary32 words *)

Module F32Facts.
Import Bytes BytesFacts.

Lemma land_mask_range x n :
  0 <= n -> 0 <= Z.land x (Z.ones n) < 2 ^ n.
Proof. intros Hn. rewrite Z.land_ones by done. apply Z.mod_pos_bound. lia. Qed.

Lemma to_bits_range x : 0 <= F32.to_bits x < 2 ^ 32.
Proof.
  destruct x as [s|s| |s m e]; unfold F32.to_bits, F32.sign_bit.
  - destruct s; lia.
  - destruct s; lia.
  - lia.
  - destruct (Z.ltb_spec (Z.pos m) 8388608).
    + destruct s; lia.
    + pose proof (land_mask_range (e + 150) 8) as He.
      pose proof (land_mask_range (Z.pos m) 23) as Hm.
      change (Z.ones 8) with 255 in He. change (Z.ones 23) with 8388607 in Hm.
      rewrite Z.shiftl_mul_pow2 by lia.
      destruct s; lia.
Qed.

Lemma unpack_tofile w :
  0 <= w < 2 ^ 32 ->
  F32.unpack_f_le (F32.tofile w) = inr (F32.of_bits w).
Proof.
  intros H. unfold F32.unpack_f_le, F32.tofile, Struct.int_to_bytes, Struct.sys_byteorder.
  rewrite bool_decide_true by apply length_int_to_bytes_le.
  by rewrite int_from_to_bytes_le_small.
Qed.

Lemma unpack_f_le_inr bs x :
  F32.unpack_f_le bs = inr x -> length bs = 4%nat.
Proof. unfold F32.unpack_f_le. by case_bool_decide. Qed.

Lemma unpack_f_le_inl bs e :
  F32.unpack_f_le bs = inl e -> e = StructError.
Proof. unfold F32.unpack_f_le. case_bool_decide; [done|]. by intros [= <-]. Qed.

End F32Facts.

(** ** The record reader *)

Module ReaderFacts.
Import Bytes BytesFacts Struct StructFacts Reader.

Lemma read_app n (l k : list byte) :
  length l = n -> read n (l ++ k) = (l, k).
Proof.
  intros H. unfold read.
  by rewrite take_app_length', drop_app_length'.
Qed.

Lemma length_encode r :
  length (Format.encode r) = (24 + 4 * length (Format.samples r))%nat.
Proof.
  unfold Format.encode. rewrite !length_app, !length_int_to_bytes_le.
  assert (length (concat (map (int_to_bytes_le 4) (Format.samples r)))
          = (4 * length (Format.samples r))%nat) as ->; [|lia].
  induction (Format.samples r) as [|w ws IH]; [done|].
  cbn [map concat length]. rewrite length_app, length_int_to_bytes_le. lia.
Qed.

Lemma read_waveform_encode ws rest :
  Forall (fun w => 0 <= w < 2 ^ 32) ws ->
  read_waveform (length ws) (concat (map (int_to_bytes_le 4) ws) ++ rest)
  = inr (map F32.of_bits ws, rest).
Proof.
  induction 1 as [|w ws Hw _ IH]; [done|].
  cbn [length map concat read_waveform].
  rewrite <- app_assoc, read_app by apply length_int_to_bytes_le.
  pose proof (F32Facts.unpack_tofile w Hw) as Hu.
  unfold F32.tofile, Struct.int_to_bytes, Struct.sys_byteorder in Hu.
  rewrite Hu. cbn [rbind].
  by rewrite IH.
Qed.

(** A complete record at the head of the file decodes to its event and
    leaves the rest of the file unread. *)
Lemma read_event_encode r rest :
  Format.well_formed r ->
  read_event (Format.encode r ++ rest) = inr (Format.decode r, rest).
Proof.
  intros (Ht & Hs & Hc & Hr & Hlen & Hws).
  unfold read_event, Format.encode, unpack_I_le, unpack_Q_le.
  rewrite <- !app_assoc.
  rewrite read_app by apply length_int_to_bytes_le.
  rewrite unpack_pack_uint by (simpl; lia). cbn [rbind].
  rewrite read_app by apply length_int_to_bytes_le.
  rewrite unpack_pack_uint by (simpl; lia). cbn [rbind].
  rewrite read_app by apply length_int_to_bytes_le.
  rewrite unpack_pack_uint by (simpl; lia). cbn [rbind].
  rewrite read_app by apply length_int_to_bytes_le.
  rewrite unpack_pack_uint by (simpl; lia). cbn [rbind].
  rewrite Hlen, Nat2Z.id, read_waveform_encode by done. cbn [rbind].
  unfold Format.decode. by rewrite Hlen.
Qed.

Lemma read_waveform_inr n f wf f' :
  read_waveform n f = inr (wf, f') ->
  length f = (4 * n + length f')%nat.
Proof.
  revert f wf f'. induction n as [|n IH]; intros f wf f'.
  - simpl. intros [= _ <-]. lia.
  - cbn [read_waveform read].
    destruct (F32.unpack_f_le (take 4 f)) as [e|x] eqn:Hu; [done|].
    apply F32Facts.unpack_f_le_inr in Hu. cbn [rbind].
    destruct (read_waveform n (drop 4 f)) as [e|[wf1 f1]] eqn:Hw; [done|].
    cbn [rbind]. intros [= _ <-]. apply IH in Hw.
    rewrite length_take in Hu. rewrite length_drop in Hw. lia.
Qed.

Lemma read_waveform_inl n f e :
  read_waveform n f = inl e -> e = StructError.
Proof.
  revert f e. induction n as [|n IH]; intros f e; [done|].
  cbn [read_waveform read].
  destruct (F32.unpack_f_le (take 4 f)) as [e'|x] eqn:Hu.
  - apply F32Facts.unpack_f_le_inl in Hu. by intros [= <-].
  - cbn [rbind].
    destruct (read_waveform n (drop 4 f)) as [e'|[wf1 f1]] eqn:Hw; [|done].
    apply IH in Hw. by intros [= <-].
Qed.

(** The only exception the loop body raises is [struct.error]. *)
Lemma read_event_inl f e : read_event f = inl e -> e = StructError.
Proof.
  unfold read_event, read, unpack_I_le, unpack_Q_le.
  repeat match goal with
  | |- context [unpack_uint_le ?n ?bs] =>
      let H := fresh "H" in
      destruct (unpack_uint_le n bs) eqn:H;
      [apply unpack_uint_le_inl in H as [-> _]; by intros [= <-]|];
      clear H; cbn [rbind]
  end.
  match goal with
  | |- context [read_waveform ?n ?bs] =>
      destruct (read_waveform n bs) as [e'|[wf f5]] eqn:Hw
  end; [|done].
  apply read_waveform_inl in Hw. by intros [= <-].
Qed.

(** A successful pass consumed a header and the samples it announces. *)
Lemma read_event_inr f ev f' :
  read_event f = inr (ev, f') ->
  NSamples ev = int_from_bytes_le (take 4 (drop 12 f)) /\
  length f = (24 + 4 * Z.to_nat (NSamples ev) + length f')%nat.
Proof.
  unfold read_event, read, unpack_I_le, unpack_Q_le.
  destruct (unpack_uint_le 4 (take 4 f)) as [|v1] eqn:H1; [done|].
  cbn [rbind].
  destruct (unpack_uint_le 8 (take 8 (drop 4 f))) as [|v2] eqn:H2; [done|].
  cbn [rbind].
  destruct (unpack_uint_le 4 (take 4 (drop 8 (drop 4 f)))) as [|v3] eqn:H3;
    [done|].
  cbn [rbind].
  destruct (unpack_uint_le 8 (take 8 (drop 4 (drop 8 (drop 4 f)))))
    as [|v4] eqn:H4; [done|].
  cbn [rbind].
  destruct (read_waveform (Z.to_nat v3) _) as [|[wf f5]] eqn:Hw; [done|].
  cbn [rbind]. intros [= <- <-]. cbn [NSamples].
  apply unpack_uint_le_inr in H1 as [L1 _], H2 as [L2 _],
    H3 as [L3 ->], H4 as [L4 _].
  apply read_waveform_inr in Hw.
  rewrite !drop_drop in *. rewrite !length_take, !length_drop in *.
  split; [done|]. lia.
Qed.

(** A strict prefix of a record does not decode. *)
Lemma read_event_truncated r n :
  Format.well_formed r ->
  (n < length (Format.encode r))%nat ->
  read_event (take n (Format.encode r)) = inl StructError.
Proof.
  intros Hwf Hn.
  destruct (read_event (take n (Format.encode r))) as [e|[ev f']] eqn:Hr.
  - by apply read_event_inl in Hr as ->.
  - exfalso. apply read_event_inr in Hr as [Hns Hlen].
    rewrite length_take in Hlen.
    assert (16 <= n)%nat as Hn16 by lia.
    assert (NSamples ev = Format.sample_count r) as Hcount.
    { rewrite Hns, take_drop_commute, take_take.
      replace (min (12 + 4) n) with 16%nat by lia.
      unfold Format.encode.
      rewrite !app_assoc.
      rewrite <- (app_assoc _ (int_to_bytes_le 8 _) (concat _)).
      rewrite take_app_length' by (rewrite !length_app, !length_int_to_bytes_le; lia).
      rewrite <- !app_assoc, app_assoc.
      rewrite drop_app_length' by (rewrite !length_app, !length_int_to_bytes_le; lia).
      destruct Hwf as (_ & _ & Hc & _).
      apply int_from_to_bytes_le_small. simpl. lia. }
    rewrite length_encode in Hn, Hlen.
    destruct Hwf as (_ & _ & _ & _ & Hl & _).
    rewrite Hcount, Hl, Nat2Z.id in Hlen. lia.
Qed.

Lemma read_loop_app fuel rs frag :
  Forall Format.well_formed rs ->
  (length rs < S fuel)%nat ->
  (exists e, read_event frag = inl e) ->
  read_loop (S fuel) (concat (map Format.encode rs) ++ frag)
  = map Format.decode rs.
Proof.
  intros Hwf. revert fuel.
  induction Hwf as [|r rs Hr _ IH]; intros fuel Hfuel [e He].
  - cbn [map concat app read_loop]. by rewrite He.
  - cbn [map concat read_loop]. rewrite <- app_assoc, read_event_encode by done.
    destruct fuel as [|fuel]; [simpl in Hfuel; lia|].
    rewrite IH; [done|simpl in Hfuel; lia|by exists e].
Qed.

Lemma length_concat_encode rs :
  (length rs <= length (concat (map Format.encode rs)))%nat.
Proof.
  induction rs as [|r rs IH]; [done|].
  cbn [map concat length]. rewrite length_app, length_encode. lia.
Qed.

(** Reading back whole records followed by a fragment that does not
    decode. *)
Lemma read_raw_data_records rs frag :
  Forall Format.well_formed rs ->
  (exists e, read_event frag = inl e) ->
  read_raw_data (concat (map Format.encode rs) ++ frag)
  = map Format.decode rs.
Proof.
  intros Hwf He. unfold read_raw_data. apply read_loop_app; [done| |done].
  rewrite length_app. pose proof (length_concat_encode rs). lia.
Qed.

End ReaderFacts.

(** ** Files and the serialisation of one acquisition *)

Module SaveFacts.
Import Bytes BytesFacts Struct StructFacts.

Lemma string_length_app (s t : string) :
  String.length (s +:+ t) = (String.length s + String.length t)%nat.
Proof. induction s as [|a s IH]; simpl; [done|]. by rewrite IH. Qed.

Lemma app_inj_r (s1 s2 t : string) : s1 +:+ t = s2 +:+ t -> s1 = s2.
Proof.
  revert s2. induction s1 as [|a s1 IH]; intros [|b s2]; simpl; intros H.
  - done.
  - apply (f_equal String.length) in H. simpl in H.
    rewrite !string_length_app in H. simpl in H. lia.
  - apply (f_equal String.length) in H. simpl in H.
    rewrite !string_length_app in H. simpl in H. lia.
  - injection H as -> H. f_equal. by apply IH.
Qed.

Lemma filename_inj i j : filename i = filename j -> i = j.
Proof.
  unfold filename. intros H.
  apply (inj (String.app "raw_CH")) in H.
  apply app_inj_r in H. by apply (inj pretty) in H.
Qed.

Lemma fs_extends_refl fs : fs_extends fs fs.
Proof. intros fname old H. exists []. by rewrite app_nil_r. Qed.

Lemma fs_extends_trans fs1 fs2 fs3 :
  fs_extends fs1 fs2 -> fs_extends fs2 fs3 -> fs_extends fs1 fs3.
Proof.
  intros H12 H23 fname old H.
  destruct (H12 _ _ H) as [a1 H1]. destruct (H23 _ _ H1) as [a2 H2].
  exists (a1 ++ a2). by rewrite app_assoc.
Qed.

Lemma fs_extends_insert fs fname app :
  fs_extends fs (<[fname := file_content fs fname ++ app]> fs).
Proof.
  intros g old H. destruct (decide (fname = g)) as [->|Hne].
  - exists app. rewrite lookup_insert_eq. unfold file_content. by rewrite H.
  - exists []. by rewrite lookup_insert_ne, app_nil_r.
Qed.

Lemma fs_extends_open fs fname : fs_extends fs (open_ab fname fs).1.
Proof.
  unfold open_ab. simpl.
  rewrite <- (app_nil_r (file_content fs fname)). apply fs_extends_insert.
Qed.

Lemma fs_extends_flush f fs : fs_extends fs (flush f fs).1.
Proof. apply fs_extends_insert. Qed.

Lemma fs_extends_close f fs : fs_extends fs (close f fs).1.
Proof. apply fs_extends_insert. Qed.

Lemma with_handle_None i op st :
  file_handles st !! i = None -> with_handle i op st = (inl KeyError, st).
Proof. intros H. unfold with_handle. by rewrite H. Qed.

Lemma with_handle_Some i op st f :
  file_handles st !! i = Some f ->
  with_handle i op st
  = (inr tt, {| fs := (op f (fs st)).1;
                file_handles := <[i := (op f (fs st)).2]> (file_handles st) |}).
Proof. intros H. unfold with_handle. rewrite H. by destruct (op f (fs st)). Qed.

Lemma io_bind_inv {A B} (m : IO A) (k : A -> IO B) st r st' :
  io_bind m k st = (r, st') ->
  (exists e, m st = (inl e, st') /\ r = inl e) \/
  (exists a st1, m st = (inr a, st1) /\ k a st1 = (r, st')).
Proof.
  unfold io_bind. destruct (m st) as [[e|a] st1]; intros H.
  - left. exists e. by injection H as <- <-.
  - right. by exists a, st1.
Qed.

Section Channels.
Variable self : DataAcquisition.
Variable n : nat.

Lemma preserves_refl i st : preserves n i st st.
Proof. intros H. split; [done|]. split; [apply fs_extends_refl|done]. Qed.

Lemma preserves_trans i st1 st2 st3 :
  preserves n i st1 st2 -> preserves n i st2 st3 -> preserves n i st1 st3.
Proof.
  intros H12 H23 H1.
  destruct (H12 H1) as (H2 & He12 & Hc12).
  destruct (H23 H2) as (H3 & He23 & Hc23).
  split; [done|]. split; [by eapply fs_extends_trans|].
  intros j Hj. by rewrite Hc23, Hc12.
Qed.

Lemma io_preserves_bind {A B} i (m : IO A) (k : A -> IO B) :
  io_preserves n i m -> (forall a, io_preserves n i (k a)) ->
  io_preserves n i (io_bind m k).
Proof.
  intros Hm Hk st r st' H.
  apply io_bind_inv in H as [(e & H & _)|(a & st1 & H1 & H2)].
  - by eapply Hm.
  - eapply preserves_trans; [by eapply Hm|by eapply Hk].
Qed.

Lemma io_preserves_lift {A} i (r : result A) : io_preserves n i (io_lift r).
Proof. intros st r' st' [= _ <-]. apply preserves_refl. Qed.

Lemma io_preserves_ret {A} i (a : A) : io_preserves n i (io_ret a).
Proof. intros st r' st' [= _ <-]. apply preserves_refl. Qed.

(** Replacing handle [i] by one on the same file, the file being
    left alone or extended. *)
Lemma preserves_update i st f f' fs' :
  file_handles st !! i = Some f ->
  name f' = name f -> closed f' = closed f ->
  (fs' = fs st \/
   exists app, fs' = <[name f := file_content (fs st) (name f) ++ app]> (fs st)) ->
  preserves n i st {| fs := fs'; file_handles := <[i := f']> (file_handles st) |}.
Proof.
  intros Hi Hname Hclosed Hfs [Hlen Hopen].
  assert (i < length (file_handles st))%nat as Hlt
    by (apply lookup_lt_is_Some; eauto).
  assert (fs_extends (fs st) fs') as Hext.
  { destruct Hfs as [->|[app ->]];
      [apply fs_extends_refl|apply fs_extends_insert]. }
  split; [|split; [done|]].
  - split; [cbn [file_handles]; by rewrite length_insert|]. cbn [fs file_handles].
    intros j g Hj.
    destruct (decide (i = j)) as [<-|Hne].
    + rewrite list_lookup_insert_eq in Hj by done. injection Hj as <-.
      destruct (Hopen _ _ Hi) as (Hn & Hc & [old Hs]).
      rewrite Hname, Hclosed. do 2 (split; [done|]).
      destruct (Hext _ _ Hs) as [app' ->]. eauto.
    + rewrite list_lookup_insert_ne in Hj by done.
      destruct (Hopen _ _ Hj) as (Hn & Hc & [old Hs]).
      do 2 (split; [done|]).
      destruct (Hext _ _ Hs) as [app' ->]. eauto.
  - intros j Hj. unfold channel_content. cbn [fs file_handles].
    rewrite list_lookup_insert_ne by done.
    destruct (file_handles st !! j) as [g|] eqn:Hg; [|done].
    f_equal. destruct Hfs as [->|[app ->]]; [done|].
    unfold file_content. rewrite lookup_insert_ne; [done|].
    destruct (Hopen _ _ Hi) as (Hn & _), (Hopen _ _ Hg) as (Hn' & _).
    rewrite Hn, Hn'. intros E. by apply filename_inj in E.
Qed.

Lemma io_preserves_with_handle i op :
  (forall f fs, name (op f fs).2 = name f /\ closed (op f fs).2 = closed f /\
     ((op f fs).1 = fs \/
      exists app, (op f fs).1 = <[name f := file_content fs (name f) ++ app]> fs)) ->
  io_preserves n i (with_handle i op).
Proof.
  intros Hop st r st' H.
  destruct (file_handles st !! i) as [f|] eqn:Hi.
  - rewrite (with_handle_Some _ _ _ _ Hi) in H. injection H as _ <-.
    destruct (Hop f (fs st)) as (Hn & Hc & Hfs).
    by apply (preserves_update i st f).
  - rewrite with_handle_None in H by done. injection H as _ <-.
    apply preserves_refl.
Qed.

Lemma io_preserves_write i bs : io_preserves n i (f_write i bs).
Proof. apply io_preserves_with_handle. intros f fs. simpl. eauto. Qed.

Lemma io_preserves_flush i : io_preserves n i (f_flush i).
Proof. apply io_preserves_with_handle. intros f fs. simpl. eauto. Qed.

Lemma io_preserves_save_channel d i waveform :
  io_preserves n i (save_channel self d i waveform).
Proof.
  unfold save_channel.
  repeat first
    [ apply io_preserves_bind; [|intros ?]
    | apply io_preserves_lift
    | apply io_preserves_write
    | apply io_preserves_flush
    | apply io_preserves_ret
    | apply io_preserves_with_handle; intros f fs; simpl; eauto
    | case_bool_decide ].
Qed.

Lemma bind_with_handle {B} i op (k : unit -> IO B) st f :
  file_handles st !! i = Some f ->
  io_bind (with_handle i op) k st
  = k tt (set_handle i (op f (fs st)).2 (op f (fs st)).1 st).
Proof. intros H. unfold io_bind. by rewrite (with_handle_Some _ _ _ _ H). Qed.

Lemma set_handle_lookup i g fs' st f :
  file_handles st !! i = Some f ->
  file_handles (set_handle i g fs' st) !! i = Some g.
Proof.
  intros H. cbn [set_handle file_handles].
  apply list_lookup_insert_eq, lookup_lt_is_Some. eauto.
Qed.

Lemma set_handle_set_handle i g1 g2 fs1 fs2 st :
  set_handle i g2 fs2 (set_handle i g1 fs1 st) = set_handle i g2 fs2 st.
Proof. unfold set_handle. cbn [file_handles]. by rewrite list_insert_insert_eq. Qed.

(** [save_channel] spelled out on an existing handle: where each
    exception leaves the file object, and the normal outcome. *)
Lemma save_channel_Some d i waveform st f :
  file_handles st !! i = Some f ->
  save_channel self d i waveform st =
  match waveform_sizes d !! i with
  | None => (inl IndexError, st)
  | Some size =>
    match pack_I (trigger_num d) with
    | inl e => (inl e, st)
    | inr b1 =>
      match pack_Q (timestamp d) with
      | inl e => (inl e, set_handle i (write f b1) (fs st) st)
      | inr b2 =>
        match pack_I size with
        | inl e => (inl e, set_handle i (write (write f b1) b2) (fs st) st)
        | inr b3 =>
          let f4 := write (write (write (write f b1) b2) b3)
                          (int_to_bytes_le 8 8) in
          let f5 := write f4 (concat (map F32.tofile
                      (adc_to_mv self (take (Z.to_nat size) waveform)))) in
          if bool_decide (trigger_num d mod 10 = 0)
          then (inr tt, set_handle i (flush f5 (fs st)).2 (flush f5 (fs st)).1 st)
          else (inr tt, set_handle i f5 (fs st) st)
        end
      end
    end
  end.
Proof.
  intros Hi. unfold save_channel.
  rewrite (bind_with_handle _ _ _ _ _ Hi). cbn [fst snd].
  assert (set_handle i f (fs st) st = st) as ->.
  { unfold set_handle. rewrite list_insert_id by done. by destruct st. }
  unfold io_bind at 1, io_lift at 1.
  destruct (waveform_sizes d !! i) as [size|]; [|done].
  unfold io_bind at 1, io_lift at 1.
  destruct (pack_I (trigger_num d)) as [e|b1]; [done|].
  unfold f_write at 1. rewrite (bind_with_handle _ _ _ _ _ Hi). cbn [fst snd].
  unfold io_bind at 1, io_lift at 1.
  destruct (pack_Q (timestamp d)) as [e|b2]; [done|].
  unfold f_write at 1.
  rewrite (bind_with_handle _ _ _ _ _ (set_handle_lookup _ _ _ _ _ Hi)).
  cbn [fst snd]. rewrite set_handle_set_handle.
  unfold io_bind at 1, io_lift at 1. cbn [fs set_handle].
  destruct (pack_I size) as [e|b3]; [done|].
  unfold f_write at 1.
  rewrite (bind_with_handle _ _ _ _ _ (set_handle_lookup _ _ _ _ _ Hi)).
  cbn [fst snd]. fold (set_handle i (write (write f b1) b2) (fs st) st).
  rewrite set_handle_set_handle.
  unfold io_bind at 1, io_lift at 1.
  assert (pack_Q 8 = inr (int_to_bytes_le 8 8)) as ->
    by (apply pack_uint_ok; simpl; lia).
  unfold f_write at 1.
  rewrite (bind_with_handle _ _ _ _ _ (set_handle_lookup _ _ _ _ _ Hi)).
  cbn [fst snd]. rewrite set_handle_set_handle.
  unfold f_write at 1.
  rewrite (bind_with_handle _ _ _ _ _ (set_handle_lookup _ _ _ _ _ Hi)).
  cbn [fst snd]. rewrite set_handle_set_handle. cbn [fs set_handle].
  case_bool_decide; [|done].
  unfold f_flush.
  fold (set_handle i (write (write (write (write (write f b1) b2) b3)
          (int_to_bytes_le 8 8)) (concat (map F32.tofile
             (adc_to_mv self (take (Z.to_nat size) waveform))))) (fs st) st).
  rewrite (with_handle_Some _ _ _ _ (set_handle_lookup _ _ _ _ _ Hi)).
  cbn [fs set_handle file_handles]. by rewrite list_insert_insert_eq.
Qed.

Lemma encode_record_of d waveform size b1 b2 b3 :
  pack_I (trigger_num d) = inr b1 ->
  pack_Q (timestamp d) = inr b2 ->
  pack_I size = inr b3 ->
  (((b1 ++ b2) ++ b3) ++ int_to_bytes_le 8 8) ++
    concat (map F32.tofile (adc_to_mv self (take (Z.to_nat size) waveform)))
  = Format.encode (record_of self d waveform size).
Proof.
  intros H1 H2 H3.
  apply pack_uint_inr in H1 as [_ ->], H2 as [_ ->], H3 as [_ ->].
  unfold Format.encode, record_of.
  cbn [Format.trigger_id Format.rec_timestamp Format.sample_count
       Format.time_resolution Format.samples].
  rewrite <- !app_assoc. reflexivity.
Qed.

(** Normal return of the loop body: the channel's bytes grew by one
    whole record. *)
Lemma save_channel_inr d i waveform st st' :
  save_channel self d i waveform st = (inr tt, st') ->
  exists size,
    waveform_sizes d !! i = Some size /\
    (0 <= trigger_num d < 2 ^ 32 /\ 0 <= timestamp d < 2 ^ 64 /\
     0 <= size < 2 ^ 32) /\
    channel_content st' i
    = channel_content st i ++ Format.encode (record_of self d waveform size).
Proof.
  intros H.
  destruct (file_handles st !! i) as [f|] eqn:Hi.
  2: { unfold save_channel, io_bind in H.
       by rewrite with_handle_None in H. }
  rewrite (save_channel_Some _ _ _ _ _ Hi) in H.
  destruct (waveform_sizes d !! i) as [size|]; [|done].
  destruct (pack_I (trigger_num d)) as [|b1] eqn:H1; [done|].
  destruct (pack_Q (timestamp d)) as [|b2] eqn:H2; [done|].
  destruct (pack_I size) as [|b3] eqn:H3; [done|].
  exists size. split; [done|]. split.
  { apply pack_uint_inr in H1 as [? _], H2 as [? _], H3 as [? _].
    simpl in *. lia. }
  rewrite <- (encode_record_of _ _ _ _ _ _ H1 H2 H3).
  cbv zeta in H. unfold channel_content at 2. rewrite Hi.
  assert (i < length (file_handles st))%nat
    by (apply lookup_lt_is_Some; eauto).
  set (b4 := int_to_bytes_le 8 8) in *.
  set (b5 := concat _) in *.
  case_bool_decide; injection H as <-; unfold channel_content;
    cbn [set_handle fs file_handles flush fst snd write name pending];
    rewrite list_lookup_insert_eq by done;
    unfold write; cbn [name pending].
  - unfold file_content at 1. rewrite lookup_insert_eq. cbn [default].
    by rewrite app_nil_r, <- !app_assoc.
  - by rewrite <- !app_assoc.
Qed.


(** The whole loop, whatever its outcome. *)
Lemma save_channels_preserves d rows i st r st' :
  save_channels self d i rows st = (r, st') ->
  handles_open n st ->
  handles_open n st' /\ fs_extends (fs st) (fs st').
Proof.
  revert i st. induction rows as [|w rows IH]; intros i st H Hopen.
  - injection H as _ <-. split; [done|apply fs_extends_refl].
  - cbn [save_channels] in H.
    apply io_bind_inv in H as [(e & H & _)|([] & st1 & H1 & H2)].
    + by destruct (io_preserves_save_channel _ _ _ _ _ _ H Hopen) as (? & ? & _).
    + destruct (io_preserves_save_channel _ _ _ _ _ _ H1 Hopen) as (Ho1 & He1 & _).
      destruct (IH _ _ H2 Ho1) as (Ho2 & He2).
      split; [done|by eapply fs_extends_trans].
Qed.

Lemma save_channels_inr d rows i st st' :
  save_channels self d i rows st = (inr tt, st') ->
  handles_open n st ->
  forall j, channel_content st' j
            = channel_content st j ++ rows_bytes self d i rows j.
Proof.
  revert i st. induction rows as [|w rows IH]; intros i st H Hopen j.
  - injection H as <-. unfold rows_bytes.
    rewrite lookup_nil. case_decide; by rewrite app_nil_r.
  - cbn [save_channels] in H.
    apply io_bind_inv in H as [(e & _ & ?)|([] & st1 & H1 & H2)]; [done|].
    destruct (io_preserves_save_channel _ _ _ _ _ _ H1 Hopen) as (Ho1 & _ & Hc1).
    apply save_channel_inr in H1 as (size & Hsz & _ & Hci).
    rewrite (IH _ _ H2 Ho1 j). unfold rows_bytes.
    destruct (decide (i = j)) as [<-|Hne].
    + rewrite Hci. rewrite decide_False by lia. rewrite decide_True by lia.
      rewrite Nat.sub_diag, Hsz. cbn [lookup list_lookup].
      by rewrite app_nil_r.
    + rewrite Hc1 by done. f_equal.
      destruct (decide (S i <= j)%nat) as [Hle|Hgt].
      * rewrite decide_True by lia.
        replace (j - i)%nat with (S (j - S i)) by lia. done.
      * by rewrite decide_False by lia.
Qed.


Lemma rows_bytes_channel_bytes d j :
  rows_bytes self d 0 (waveforms d) j = channel_bytes self d j.
Proof.
  unfold rows_bytes, channel_bytes.
  rewrite decide_True by lia. by rewrite Nat.sub_0_r.
Qed.


(** Normal return of [save_acquisition]: each channel grew by the
    frame's record for it. *)
Lemma save_acquisition_inr d st st' :
  save_acquisition self d st = (inr tt, st') ->
  handles_open n st ->
  handles_open n st' /\ fs_extends (fs st) (fs st') /\
  forall j, channel_content st' j
            = channel_content st j ++ channel_bytes self d j.
Proof.
  intros H Hopen.
  destruct (save_channels_preserves _ _ _ _ _ _ H Hopen) as [Ho He].
  do 2 (split; [done|]). intros j.
  rewrite <- rows_bytes_channel_bytes. by apply save_channels_inr.
Qed.

End Channels.

Section Serialisation.
Variable self : DataAcquisition.

(** *** Header fields beyond their formats *)

Lemma save_channel_raises d i waveform st :
  (exists size, waveform_sizes d !! i = Some size /\ 2 ^ 32 <= size) \/
  2 ^ 32 <= trigger_num d ->
  exists e st', save_channel self d i waveform st = (inl e, st').
Proof.
  intros H.
  destruct (file_handles st !! i) as [f|] eqn:Hi.
  2: { unfold save_channel, io_bind. rewrite with_handle_None by done. eauto. }
  rewrite (save_channel_Some _ _ _ _ _ _ Hi).
  destruct (waveform_sizes d !! i) as [size|] eqn:Hs; [|eauto].
  destruct (pack_I (trigger_num d)) as [|b1] eqn:H1; [eauto|].
  destruct (pack_Q (timestamp d)) as [|b2] eqn:H2; [eauto|].
  destruct (pack_I size) as [|b3] eqn:H3; [eauto|].
  apply pack_uint_inr in H1 as [H1 _], H3 as [H3 _]. simpl in H1, H3.
  destruct H as [(size' & [= <-] & Hge)|Hge]; lia.
Qed.

Lemma save_channels_raises d rows i0 i st :
  (i0 <= i < i0 + length rows)%nat ->
  (exists size, waveform_sizes d !! i = Some size /\ 2 ^ 32 <= size) \/
  2 ^ 32 <= trigger_num d ->
  exists e st', save_channels self d i0 rows st = (inl e, st').
Proof.
  revert i0 st. induction rows as [|w rows IH]; intros i0 st Hi H.
  - simpl in Hi. lia.
  - cbn [save_channels]. unfold io_bind.
    destruct (save_channel self d i0 w st) as [[e|[]] st1] eqn:Hsave; [eauto|].
    destruct (decide (i = i0)) as [->|Hne].
    + destruct (save_channel_raises d i0 w st H) as (e & st' & He).
      by rewrite He in Hsave.
    + apply IH; [simpl in Hi; lia|done].
Qed.

(** *** Samples beyond the valid count *)




End Serialisation.

(** *** Opening and closing the channel files *)

Lemma file_content_open fs fname g :
  file_content (<[fname := file_content fs fname]> fs) g = file_content fs g.
Proof.
  unfold file_content. destruct (decide (fname = g)) as [->|Hne].
  - by rewrite lookup_insert_eq.
  - by rewrite lookup_insert_ne.
Qed.

Lemma open_files_lookup n i st j f :
  file_handles st !! j = Some f ->
  file_handles (open_files i n st) !! j = Some f.
Proof.
  revert i st. induction n as [|n IH]; intros i st H; [done|].
  cbn [open_files open_ab]. apply IH. cbn [file_handles].
  by apply lookup_app_l_Some.
Qed.

Lemma open_files_spec n i st :
  handles_open i st ->
  handles_open (i + n) (open_files i n st) /\
  fs_extends (fs st) (fs (open_files i n st)) /\
  (forall g, file_content (fs (open_files i n st)) g = file_content (fs st) g) /\
  (forall j, (i <= j < i + n)%nat ->
     exists f, file_handles (open_files i n st) !! j = Some f /\ pending f = []).
Proof.
  revert i st. induction n as [|n IH]; intros i st Hopen.
  - rewrite Nat.add_0_r. cbn [open_files].
    split; [done|]. split; [apply fs_extends_refl|]. split; [done|]. lia.
  - cbn [open_files open_ab].
    set (st1 := {| fs := _; file_handles := _ |}).
    destruct Hopen as [Hlen Hopen].
    assert (handles_open (S i) st1) as Ho1.
    { split; [subst st1; cbn [file_handles]; rewrite length_app; simpl; lia|].
      intros j f Hj. subst st1. cbn [fs file_handles] in *.
      assert (forall g, is_Some (fs st !! g) ->
                is_Some (<[filename i:=file_content (fs st) (filename i)]> (fs st) !! g))
        as Hsome.
      { intros g Hg. destruct (decide (filename i = g)) as [<-|];
          [rewrite lookup_insert_eq|rewrite lookup_insert_ne]; eauto. }
      destruct (decide (j < i)%nat) as [Hlt|Hge].
      - rewrite lookup_app_l in Hj by lia.
        destruct (Hopen _ _ Hj) as (? & ? & ?). eauto.
      - rewrite lookup_app_r in Hj by lia.
        destruct (j - length (file_handles st))%nat as [|m] eqn:Hm; [|done].
        injection Hj as <-. cbn [name closed].
        assert (j = i) as -> by lia.
        do 2 (split; [done|]). rewrite lookup_insert_eq. eauto. }
    destruct (IH (S i) st1 Ho1) as (Ho & He & Hc & Hp).
    replace (i + S n)%nat with (S i + n)%nat by lia.
    split; [done|]. split; [|split].
    + eapply fs_extends_trans; [|exact He].
      subst st1. cbn [fs].
      rewrite <- (app_nil_r (file_content (fs st) (filename i))).
      apply fs_extends_insert.
    + intros g. rewrite Hc. subst st1. cbn [fs]. apply file_content_open.
    + intros j Hj. destruct (decide (j = i)) as [->|Hne].
      * destruct Ho as [_ Ho], Ho1 as [_ Ho1'].
        assert (file_handles st1 !! i
                = Some {| name := filename i; pending := []; closed := false |})
          as H1.
        { subst st1. cbn [file_handles].
          rewrite lookup_app_r by lia. by rewrite Hlen, Nat.sub_diag. }
        eexists. split; [by apply open_files_lookup|done].
      * apply Hp. lia.
Qed.

Lemma close_all_spec hs i0 fs :
  (forall j f, hs !! j = Some f -> name f = filename (i0 + j)) ->
  length (close_all hs fs).2 = length hs /\
  fs_extends fs (close_all hs fs).1 /\
  (forall g, (forall j, (j < length hs)%nat -> g <> filename (i0 + j)) ->
     (close_all hs fs).1 !! g = fs !! g) /\
  (forall j f, hs !! j = Some f ->
     (exists f', (close_all hs fs).2 !! j = Some f' /\ name f' = name f /\
                 closed f' = true /\ pending f' = []) /\
     (close_all hs fs).1 !! filename (i0 + j)
     = Some (file_content fs (filename (i0 + j)) ++ pending f)).
Proof.
  revert i0 fs. induction hs as [|f hs IH]; intros i0 fs Hnames.
  - cbn. split; [done|]. split; [apply fs_extends_refl|]. done.
  - cbn [close_all flush close name pending closed].
    set (fs2 := <[name f := _]> (<[name f := _]> fs)).
    assert (name f = filename i0) as Hf
      by (rewrite (Hnames 0%nat f eq_refl); f_equal; lia).
    assert (fs2 !! name f = Some (file_content fs (name f) ++ pending f)) as Hfs2.
    { subst fs2. rewrite lookup_insert_eq. unfold file_content at 1.
      rewrite lookup_insert_eq. cbn [default]. by rewrite app_nil_r. }
    assert (forall g, g <> name f -> fs2 !! g = fs !! g) as Hfs2'.
    { intros g Hg. subst fs2. by rewrite !lookup_insert_ne. }
    assert (fs_extends fs fs2) as He2.
    { intros g old Hg. destruct (decide (g = name f)) as [->|Hne].
      - rewrite Hfs2. unfold file_content. rewrite Hg. eauto.
      - rewrite Hfs2' by done. exists []. by rewrite app_nil_r. }
    destruct (IH (S i0) fs2) as (Hlen & He & Hother & Hj).
    { intros j g Hg. rewrite (Hnames (S j) g Hg). f_equal. lia. }
    destruct (close_all hs fs2) as [fs3 hs''] eqn:Hca. cbn [fst snd] in *.
    split; [cbn [length]; by rewrite Hlen|].
    split; [by eapply fs_extends_trans|]. split.
    + intros g Hg. rewrite Hother.
      * apply Hfs2'. rewrite Hf. rewrite <- (Nat.add_0_r i0).
        apply Hg. simpl. lia.
      * intros j Hlt. replace (S i0 + j)%nat with (i0 + S j)%nat by lia.
        apply Hg. simpl. lia.
    + intros [|j] g Hg.
      * injection Hg as <-. split.
        { eexists. split; [done|]. done. }
        rewrite Nat.add_0_r, <- Hf, Hother; [done|].
        intros j Hlt E. rewrite Hf in E. apply filename_inj in E. lia.
      * destruct (Hj j g Hg) as [Hex Hfs3]. split; [done|].
        replace (i0 + S j)%nat with (S i0 + j)%nat by lia.
        rewrite Hfs3. do 2 f_equal. unfold file_content.
        rewrite Hfs2'; [done|]. rewrite Hf. intros E.
        apply filename_inj in E. lia.
Qed.

Lemma close_files_spec n st :
  handles_open n st ->
  handles_closed n (close_files st) /\
  fs_extends (fs st) (fs (close_files st)) /\
  forall i, (i < n)%nat ->
    fs (close_files st) !! filename i = Some (channel_content st i).
Proof.
  intros [Hlen Hopen]. unfold close_files.
  destruct (close_all_spec (file_handles st) 0 (fs st)) as (Hl & He & _ & Hj).
  { intros j f Hf. by destruct (Hopen _ _ Hf). }
  destruct (close_all (file_handles st) (fs st)) as [fs' hs'] eqn:Hca.
  cbn [fst snd fs file_handles] in *.
  split; [|split; [done|]].
  - split; [cbn [file_handles]; lia|]. cbn [fs file_handles].
    intros i f' Hi.
    assert (i < length (file_handles st))%nat as Hlt.
    { rewrite <- Hl. apply lookup_lt_is_Some. eauto. }
    apply lookup_lt_is_Some in Hlt as [f Hf].
    destruct (Hj _ _ Hf) as [(f1 & H1 & Hn & Hc & Hp) Hfs].
    rewrite Hi in H1. injection H1 as <-.
    destruct (Hopen _ _ Hf) as (Hname & _).
    rewrite Hn. do 3 (split; [done|]). simpl in Hfs. rewrite Hfs. eauto.
  - intros i Hi.
    destruct (lookup_lt_is_Some_2 (file_handles st) i) as [f Hf]; [lia|].
    destruct (Hj _ _ Hf) as [_ Hfs]. simpl in Hfs. rewrite Hfs.
    unfold channel_content. rewrite Hf.
    destruct (Hopen _ _ Hf) as (-> & _). done.
Qed.

End SaveFacts.

(** ** The pipeline under every schedule *)

Module PipelineFacts.
Import SaveFacts.

Section Runs.
Variable self : DataAcquisition.
Variable dig : digitizer.
Variable n_ch : nat.
Variable fs0 : gmap string (list byte).

Local Abbreviation invS := (inv self dig n_ch fs0).
Local Abbreviation queue_invS := (queue_inv dig).
Local Abbreviation io_invS := (io_inv self dig n_ch fs0).
Local Abbreviation stepS := (step self dig n_ch).
Local Abbreviation runS := (run self dig n_ch).

Lemma length_frames k : length (frames dig k) = k.
Proof. unfold frames. by rewrite length_fmap, length_seq. Qed.

Lemma frames_S k : frames dig (S k) = frames dig k ++ [frame_at dig k].
Proof. unfold frames. by rewrite seq_S, fmap_app. Qed.

Lemma frames_lookup k acq :
  (k < acq)%nat -> frames dig acq !! k = Some (frame_at dig k).
Proof.
  intros H. unfold frames. rewrite list_lookup_fmap, lookup_seq_lt by done.
  done.
Qed.

Lemma records_0 i : records self dig i 0 = [].
Proof. done. Qed.

Lemma records_S i k :
  records self dig i (S k)
  = records self dig i k ++ channel_bytes self (frame_at dig k) i.
Proof.
  unfold records. rewrite frames_S, fmap_app, concat_app. cbn.
  by rewrite app_nil_r.
Qed.

Lemma drop_frames_snoc k acq :
  (k <= acq)%nat ->
  drop k (frames dig (S acq)) = drop k (frames dig acq) ++ [frame_at dig acq].
Proof.
  intros H. rewrite frames_S, drop_app_le; [done|]. by rewrite length_frames.
Qed.

Lemma queue_inv_ext k s s' :
  cpc s' = cpc s -> sentinel_put (ppc s') = sentinel_put (ppc s) ->
  acquisition_queue s' = acquisition_queue s -> acq_count s' = acq_count s ->
  queue_invS k s -> queue_invS k s'.
Proof.
  unfold queue_invS, sentinel. by intros -> -> -> ->.
Qed.

Lemma io_inv_ext k s s' :
  cpc s' = cpc s -> io s' = io s -> io_invS k s -> io_invS k s'.
Proof. unfold io_invS. by intros -> ->. Qed.

Lemma inv_start : invS (start fs0).
Proof.
  split; [done|]. split; [done|]. split; [done|].
  split; [apply fs_extends_refl|]. by exists 0%nat.
Qed.

Lemma inv_listener s : invS s -> invS (listener_step s).
Proof.
  intros (_ & _ & Hd & He & k & Hk & Hq & Hi).
  split; [done|]. split; [done|]. split; [done|]. split; [done|].
  exists k. split; [done|]. split.
  - by eapply queue_inv_ext; [..|exact Hq].
  - by eapply io_inv_ext; [..|exact Hi].
Qed.

Lemma inv_producer s : invS s -> invS (producer_step dig s).
Proof.
  intros (Hpf & Hcf & Hd & He & k & Hk & Hq & Hi).
  unfold producer_step.
  destruct (ppc s) as [| | | |failed|failed] eqn:Hpc.
  - (* PStart *)
    destruct (ArmAcquisition dig); [|destruct (SwStartAcquisition dig)];
      (split; [done|]; split; [try done|]; split; [done|]; split; [done|];
       exists k; split; [done|]; split;
       [eapply queue_inv_ext; [..|exact Hq]; cbn; by rewrite ?Hpc
       |by eapply io_inv_ext; [..|exact Hi]]).
  - (* PLoop *)
    split; [by destruct (stop_event s)|]. split; [done|].
    split; [by destruct (stop_event s)|]. split; [done|].
    exists k. split; [done|]. split.
    + eapply queue_inv_ext; [..|exact Hq]; cbn; rewrite ?Hpc;
        by destruct (stop_event s).
    + by eapply io_inv_ext; [..|exact Hi].
  - (* PTrigger *)
    destruct (read_data dig (acq_count s)) as [e|d] eqn:Hread.
    + split; [done|]. split; [done|]. split; [done|]. split; [done|].
      exists k. split; [done|]. split.
      * eapply queue_inv_ext; [..|exact Hq]; cbn; by rewrite ?Hpc.
      * by eapply io_inv_ext; [..|exact Hi].
    + assert (frame_at dig (acq_count s) = d) as Hd'
        by (unfold frame_at; by rewrite Hread).
      split; [done|]. split; [done|]. split; [done|]. split; [done|].
      exists k. split; [cbn; lia|]. split.
      * revert Hq. unfold queue_invS, sentinel.
        cbn [cpc ppc acquisition_queue acq_count]. rewrite Hpc.
        cbn [sentinel_put].
        rewrite !app_nil_r.
        destruct (cpc s) as [| | |[| |e]|[| |e]];
          try (intros ->; by rewrite drop_frames_snoc, Hd', fmap_app by lia);
          try (by intros [? _]);
          (intros [Hlt ->]; split; [lia|];
           by rewrite drop_frames_snoc, Hd', fmap_app by lia).
      * by eapply io_inv_ext; [..|exact Hi].
  - (* PSentinel *)
    split; [done|]. split; [done|]. split; [done|]. split; [done|].
    exists k. split; [done|]. split.
    + revert Hq. unfold queue_invS, sentinel.
        cbn [cpc ppc acquisition_queue acq_count]. rewrite Hpc.
        cbn [sentinel_put].
      rewrite !app_nil_r.
      destruct (cpc s) as [| | |[| |e]|[| |e]];
        try (by intros ->); try (by intros [? _]);
        (by intros [Hlt ->]).
    + by eapply io_inv_ext; [..|exact Hi].
  - (* PFinally *)
    split; [destruct failed; [exact Hpf|done]|]. split; [done|].
    split; [intros _ _; cbn; by rewrite last_snoc|]. split; [done|].
    exists k. split; [done|]. split.
    + eapply queue_inv_ext; [..|exact Hq]; cbn; by rewrite ?Hpc.
    + by eapply io_inv_ext; [..|exact Hi].
  - (* PExit *)
    split; [by rewrite Hpc|]. split; [done|].
    split; [intros f _; by apply (Hd failed)|]. split; [done|].
    by exists k.
Qed.

(** What the head of the queue tells about the run. *)
Lemma queue_head_frame k s d q :
  (k <= acq_count s)%nat ->
  Some d :: q = (Some <$> drop k (frames dig (acq_count s))) ++ sentinel s ->
  (k < acq_count s)%nat /\ d = frame_at dig k /\
  q = (Some <$> drop (S k) (frames dig (acq_count s))) ++ sentinel s.
Proof.
  intros Hk H. destruct (decide (k < acq_count s)%nat) as [Hlt|Hge].
  - rewrite (drop_S _ _ _ (frames_lookup _ _ Hlt)) in H.
    cbn in H. by injection H as -> ->.
  - rewrite drop_ge in H by (rewrite length_frames; lia).
    unfold sentinel in H. by destruct (sentinel_put (ppc s)).
Qed.

Lemma queue_head_sentinel k s q :
  (k <= acq_count s)%nat ->
  None :: q = (Some <$> drop k (frames dig (acq_count s))) ++ sentinel s ->
  sentinel_put (ppc s) = true /\ q = [] /\ k = acq_count s.
Proof.
  intros Hk H.
  destruct (drop k (frames dig (acq_count s))) as [|d l] eqn:Hdrop; [|done].
  apply (f_equal length) in Hdrop. rewrite length_drop, length_frames in Hdrop.
  cbn in H, Hdrop. unfold sentinel in H.
  destruct (sentinel_put (ppc s)); [|done]. injection H as ->.
  split; [done|]. split; [done|]. lia.
Qed.

Lemma inv_consumer s : invS s -> invS (consumer_step self n_ch s).
Proof.
  intros (Hpf & Hcf & Hd & He & k & Hk & Hq & Hi).
  unfold queue_invS, io_invS in Hq, Hi.
  unfold consumer_step, invS, queue_inv, io_inv.
  destruct (cpc s) as [| | |why|why] eqn:Hpc;
    cbn [stop_event acquisition_queue ppc acq_count dig_cmds cpc io].
  - (* COpen *)
    destruct Hi as [-> Hio].
    destruct (open_files_spec n_ch 0 (io s)) as (Ho & Hext & Hc & Hp).
    { rewrite Hio. split; [done|]. intros i f Hf. cbn in Hf. done. }
    split; [done|]. split; [done|]. split; [done|].
    split; [by eapply fs_extends_trans|].
    exists 0%nat. split; [lia|]. split; [done|].
    split; [done|]. intros i Hlt. unfold channel_content.
    destruct (Hp i) as (f & Hf & Hpend); [lia|].
    rewrite Hf, Hpend, app_nil_r. destruct Ho as [_ Ho].
    destruct (Ho _ _ Hf) as (-> & _). rewrite Hc, Hio. cbn [fs].
    by rewrite records_0, app_nil_r.
  - (* CLoop *)
    split; [done|]. split; [by destruct (stop_event s)|].
    split; [done|]. split; [done|].
    exists k. split; [done|]. by destruct (stop_event s).
  - (* CGet *)
    destruct Hi as [Hopen Hcont].
    destruct (acquisition_queue s) as [|[d|] q] eqn:Hqueue;
      cbn [stop_event acquisition_queue ppc acq_count dig_cmds cpc io].
    + (* queue.Empty *)
      split; [done|]. split; [done|]. split; [done|]. split; [done|].
      by exists k.
    + (* a frame *)
      destruct (queue_head_frame _ _ _ _ Hk Hq) as (Hlt & -> & ->).
      destruct (save_acquisition self (frame_at dig k) (io s))
        as [[e|[]] io'] eqn:Hsave;
        cbn [stop_event acquisition_queue ppc acq_count dig_cmds cpc io].
      * destruct (save_channels_preserves _ _ _ _ _ _ _ _ Hsave Hopen)
          as [Ho' He'].
        split; [done|]. split; [done|]. split; [done|].
        split; [by eapply fs_extends_trans|].
        exists k. split; [done|]. split; [|done]. by split.
      * destruct (save_acquisition_inr _ _ _ _ _ Hsave Hopen)
          as (Ho' & He' & Hc').
        split; [done|]. split; [done|]. split; [done|].
        split; [by eapply fs_extends_trans|].
        exists (S k). split; [lia|]. split; [done|]. split; [done|].
        intros i Hi. by rewrite Hc', Hcont, records_S, app_assoc.
    + (* the sentinel *)
      destruct (queue_head_sentinel _ _ _ Hk Hq) as (Hput & -> & ->).
      split; [done|]. split; [done|]. split; [done|]. split; [done|].
      exists (acq_count s). split; [done|]. by split.
  - (* CFinally *)
    destruct why as [| |e].
    + destruct Hi as [Hopen Hcont].
      destruct (close_files_spec _ _ Hopen) as (Hcl & He' & Hfs).
      split; [done|]. split; [done|]. split; [done|].
      split; [by eapply fs_extends_trans|].
      exists k. split; [done|]. split; [done|]. split; [done|].
      intros i Hlt. by rewrite Hfs, Hcont.
    + destruct Hi as [Hopen Hcont].
      destruct (close_files_spec _ _ Hopen) as (Hcl & He' & Hfs).
      split; [done|]. split; [done|]. split; [done|].
      split; [by eapply fs_extends_trans|].
      exists k. split; [done|]. split; [done|]. split; [done|].
      intros i Hlt. by rewrite Hfs, Hcont.
    + destruct (close_files_spec _ _ Hi) as (Hcl & He' & Hfs).
      split; [done|]. split; [done|]. split; [done|].
      split; [by eapply fs_extends_trans|].
      by exists k.
  - (* CExit *)
    rewrite Hpc.
    split; [done|]. split; [done|]. split; [done|]. split; [done|].
    by exists k.
Qed.

Lemma inv_step s t : invS s -> invS (stepS s t).
Proof.
  destruct t; [apply inv_producer|apply inv_consumer|apply inv_listener].
Qed.

Lemma run_snoc sched t s : runS (sched ++ [t]) s = stepS (runS sched s) t.
Proof. unfold run. by rewrite foldl_snoc. Qed.


Lemma inv_run_from sched s : invS s -> invS (runS sched s).
Proof.
  revert s. induction sched as [|t sched IH]; intros s H; [done|].
  apply IH. by apply inv_step.
Qed.

(** The invariant holds after every schedule. *)
Lemma inv_run sched : invS (runS sched (start fs0)).
Proof. apply inv_run_from, inv_start. Qed.

Lemma acq_count_consumer s :
  acq_count (consumer_step self n_ch s) = acq_count s.
Proof.
  unfold consumer_step. destruct (cpc s); try done.
  destruct (acquisition_queue s) as [|[d|] q]; try done.
  by destruct (save_acquisition self d (io s)) as [[?|?] ?].
Qed.



(** *** Termination once the stop flag is set *)

Lemma stop_event_step s t : stop_event s = true -> stop_event (stepS s t) = true.
Proof.
  intros H. destruct t; cbn [step]; [| |done].
  - unfold producer_step. destruct (ppc s); try done.
    + by destruct (ArmAcquisition dig); [|destruct (SwStartAcquisition dig)].
    + by destruct (read_data dig (acq_count s)).
  - unfold consumer_step. destruct (cpc s); try done.
    destruct (acquisition_queue s) as [|[d|] q]; try done.
    by destruct (save_acquisition self d (io s)) as [[?|?] ?].
Qed.

Lemma cpc_producer s : cpc (producer_step dig s) = cpc s.
Proof.
  unfold producer_step. destruct (ppc s); try done.
  - by destruct (ArmAcquisition dig); [|destruct (SwStartAcquisition dig)].
  - by destruct (read_data dig (acq_count s)).
Qed.

Lemma ppc_consumer s : ppc (consumer_step self n_ch s) = ppc s.
Proof.
  unfold consumer_step. destruct (cpc s); try done.
  destruct (acquisition_queue s) as [|[d|] q]; try done.
  by destruct (save_acquisition self d (io s)) as [[?|?] ?].
Qed.







Lemma producer_failed_step s t :
  producer_failed (ppc s) = true ->
  producer_failed (ppc (stepS s t)) = true.
Proof.
  intros H. destruct t; cbn [step]; [|by rewrite ppc_consumer|done].
  unfold producer_step. by destruct (ppc s) as [| | | |[]|[]] eqn:E; rewrite ?E.
Qed.



End Runs.

End PipelineFacts.

(** ** Reading back what the consumer wrote *)

Module RoundTripFacts.
Import Bytes BytesFacts Reader ReaderFacts.

Section Channel.
Variable self : DataAcquisition.
Variable n : nat.
Variable i : nat.
Hypothesis Hi : (i < n)%nat.

Lemma calibrate_range r : 0 <= calibrate self r < 2 ^ 32.
Proof. unfold calibrate, F32.add. apply F32Facts.to_bits_range. Qed.


Lemma read_event_nil : read_event [] = inl StructError.
Proof. done. Qed.


End Channel.

End RoundTripFacts.

(** ** Calibration *)

Module CalibrationFacts.

Lemma SFltb_trans x y z :
  SFltb x y = true -> SFltb y z = true -> SFltb x z = true.
Proof.
  unfold SFltb, SFcompare.
  destruct x as [[]|[]| |[] mx ex], y as [[]|[]| |[] my ey],
           z as [[]|[]| |[] mz ez]; try done.
  - destruct (Z.compare_spec ex ey), (Z.compare_spec ey ez),
      (Z.compare_spec ex ez); try done; try lia; subst;
      change (Pos.compare_cont Eq ?a ?b) with (Pos.compare a b);
      destruct (Pos.compare_spec mx my), (Pos.compare_spec my mz),
        (Pos.compare_spec mx mz); try done; lia.
  - destruct (Z.compare_spec ex ey), (Z.compare_spec ey ez),
      (Z.compare_spec ex ez); try done; try lia; subst;
      change (Pos.compare_cont Eq ?a ?b) with (Pos.compare a b);
      destruct (Pos.compare_spec mx my), (Pos.compare_spec my mz),
        (Pos.compare_spec mx mz); try done; lia.
Qed.

Lemma ltb_trans a b c :
  F32.ltb a b = true -> F32.ltb b c = true -> F32.ltb a c = true.
Proof. unfold F32.ltb. apply SFltb_trans. Qed.

(** What a successful run of [ascending] establishes. *)
Lemma ascending_spec self n r :
  ascending (F32.of_pyfloat (adc_scale self)) (F32.of_pyfloat (adc_offset self))
            n r (calibrate self r) = true ->
  forall r1 r2, r <= r1 -> r1 < r2 -> r2 <= r + Z.of_nat n ->
    F32.ltb (calibrate self r1) (calibrate self r2) = true.
Proof.
  revert r. induction n as [|n IH]; intros r H r1 r2 H1 H12 H2; [lia|].
  cbn [ascending] in H. apply andb_prop in H as [Hstep Hrest].
  fold (calibrate self (r + 1)) in Hstep, Hrest.
  specialize (IH (r + 1) Hrest).
  destruct (Z.eq_dec r1 r) as [->|Hne].
  - destruct (Z.eq_dec r2 (r + 1)) as [->|Hne2]; [done|].
    eapply ltb_trans; [exact Hstep|]. apply IH; lia.
  - apply IH; lia.
Qed.

(** Every depth from 1 to 16 bits passes the check. *)
Lemma depths_ok :
  forallb depth_ok [1; 2; 3; 4; 5; 6; 7; 8; 9; 10; 11; 12; 13; 14; 15; 16]%N
  = true.
Proof. vm_compute. reflexivity. Qed.

Lemma depth_ok_range b : (1 <= b <= 16)%N -> depth_ok b = true.
Proof.
  intros Hb. pose proof depths_ok as H.
  rewrite forallb_forall in H. apply H.
  assert (b = 1 \/ b = 2 \/ b = 3 \/ b = 4 \/ b = 5 \/ b = 6 \/ b = 7 \/
          b = 8 \/ b = 9 \/ b = 10 \/ b = 11 \/ b = 12 \/ b = 13 \/
          b = 14 \/ b = 15 \/ b = 16)%N as Hcases by lia.
  cbn [In]. intuition.
Qed.

End CalibrationFacts.

(** ** The protocol of the worker threads *)

Module ProtocolFacts.
Import SaveFacts PipelineFacts.

Section Runs.
Variable self : DataAcquisition.
Variable dig : digitizer.
Variable n_ch : nat.

Lemma acq_count_producer_other s :
  ppc s <> PTrigger -> acq_count (producer_step dig s) = acq_count s.
Proof.
  intros H. unfold producer_step. destruct (ppc s); try done.
  by destruct (ArmAcquisition dig); [|destruct (SwStartAcquisition dig)].
Qed.

Lemma cmds_inv_step s t : cmds_inv s -> cmds_inv (step self dig n_ch s t).
Proof.
  intros H. destruct t; cbn [step].
  - revert H. unfold cmds_inv, producer_step.
    destruct (ppc s) as [| | | |[]|[]] eqn:E;
      cbn [ppc dig_cmds acq_count]; rewrite ?E; try done.
    + intros [-> ->].
      destruct (ArmAcquisition dig); [|destruct (SwStartAcquisition dig)];
        cbn [ppc dig_cmds acq_count].
      * by left.
      * right. exists 0%nat. split; [lia|done].
      * done.
    + intros ->. by destruct (stop_event s).
    + intros ->. destruct (read_data dig (acq_count s));
        cbn [ppc dig_cmds acq_count].
      * right. exists (S (acq_count s)). split; [lia|].
        rewrite <- app_assoc. f_equal. cbn [repeat].
        by rewrite repeat_cons.
      * rewrite <- app_assoc. f_equal. cbn [repeat]. by rewrite repeat_cons.
    + intros [[-> ->]|(t & Ht & ->)]; [by left|].
      right. exists t. split; [done|]. by rewrite <- !app_assoc.
    + intros ->. by rewrite <- !app_assoc.
  - unfold cmds_inv in *.
    by rewrite ppc_consumer, acq_count_consumer,
      (ltac:(unfold consumer_step; destruct (cpc s); try done;
             destruct (acquisition_queue s) as [|[d|] q]; try done;
             by destruct (save_acquisition self d (io s)) as [[?|?] ?])
        : dig_cmds (consumer_step self n_ch s) = dig_cmds s).
  - done.
Qed.

Lemma cmds_inv_run sched fs0 : cmds_inv (run self dig n_ch sched (start fs0)).
Proof.
  induction sched as [|t sched IH] using rev_ind; [done|].
  rewrite run_snoc. by apply cmds_inv_step.
Qed.

(** Who sets the stop flag. *)
Lemma stop_cause sched fs0 :
  stop_event (run self dig n_ch sched (start fs0)) = true ->
  TListener ∈ sched \/
  producer_failed (ppc (run self dig n_ch sched (start fs0))) = true \/
  consumer_failed (cpc (run self dig n_ch sched (start fs0))) = true.
Proof.
  induction sched as [|t sched IH] using rev_ind; [done|].
  rewrite run_snoc. set (s := run self dig n_ch sched (start fs0)) in *.
  destruct (stop_event s) eqn:Hs.
  - intros _. destruct IH as [H|[H|H]]; [done|..].
    + left. apply elem_of_app. by left.
    + right. left. by apply producer_failed_step.
    + right. right. destruct t; cbn [step];
        [by rewrite cpc_producer| |done].
      unfold consumer_step.
      by destruct (cpc s) as [| | |[| |e]|[| |e]] eqn:E; rewrite ?E.
  - destruct t; cbn [step].
    + unfold producer_step. destruct (ppc s) eqn:E; rewrite ?E;
        cbn [stop_event ppc]; try congruence.
      * destruct (ArmAcquisition dig); [|destruct (SwStartAcquisition dig)];
          cbn [stop_event ppc]; try congruence; intros _; by right; left.
      * destruct (read_data dig (acq_count s));
          cbn [stop_event ppc]; try congruence. intros _; by right; left.
    + unfold consumer_step. destruct (cpc s) eqn:E; rewrite ?E;
        cbn [stop_event cpc]; try congruence.
      destruct (acquisition_queue s) as [|[d|] q];
        cbn [stop_event cpc]; try congruence.
      destruct (save_acquisition self d (io s)) as [[?|?] ?];
        cbn [stop_event cpc]; try congruence. intros _; by right; right.
    + intros _. left. apply elem_of_app. right. by apply list_elem_of_singleton.
Qed.

(** A worker is outside its loop only under the stop flag. *)
Lemma left_loop_stop sched fs0 :
  (producer_left_loop (ppc (run self dig n_ch sched (start fs0))) = true ->
   stop_event (run self dig n_ch sched (start fs0)) = true) /\
  (consumer_left_loop (cpc (run self dig n_ch sched (start fs0))) = true ->
   stop_event (run self dig n_ch sched (start fs0)) = true).
Proof.
  induction sched as [|t sched IH] using rev_ind; [done|].
  rewrite run_snoc. set (s := run self dig n_ch sched (start fs0)) in *.
  destruct IH as [IHp IHc].
  pose proof (inv_run self dig n_ch fs0 sched) as (_ & _ & _ & _ & k & Hk & Hq & _).
  fold s in Hk, Hq.
  destruct t; cbn [step].
  - rewrite cpc_producer. split.
    + unfold producer_step. destruct (ppc s) eqn:E; rewrite ?E;
        cbn [stop_event ppc]; try done; try (by apply IHp).
      * by destruct (ArmAcquisition dig); [|destruct (SwStartAcquisition dig)].
      * by destruct (stop_event s).
      * by destruct (read_data dig (acq_count s)).
    + intros H. exact (stop_event_step self dig n_ch s TProducer (IHc H)).
  - rewrite ppc_consumer. split.
    + intros H. exact (stop_event_step self dig n_ch s TConsumer (IHp H)).
    + unfold consumer_step. destruct (cpc s) eqn:E; rewrite ?E;
        cbn [stop_event cpc]; try done; try (by apply IHc).
      * by destruct (stop_event s).
      * destruct (acquisition_queue s) as [|[d|] q] eqn:Hqueue;
          cbn [stop_event cpc]; try done.
        -- by destruct (save_acquisition self d (io s)) as [[?|?] ?].
        -- intros _. apply IHp.
           unfold queue_inv in Hq. rewrite E, Hqueue in Hq.
           destruct (queue_head_sentinel dig _ _ _ Hk Hq) as (Hput & _).
           by destruct (ppc s) as [| | | |[]|[]].
  - done.
Qed.

End Runs.

(** *** Files the run does not own *)

Section Files.
Variable self : DataAcquisition.
Variable n : nat.

Lemma open_files_other k i st g :
  (forall j, (i <= j < i + k)%nat -> g <> filename j) ->
  fs (open_files i k st) !! g = fs st !! g.
Proof.
  revert i st. induction k as [|k IH]; intros i st Hg; [done|].
  cbn [open_files]. unfold open_ab.
  rewrite IH by (intros j Hj; apply Hg; lia). cbn [fs].
  apply lookup_insert_ne. intros Heq. by apply (Hg i); [lia|].
Qed.

Lemma save_channel_other d i waveform st r st' g :
  save_channel self d i waveform st = (r, st') ->
  handles_open n st ->
  (forall j, (j < n)%nat -> g <> filename j) ->
  fs st' !! g = fs st !! g.
Proof.
  intros Hsave [Hlen Hopen] Hg.
  destruct (file_handles st !! i) as [f|] eqn:Hf.
  - rewrite (save_channel_Some self d i waveform st f Hf) in Hsave.
    destruct (Hopen i f Hf) as (Hname & _).
    assert (i < n)%nat as Hi by (apply lookup_lt_Some in Hf; lia).
    destruct (waveform_sizes d !! i); [|by injection Hsave as _ <-].
    destruct (Struct.pack_I (trigger_num d)); [by injection Hsave as _ <-|].
    destruct (Struct.pack_Q (timestamp d)); [by injection Hsave as _ <-|].
    destruct (Struct.pack_I z); [by injection Hsave as _ <-|].
    cbv zeta in Hsave. case_bool_decide; injection Hsave as _ <-; [|done].
    cbn. apply lookup_insert_ne. rewrite Hname. intros Heq.
    by apply (Hg i).
  - unfold save_channel in Hsave.
    unfold io_bind at 1 in Hsave. rewrite with_handle_None in Hsave by done.
    by injection Hsave as _ <-.
Qed.

Lemma save_channels_other d rows i st r st' g :
  save_channels self d i rows st = (r, st') ->
  handles_open n st ->
  (forall j, (j < n)%nat -> g <> filename j) ->
  fs st' !! g = fs st !! g.
Proof.
  revert i st. induction rows as [|w rows IH]; intros i st Hsave Hopen Hg.
  - by injection Hsave as _ <-.
  - cbn [save_channels] in Hsave.
    apply io_bind_inv in Hsave as [(e & Hsave & _)|([] & st1 & Hsave & Hrest)].
    + by eapply save_channel_other.
    + rewrite (IH _ _ Hrest); [by eapply save_channel_other| |done].
      by destruct (io_preserves_save_channel self n d i w _ _ _ Hsave Hopen).
Qed.

Lemma close_files_other st g :
  handles_open n st ->
  (forall j, (j < n)%nat -> g <> filename j) ->
  fs (close_files st) !! g = fs st !! g.
Proof.
  intros [Hlen Hopen] Hg. unfold close_files.
  destruct (close_all_spec (file_handles st) 0 (fs st)) as (_ & _ & Hother & _).
  { intros j f Hf. by destruct (Hopen j f Hf). }
  destruct (close_all (file_handles st) (fs st)) as [fs' hs'].
  cbn [fs]. apply Hother. intros j Hj. apply Hg. lia.
Qed.

End Files.
End ProtocolFacts.

(** ** The reader on arbitrary files, flushing, and the range of the calibration *)

Module ReaderMoreFacts.
Import Bytes BytesFacts Struct StructFacts Reader ReaderFacts.

Lemma read_waveform_spec n f wf f' :
  read_waveform n f = inr (wf, f') ->
  length wf = n /\ f' = drop (4 * n) f /\ (4 * n <= length f)%nat.
Proof.
  revert f wf f'. induction n as [|n IH]; intros f wf f'.
  - simpl. intros [= <- <-]. split; [done|]. split; [done|lia].
  - cbn [read_waveform read].
    destruct (F32.unpack_f_le (take 4 f)) as [e|x] eqn:Hu; [done|].
    apply F32Facts.unpack_f_le_inr in Hu. cbn [rbind].
    destruct (read_waveform n (drop 4 f)) as [e|[wf1 f1]] eqn:Hw; [done|].
    cbn [rbind]. intros [= <- <-]. apply IH in Hw as (Hl & -> & Hle).
    rewrite length_take in Hu. rewrite length_drop in Hle.
    split; [cbn; lia|]. split; [|lia].
    rewrite drop_drop. f_equal. lia.
Qed.

Lemma read_waveform_app n f g wf f' :
  read_waveform n f = inr (wf, f') ->
  read_waveform n (f ++ g) = inr (wf, f' ++ g).
Proof.
  revert f wf f'. induction n as [|n IH]; intros f wf f'.
  - simpl. by intros [= <- <-].
  - cbn [read_waveform read].
    destruct (F32.unpack_f_le (take 4 f)) as [e|x] eqn:Hu; [done|].
    pose proof (F32Facts.unpack_f_le_inr _ _ Hu) as Hl.
    rewrite length_take in Hl. cbn [rbind].
    destruct (read_waveform n (drop 4 f)) as [e|[wf1 f1]] eqn:Hw; [done|].
    cbn [rbind]. intros [= <- <-].
    rewrite take_app_le, drop_app_le by lia. rewrite Hu. cbn [rbind].
    by rewrite (IH _ _ _ Hw).
Qed.

(** What a successful pass of the loop body read. *)
Lemma read_event_spec f ev f' :
  read_event f = inr (ev, f') ->
  f' = drop (event_size ev) f /\
  (event_size ev <= length f)%nat /\
  length (Waveform ev) = Z.to_nat (NSamples ev) /\
  0 <= EventNumber ev < 2 ^ 32 /\
  0 <= Timestamp ev < 2 ^ 64 /\
  0 <= NSamples ev < 2 ^ 32 /\
  0 <= TimeResolution ev < 2 ^ 64.
Proof.
  unfold read_event, read, unpack_I_le, unpack_Q_le, event_size.
  destruct (unpack_uint_le 4 (take 4 f)) as [|v1] eqn:H1; [done|].
  cbn [rbind].
  destruct (unpack_uint_le 8 (take 8 (drop 4 f))) as [|v2] eqn:H2; [done|].
  cbn [rbind].
  destruct (unpack_uint_le 4 (take 4 (drop 8 (drop 4 f)))) as [|v3] eqn:H3;
    [done|].
  cbn [rbind].
  destruct (unpack_uint_le 8 (take 8 (drop 4 (drop 8 (drop 4 f)))))
    as [|v4] eqn:H4; [done|].
  cbn [rbind].
  destruct (read_waveform (Z.to_nat v3) _) as [|[wf f5]] eqn:Hw; [done|].
  cbn [rbind]. intros [= <- <-].
  cbn [NSamples EventNumber Timestamp TimeResolution Waveform].
  apply unpack_uint_le_inr in H1 as [L1 ->], H2 as [L2 ->],
    H3 as [L3 ->], H4 as [L4 ->].
  apply read_waveform_spec in Hw as (Hl & -> & Hle).
  pose proof (int_from_bytes_le_range (take 4 f)) as R1.
  pose proof (int_from_bytes_le_range (take 8 (drop 4 f))) as R2.
  pose proof (int_from_bytes_le_range (take 4 (drop 8 (drop 4 f)))) as R3.
  pose proof (int_from_bytes_le_range (take 8 (drop 4 (drop 8 (drop 4 f))))) as R4.
  rewrite L1 in R1. rewrite L2 in R2. rewrite L3 in R3. rewrite L4 in R4.
  rewrite !drop_drop in *. rewrite !length_take, !length_drop in *.
  split; [f_equal; lia|]. split; [lia|]. split; [done|].
  change (256 ^ Z.of_nat 4) with (2 ^ 32) in *.
  change (256 ^ Z.of_nat 8) with (2 ^ 64) in *. done.
Qed.

Lemma read_event_app f g ev f' :
  read_event f = inr (ev, f') ->
  read_event (f ++ g) = inr (ev, f' ++ g).
Proof.
  unfold read_event, read, unpack_I_le, unpack_Q_le.
  destruct (unpack_uint_le 4 (take 4 f)) as [|v1] eqn:H1; [done|].
  cbn [rbind].
  destruct (unpack_uint_le 8 (take 8 (drop 4 f))) as [|v2] eqn:H2; [done|].
  cbn [rbind].
  destruct (unpack_uint_le 4 (take 4 (drop 8 (drop 4 f)))) as [|v3] eqn:H3;
    [done|].
  cbn [rbind].
  destruct (unpack_uint_le 8 (take 8 (drop 4 (drop 8 (drop 4 f)))))
    as [|v4] eqn:H4; [done|].
  cbn [rbind].
  destruct (read_waveform (Z.to_nat v3) _) as [|[wf f5]] eqn:Hw; [done|].
  cbn [rbind]. intros [= <- <-].
  pose proof (unpack_uint_le_inr _ _ _ H1) as [L1 _].
  pose proof (unpack_uint_le_inr _ _ _ H2) as [L2 _].
  pose proof (unpack_uint_le_inr _ _ _ H3) as [L3 _].
  pose proof (unpack_uint_le_inr _ _ _ H4) as [L4 _].
  rewrite !length_take, !length_drop in *.
  rewrite (take_app_le f), (drop_app_le f) by lia. rewrite H1. cbn [rbind].
  rewrite (take_app_le (drop 4 f)), (drop_app_le (drop 4 f))
    by (rewrite length_drop; lia).
  rewrite H2. cbn [rbind].
  rewrite (take_app_le (drop 8 (drop 4 f))), (drop_app_le (drop 8 (drop 4 f)))
    by (rewrite !length_drop; lia).
  rewrite H3. cbn [rbind].
  rewrite (take_app_le (drop 4 (drop 8 (drop 4 f)))),
    (drop_app_le (drop 4 (drop 8 (drop 4 f))))
    by (rewrite !length_drop; lia).
  rewrite H4. cbn [rbind].
  by rewrite (read_waveform_app _ _ g _ _ Hw).
Qed.

(** The loop needs no more iterations than the file has bytes. *)
Lemma read_loop_fuel fuel f :
  (length f < fuel)%nat -> read_loop fuel f = read_raw_data f.
Proof.
  unfold read_raw_data.
  remember (length f) as n eqn:Hn.
  revert fuel f Hn. induction n as [n IH] using lt_wf_ind; intros fuel f -> Hlt.
  destruct fuel as [|fuel]; [lia|]. cbn [read_loop].
  destruct (read_event f) as [e|[ev f']] eqn:Hr; [done|].
  f_equal. apply read_event_spec in Hr as (-> & Hle & _).
  unfold event_size in *.
  assert (length (drop (24 + 4 * Z.to_nat (NSamples ev)) f) < length f)%nat
    as Hshort by (rewrite length_drop; lia).
  rewrite (IH _ Hshort fuel _ eq_refl) by lia.
  rewrite (IH _ Hshort (length f) _ eq_refl) by lia. done.
Qed.

Lemma read_loop_prefix fuel f g :
  read_loop fuel f `prefix_of` read_loop fuel (f ++ g).
Proof.
  revert f. induction fuel as [|fuel IH]; intros f; [done|].
  cbn [read_loop].
  destruct (read_event f) as [e|[ev f']] eqn:Hr; [apply prefix_nil|].
  rewrite (read_event_app _ g _ _ Hr). apply prefix_cons, IH.
Qed.

Lemma read_loop_consumed fuel f :
  (sum_list (event_size <$> read_loop fuel f) <= length f)%nat /\
  ((length f < fuel)%nat ->
   read_event (drop (sum_list (event_size <$> read_loop fuel f)) f)
   = inl StructError).
Proof.
  revert f. induction fuel as [|fuel IH]; intros f.
  - cbn. split; [lia|lia].
  - cbn [read_loop].
    destruct (read_event f) as [e|[ev f']] eqn:Hr.
    + cbn [fmap list_fmap sum_list drop]. split; [lia|]. intros _.
      rewrite drop_0, Hr. f_equal. by apply read_event_inl in Hr.
    + apply read_event_spec in Hr as (-> & Hle & _).
      destruct (IH (drop (event_size ev) f)) as [IH1 IH2].
      rewrite length_drop in IH1, IH2.
      rewrite fmap_cons.
      change (sum_list (event_size ev :: ?l)) with (event_size ev + sum_list l)%nat.
      split; [lia|]. intros Hlt.
      rewrite <- drop_drop. apply IH2. unfold event_size in *. lia.
Qed.

End ReaderMoreFacts.

Module FlushFacts.
Import Bytes BytesFacts Struct StructFacts SaveFacts.

Section Channels.
Variable self : DataAcquisition.
Variable n : nat.

Lemma save_channel_handles d i waveform st r st' j :
  save_channel self d i waveform st = (r, st') ->
  j <> i ->
  file_handles st' !! j = file_handles st !! j.
Proof.
  intros Hsave Hne.
  destruct (file_handles st !! i) as [f|] eqn:Hf.
  - rewrite (save_channel_Some self d i waveform st f Hf) in Hsave.
    destruct (waveform_sizes d !! i); [|by injection Hsave as _ <-].
    destruct (pack_I (trigger_num d)); [by injection Hsave as _ <-|].
    destruct (pack_Q (timestamp d));
      [injection Hsave as _ <-; by apply list_lookup_insert_ne|].
    destruct (pack_I z);
      [injection Hsave as _ <-; by apply list_lookup_insert_ne|].
    cbv zeta in Hsave. case_bool_decide; injection Hsave as _ <-;
      by apply list_lookup_insert_ne.
  - unfold save_channel in Hsave.
    unfold io_bind at 1 in Hsave. rewrite with_handle_None in Hsave by done.
    by injection Hsave as _ <-.
Qed.

Lemma save_channels_handles d rows i st r st' j :
  save_channels self d i rows st = (r, st') ->
  (j < i)%nat ->
  file_handles st' !! j = file_handles st !! j.
Proof.
  revert i st. induction rows as [|w rows IH]; intros i st Hsave Hlt.
  - by injection Hsave as _ <-.
  - cbn [save_channels] in Hsave.
    apply io_bind_inv in Hsave as [(e & Hsave & _)|([] & st1 & Hsave & Hrest)].
    + eapply save_channel_handles; [done|lia].
    + rewrite (IH _ _ Hrest) by lia.
      eapply save_channel_handles; [done|lia].
Qed.

Lemma save_channel_flushed d i waveform st st' :
  save_channel self d i waveform st = (inr tt, st') ->
  trigger_num d mod 10 = 0 ->
  exists f', file_handles st' !! i = Some f' /\ pending f' = [].
Proof.
  intros Hsave Hten.
  destruct (file_handles st !! i) as [f|] eqn:Hf.
  - rewrite (save_channel_Some self d i waveform st f Hf) in Hsave.
    destruct (waveform_sizes d !! i); [|done].
    destruct (pack_I (trigger_num d)); [done|].
    destruct (pack_Q (timestamp d)); [done|].
    destruct (pack_I z); [done|].
    cbv zeta in Hsave. rewrite bool_decide_true in Hsave by done.
    injection Hsave as <-.
    eexists. split; [by eapply set_handle_lookup|done].
  - unfold save_channel in Hsave.
    unfold io_bind at 1 in Hsave. by rewrite with_handle_None in Hsave.
Qed.

Lemma save_channels_flushed d rows i st st' :
  save_channels self d i rows st = (inr tt, st') ->
  trigger_num d mod 10 = 0 ->
  forall j f, (i <= j < i + length rows)%nat ->
    file_handles st' !! j = Some f -> pending f = [].
Proof.
  revert i st. induction rows as [|w rows IH]; intros i st Hsave Hten j f Hj Hf.
  - cbn in Hj. lia.
  - cbn [save_channels] in Hsave.
    apply io_bind_inv in Hsave as [(e & _ & ?)|([] & st1 & Hsave & Hrest)];
      [done|].
    destruct (decide (j = i)) as [->|Hne].
    + rewrite (save_channels_handles _ _ _ _ _ _ _ Hrest) in Hf by lia.
      destruct (save_channel_flushed _ _ _ _ _ Hsave Hten) as (f' & Hf' & Hp).
      congruence.
    + eapply (IH _ _ Hrest Hten j); [cbn in Hj; lia|done].
Qed.

Lemma save_channel_length d i waveform st r st' :
  save_channel self d i waveform st = (r, st') ->
  length (file_handles st') = length (file_handles st) /\
  (r = inr tt -> (i < length (file_handles st))%nat).
Proof.
  intros Hsave.
  destruct (file_handles st !! i) as [f|] eqn:Hf.
  - split; [|intros _; by eapply lookup_lt_Some].
    rewrite (save_channel_Some self d i waveform st f Hf) in Hsave.
    destruct (waveform_sizes d !! i); [|by injection Hsave as _ <-].
    destruct (pack_I (trigger_num d)); [by injection Hsave as _ <-|].
    destruct (pack_Q (timestamp d));
      [injection Hsave as _ <-; by apply length_insert|].
    destruct (pack_I z);
      [injection Hsave as _ <-; by apply length_insert|].
    cbv zeta in Hsave. case_bool_decide; injection Hsave as _ <-;
      by apply length_insert.
  - unfold save_channel in Hsave.
    unfold io_bind at 1 in Hsave. rewrite with_handle_None in Hsave by done.
    injection Hsave as <- <-. done.
Qed.

Lemma save_channels_rows d rows i st st' :
  save_channels self d i rows st = (inr tt, st') ->
  (rows <> [] -> i + length rows <= length (file_handles st))%nat.
Proof.
  revert i st. induction rows as [|w rows IH]; intros i st Hsave Hne; [done|].
  cbn [save_channels] in Hsave.
  apply io_bind_inv in Hsave as [(e & _ & ?)|([] & st1 & Hsave & Hrest)];
    [done|].
  destruct (save_channel_length _ _ _ _ _ _ Hsave) as [Hl Hi].
  specialize (Hi eq_refl). cbn [length].
  destruct rows as [|w' rows]; [cbn; lia|].
  specialize (IH _ _ Hrest ltac:(done)). rewrite Hl in IH. cbn [length] in *. lia.
Qed.

(** A valid count that does not fit the 32-bit field: the trigger id
    and the timestamp are already in the buffer when [struct.pack]
    raises. *)
Lemma save_channel_oversized d i waveform size st f :
  file_handles st !! i = Some f ->
  waveform_sizes d !! i = Some size ->
  0 <= trigger_num d < 2 ^ 32 -> 0 <= timestamp d < 2 ^ 64 ->
  ~ 0 <= size < 2 ^ 32 ->
  save_channel self d i waveform st
  = (inl StructError,
     set_handle i (write (write f (int_to_bytes_le 4 (trigger_num d)))
                         (int_to_bytes_le 8 (timestamp d))) (fs st) st).
Proof.
  intros Hf Hs Ht Hts Hbig.
  rewrite (save_channel_Some self d i waveform st f Hf), Hs.
  unfold pack_I, pack_Q.
  rewrite (pack_uint_ok 4), (pack_uint_ok 8) by (simpl; lia).
  by rewrite pack_uint_error by (simpl; lia).
Qed.

End Channels.

Lemma read_event_short f :
  (length f < 24)%nat -> Reader.read_event f = inl StructError.
Proof.
  intros Hlen.
  destruct (Reader.read_event f) as [e|[ev f']] eqn:Hr.
  - by apply ReaderFacts.read_event_inl in Hr as ->.
  - apply ReaderMoreFacts.read_event_spec in Hr as (_ & Hle & _).
    unfold event_size in Hle. lia.
Qed.

End FlushFacts.

Module RangeFacts.

Lemma ltb_leb a b : F32.ltb a b = true -> F32.leb a b = true.
Proof.
  unfold F32.ltb, F32.leb, SFltb, SFleb.
  by destruct (SFcompare (F32.of_bits a) (F32.of_bits b)) as [[| |]|].
Qed.

Lemma init_inr b self :
  init b = inr self ->
  adc_n_bits self = b /\ adc_offset self = PyFloat.minus_one.
Proof.
  unfold init.
  destruct (PyFloat.of_int (2 ^ Z.of_N b - 1)) as [e|x]; [done|]. cbn [rbind].
  destruct (PyFloat.truediv PyFloat.two x) as [e|y]; [done|]. cbn [rbind].
  by intros [= <-].
Qed.

Lemma init_succeeds_all :
  forallb init_succeeds (N.of_nat <$> seq 1 1023) = true.
Proof. vm_compute. reflexivity. Qed.

Lemma init_overflows_all :
  forallb init_overflows (N.of_nat <$> seq 1024 3073) = true.
Proof. vm_compute. reflexivity. Qed.

Lemma forallb_range (P : N -> bool) lo len b :
  forallb P (N.of_nat <$> seq lo len) = true ->
  (N.of_nat lo <= b < N.of_nat (lo + len))%N -> P b = true.
Proof.
  intros Hall Hb. rewrite forallb_forall in Hall. apply Hall.
  apply list_elem_of_In, list_elem_of_fmap. exists (N.to_nat b).
  split; [by rewrite N2Nat.id|]. apply elem_of_seq. lia.
Qed.

End RangeFacts.

(** ** The configuration reader *)

Module ConfigFacts.
Import Py configparser config.

Section Reader.
Variable optionxform : string -> string.
Variable int : string -> option Z.

Lemma with_config_id self : with_config self (config self) = self.
Proof. by destruct self. Qed.

Lemma except_lookup_inl {A} (r : result A) e :
  except_lookup r = inl e ->
  e = ConfigurationError \/
  (r = inl e /\ e <> KeyError /\ is_configparser_Error e = false).
Proof. destruct r as [[]|a]; cbn; intros [= <-]; auto. Qed.

(** The parser raises nothing but its own errors on a lookup. *)
Lemma get_inl c section option e :
  configparser.get optionxform c section option = inl e ->
  is_configparser_Error e = true.
Proof.
  unfold configparser.get.
  destruct (_sections c !! section) as [d|]; cbn [bind].
  - destruct (d !! optionxform option); [done|].
    destruct (_defaults c !! optionxform option); [done|]. by intros [= <-].
  - case_bool_decide; cbn [bind raise]; [|by intros [= <-]].
    rewrite lookup_empty.
    destruct (_defaults c !! optionxform option); [done|]. by intros [= <-].
Qed.

Lemma getitem_inl {V} (d : gmap string V) key e :
  getitem d key = inl e -> e = KeyError.
Proof. unfold getitem. destruct (d !! key); [done|]. by intros [= <-]. Qed.

Lemma _get_with_default_inl self section option e :
  _get_with_default optionxform self section option = inl e ->
  e = ConfigurationError.
Proof.
  unfold _get_with_default. intros H.
  apply except_lookup_inl in H as [?|(H & Hk & Hc)]; [done|exfalso].
  destruct (String.prefix "CH" section);
    destruct (has_option optionxform (config self) section option);
    try (apply get_inl in H; congruence).
  - destruct (getitem (default_settings self) "default_channel") as [e'|d] eqn:Hd;
      cbn [bind] in H.
    + injection H as ->. by apply getitem_inl in Hd.
    + by apply getitem_inl in H.
  - destruct (getitem (default_settings self) section) as [e'|d] eqn:Hd;
      cbn [bind] in H.
    + injection H as ->. by apply getitem_inl in Hd.
    + by apply getitem_inl in H.
Qed.

Lemma _get_int_with_default_inl self section option e :
  _get_int_with_default optionxform int self section option = inl e ->
  e = ConfigurationError.
Proof.
  unfold _get_int_with_default.
  destruct (_get_with_default optionxform self section option) as [e'|v] eqn:H;
    cbn [bind].
  - intros [= <-]. by eapply _get_with_default_inl.
  - destruct (int v); [done|]. by intros [= <-].
Qed.

Lemma except_settings_inl {A} (r : result A) e :
  (forall e', r = inl e' -> e' = ConfigurationError) ->
  except_settings r = inl e -> e = ConfigurationError.
Proof.
  intros Hr. destruct r as [e'|a]; [|done].
  rewrite (Hr e' eq_refl). cbn. by intros [= <-].
Qed.

(** Resolution of an option, by what the file has. *)
Lemma default_value_spec self section option :
  has_option optionxform (config self) section option = false ->
  _get_with_default optionxform self section option
  = default_value self section option.
Proof.
  intros H. unfold _get_with_default, default_value. rewrite H.
  unfold getitem.
  destruct (String.prefix "CH" section).
  - destruct (default_settings self !! "default_channel") as [d|]; cbn; [|done].
    by destruct (d !! option).
  - destruct (default_settings self !! section) as [d|]; cbn; [|done].
    by destruct (d !! option).
Qed.

Lemma file_value_spec self section option :
  has_option optionxform (config self) section option = true ->
  _get_with_default optionxform self section option
  = except_lookup (configparser.get optionxform (config self) section option).
Proof.
  intros H. unfold _get_with_default. rewrite H.
  by destruct (String.prefix "CH" section).
Qed.

Lemma prefix_CH s : String.prefix "CH" ("CH" +:+ s) = true.
Proof. cbn. by destruct s. Qed.

Lemma has_option_named c section option :
  section <> "" -> section <> default_section ->
  has_option optionxform c section option
  = match _sections c !! section with
    | None => false
    | Some d =>
        bool_decide (is_Some (d !! optionxform option))
        || bool_decide (is_Some (_defaults c !! optionxform option))
    end.
Proof.
  intros H1 H2. unfold has_option.
  rewrite bool_decide_false; [done|]. by intros [?|?].
Qed.

(** An option of a named section: the section of the file, then the
    [DEFAULT] section of the file if the section is there, then the
    defaults. *)
Lemma get_named self section option :
  section <> "" -> section <> default_section ->
  _get_with_default optionxform self section option
  = match _sections (config self) !! section with
    | Some d =>
        match d !! optionxform option with
        | Some value => inr value
        | None =>
            match _defaults (config self) !! optionxform option with
            | Some value => inr value
            | None => default_value self section option
            end
        end
    | None => default_value self section option
    end.
Proof.
  intros H1 H2.
  destruct (has_option optionxform (config self) section option) eqn:Hh.
  - rewrite file_value_spec by done.
    rewrite has_option_named in Hh by done.
    unfold configparser.get.
    destruct (_sections (config self) !! section) as [d|]; [|done]. cbn [bind].
    destruct (d !! optionxform option) as [v|]; [done|].
    destruct (_defaults (config self) !! optionxform option) as [v|]; [done|].
    by apply orb_prop in Hh as [Hh|Hh];
      apply bool_decide_eq_true in Hh; destruct Hh.
  - rewrite default_value_spec by done.
    rewrite has_option_named in Hh by done.
    destruct (_sections (config self) !! section) as [d|]; [|done].
    apply orb_false_elim in Hh as [Hd Hf].
    apply bool_decide_eq_false in Hd, Hf.
    destruct (d !! optionxform option) as [v|]; [by destruct Hd|].
    destruct (_defaults (config self) !! optionxform option) as [v|];
      [by destruct Hf|done].
Qed.

(** The parser after [set]: no parser error is possible, the section
    being created when it is missing. *)
Lemma set_named self section option value f :
  section <> "" -> section <> default_section ->
  config.set optionxform self section option value f
  = let c2 := {| _defaults := _defaults (config self);
                 _sections :=
                   <[section := <[optionxform option := value]>
                                  (default ∅ (_sections (config self) !! section))]>
                     (_sections (config self)) |} in
    ((_save_current_config (with_config self c2) f).1,
     with_config self c2,
     (_save_current_config (with_config self c2) f).2).
Proof.
  intros H1 H2. unfold config.set, contains, has_section, add_section, has_section.
  rewrite (bool_decide_false (section = default_section)) by done.
  cbn [orb]. unfold configparser.set.
  rewrite (bool_decide_false (section = "" \/ section = default_section))
    by (by intros [?|?]).
  destruct (_sections (config self) !! section) as [d|] eqn:Hs.
  - rewrite bool_decide_true by done. rewrite Hs. cbn [default from_option id].
    by destruct (_save_current_config _ f).
  - rewrite bool_decide_false by (by intros [? ?]).
    cbn [_sections]. rewrite lookup_insert_eq, insert_insert_eq.
    cbn [default from_option id].
    by destruct (_save_current_config _ f).
Qed.

Lemma set_special self section option value f :
  section = "" \/ section = default_section ->
  config.set optionxform self section option value f
  = let c2 := {| _defaults := <[optionxform option := value]>
                                (_defaults (config self));
                 _sections :=
                   if contains (config self) section
                   then _sections (config self)
                   else <[section := ∅]> (_sections (config self)) |} in
    ((_save_current_config (with_config self c2) f).1,
     with_config self c2,
     (_save_current_config (with_config self c2) f).2).
Proof.
  intros Hsp. unfold config.set.
  destruct (contains (config self) section) eqn:Hc.
  - unfold configparser.set. rewrite bool_decide_true by done.
    by destruct (_save_current_config _ f).
  - unfold add_section. unfold contains in Hc.
    apply orb_false_elim in Hc as [Hd Hs]. rewrite Hd, Hs.
    unfold configparser.set. rewrite bool_decide_true by done.
    cbn [_defaults _sections].
    by destruct (_save_current_config _ f).
Qed.

Lemma get_special self section option value :
  section = "" \/ section = default_section ->
  _defaults (config self) !! optionxform option = Some value ->
  (section = default_section -> _sections (config self) !! section = None) ->
  (section = "" -> _sections (config self) !! section = Some ∅) ->
  _get_with_default optionxform self section option = inr value.
Proof.
  intros Hsp Hv Hd He.
  rewrite file_value_spec.
  - unfold configparser.get. destruct Hsp as [->| ->].
    + rewrite He by done. cbn [bind]. by rewrite lookup_empty, Hv.
    + rewrite Hd by done. rewrite bool_decide_true by done. cbn [bind].
      by rewrite lookup_empty, Hv.
  - unfold has_option. rewrite bool_decide_true by done.
    rewrite Hv. by apply bool_decide_eq_true.
Qed.

(** A lookup in a section reads the [DEFAULT] section and that
    section of the parser, nothing else. *)
Lemma get_ext self self' section option :
  default_settings self' = default_settings self ->
  _defaults (config self') = _defaults (config self) ->
  _sections (config self') !! section = _sections (config self) !! section ->
  _get_with_default optionxform self' section option
  = _get_with_default optionxform self section option.
Proof.
  intros Hs Hd Hsec.
  unfold _get_with_default, has_option, configparser.get.
  by rewrite Hs, Hd, Hsec.
Qed.

Lemma default_value_ext self self' section option :
  default_settings self' = default_settings self ->
  default_value self' section option = default_value self section option.
Proof. unfold default_value. by intros ->. Qed.

(** Saving: the outcome depends on the file only. *)
Lemma save_spec self f :
  _save_current_config self f
  = if writable f
    then (inr tt, {| writable := true; written := Some (config self) |})
    else (inl ConfigurationError, f).
Proof. done. Qed.

End Reader.
End ConfigFacts.

(** ** Settings and key listener *)

Module SettingsFacts.
Import Setup.

Lemma land_bit m c :
  0 <= c -> (Z.land m (Z.shiftl 1 c) =? 0) = negb (Z.testbit m c).
Proof.
  intros Hc. rewrite Z.shiftl_1_l.
  destruct (Z.testbit m c) eqn:Hb; cbn [negb].
  - apply Z.eqb_neq. intros H0.
    apply (f_equal (fun z => Z.testbit z c)) in H0.
    rewrite Z.land_spec, Hb, Z.pow2_bits_true, Z.bits_0 in H0 by done. done.
  - apply Z.eqb_eq. apply Z.bits_inj'. intros k Hk.
    rewrite Z.land_spec, Z.bits_0, Z.pow2_bits_eqb by done.
    destruct (Z.eqb_spec c k) as [->|?]; [by rewrite Hb|apply andb_false_r].
Qed.

Section SetSettings.
Variable optionxform : string -> string.
Variable int : string -> option Z.
Variable int16 : string -> option Z.

Lemma dev_bind_inv {A B} (m : Device -> Py.result A * Device)
    (k : A -> Device -> Py.result B * Device) dig r dig' :
  dev_bind m k dig = (r, dig') ->
  (exists e, m dig = (inl e, dig') /\ r = inl e) \/
  (exists a dig1, m dig = (inr a, dig1) /\ k a dig1 = (r, dig')).
Proof.
  unfold dev_bind. destruct (m dig) as [[e|a] dig1].
  - intros [= <- <-]. left. by exists e.
  - intros H. right. by exists a, dig1.
Qed.

Lemma set_value_inv path value dig r dig' :
  set_value path value dig = (r, dig') ->
  (r = inr tt /\ assignments dig' = assignments dig ++ [(path, value)] /\
   NUMCH dig' = NUMCH dig /\ accepts dig' = accepts dig) \/
  (r = inl Py.FELibError /\ dig' = dig).
Proof.
  unfold set_value. destruct (accepts dig path value); intros [= <- <-]; auto.
Qed.

Lemma check_mask_inr mask i v :
  check_mask int16 mask i = inr v ->
  exists m, int16 mask = Some m /\ 0 <= i /\
            v = if Z.testbit m i then "True" else "False".
Proof.
  unfold check_mask. destruct (int16 mask) as [m|]; [|done].
  destruct (Z.ltb_spec i 0); [done|]. intros [= <-].
  exists m. split; [done|]. split; [done|].
  rewrite land_bit by done. by rewrite negb_involutive.
Qed.

Lemma set_channel_prefix self i dig r dig' :
  set_channel optionxform int int16 self i dig = (r, dig') ->
  assignments dig `prefix_of` assignments dig' /\
  NUMCH dig' = NUMCH dig /\ accepts dig' = accepts dig.
Proof.
  unfold set_channel, dev_lift. intros H.
  apply dev_bind_inv in H as [(e & [= _ <-] & _)|(cs & d1 & [= _ <-] & H)];
    [done|].
  apply dev_bind_inv in H as [(e & H & _)|([] & d2 & H1 & H)].
  { apply set_value_inv in H as [(? & ? & ? & ?)|[? ->]]; [done|done]. }
  apply set_value_inv in H1 as [(_ & A1 & N1 & C1)|[? ?]]; [|done].
  apply dev_bind_inv in H as [(e & H & _)|([] & d3 & H2 & H)].
  { apply set_value_inv in H as [(? & ? & ? & ?)|[? ->]]; [done|].
    split; [|done]. rewrite A1. by apply prefix_app_r. }
  apply set_value_inv in H2 as [(_ & A2 & N2 & C2)|[? ?]]; [|done].
  assert (assignments dig `prefix_of` assignments d3) as Hp
    by (rewrite A2, A1, <- app_assoc; by apply prefix_app_r).
  apply dev_bind_inv in H as [(e & [= _ <-] & _)|(en & d4 & [= _ <-] & H)].
  { split; [done|]. split; congruence. }
  apply set_value_inv in H as [(_ & A3 & N3 & C3)|[? ->]].
  - split; [|split; congruence]. rewrite A3.
    etrans; [exact Hp|]. by apply prefix_app_r.
  - split; [done|]. split; congruence.
Qed.

Lemma set_channel_inr self i dig dig' :
  set_channel optionxform int int16 self i dig = (inr tt, dig') ->
  assignments dig'
  = assignments dig ++ channel_assignments optionxform int int16 self i /\
  length (channel_assignments optionxform int int16 self i) = 3%nat /\
  0 <= i < config.num_channels (config self) /\
  NUMCH dig' = NUMCH dig /\ accepts dig' = accepts dig.
Proof.
  unfold set_channel, dev_lift, channel_assignments. intros H.
  apply dev_bind_inv in H as [(e & _ & ?)|(cs & d1 & [= Hcs <-] & H)]; [done|].
  apply dev_bind_inv in H as [(e & _ & ?)|([] & d2 & H1 & H)]; [done|].
  apply set_value_inv in H1 as [(_ & A1 & N1 & C1)|[? ?]]; [|done].
  apply dev_bind_inv in H as [(e & _ & ?)|([] & d3 & H2 & H)]; [done|].
  apply set_value_inv in H2 as [(_ & A2 & N2 & C2)|[? ?]]; [|done].
  apply dev_bind_inv in H as [(e & _ & ?)|(en & d4 & [= Hen <-] & H)]; [done|].
  apply set_value_inv in H as [(_ & A3 & N3 & C3)|[? ?]]; [|done].
  apply check_mask_inr in Hen as (m & Hm & Hi & ->).
  rewrite Hcs, Hm. split; [|split; [done|]].
  - rewrite A3, A2, A1, <- !app_assoc. done.
  - split; [|split; congruence].
    unfold config.get_channel_settings in Hcs.
    case_bool_decide; [done|]. done.
Qed.

Lemma set_channels_prefix self channels dig r dig' :
  set_channels optionxform int int16 self channels dig = (r, dig') ->
  assignments dig `prefix_of` assignments dig'.
Proof.
  revert dig. induction channels as [|i channels IH]; intros dig H.
  - by injection H as _ <-.
  - cbn [set_channels] in H.
    apply dev_bind_inv in H as [(e & H & _)|([] & d1 & H1 & H)].
    + by apply set_channel_prefix in H as [? _].
    + apply set_channel_prefix in H1 as [? _]. apply IH in H. by etrans.
Qed.

Lemma set_channels_inr self channels dig dig' :
  set_channels optionxform int int16 self channels dig = (inr tt, dig') ->
  assignments dig'
  = assignments dig
    ++ flat_map (channel_assignments optionxform int int16 self) channels /\
  Forall (fun i =>
            length (channel_assignments optionxform int int16 self i) = 3%nat /\
            0 <= i < config.num_channels (config self)) channels.
Proof.
  revert dig. induction channels as [|i channels IH]; intros dig H.
  - injection H as <-. cbn. by rewrite app_nil_r.
  - cbn [set_channels] in H.
    apply dev_bind_inv in H as [(e & _ & ?)|([] & d1 & H1 & H)]; [done|].
    apply set_channel_inr in H1 as (A1 & L1 & R1 & _).
    apply IH in H as [A Hall]. split; [|by constructor].
    cbn [flat_map]. by rewrite A, A1, <- app_assoc.
Qed.

Lemma set_value_prefix path value dig r dig' :
  set_value path value dig = (r, dig') ->
  assignments dig `prefix_of` assignments dig'.
Proof.
  intros H. apply set_value_inv in H as [(_ & -> & _)|[_ ->]];
    [by apply prefix_app_r|done].
Qed.

Lemma set_settings_body_prefix self dig r dig' :
  set_settings_body optionxform int int16 self dig = (r, dig') ->
  assignments dig `prefix_of` assignments dig'.
Proof.
  unfold set_settings_body, dev_lift. intros H.
  apply dev_bind_inv in H as [(e & H & _)|([] & d1 & H1 & H)];
    [by eapply set_value_prefix|].
  apply set_value_prefix in H1. etrans; [exact H1|]. clear H1.
  apply dev_bind_inv in H as [(e & H & _)|([] & d2 & H2 & H)];
    [by eapply set_value_prefix|].
  apply set_value_prefix in H2. etrans; [exact H2|]. clear H2.
  apply dev_bind_inv in H as [(e & H & _)|([] & d3 & H3 & H)];
    [by eapply set_value_prefix|].
  apply set_value_prefix in H3. etrans; [exact H3|]. clear H3.
  apply dev_bind_inv in H as [(e & H & _)|([] & d4 & H4 & H)];
    [by eapply set_value_prefix|].
  apply set_value_prefix in H4. etrans; [exact H4|]. clear H4.
  apply dev_bind_inv in H as [(e & [= _ <-] & _)|(numch & d5 & [= _ <-] & H)];
    [done|].
  apply dev_bind_inv in H as [(e & [= _ <-] & _)|(n & d6 & [= _ <-] & H)];
    [done|].
  by eapply set_channels_prefix.
Qed.

Lemma set_settings_body_inr self dig dig' :
  set_settings_body optionxform int int16 self dig = (inr tt, dig') ->
  exists numch n,
    NUMCH dig = inr numch /\ int numch = Some n /\
    assignments dig'
    = assignments dig ++ global_assignments self
      ++ flat_map (channel_assignments optionxform int int16 self) (range n) /\
    Forall (fun i =>
              length (channel_assignments optionxform int int16 self i) = 3%nat /\
              0 <= i < config.num_channels (config self)) (range n).
Proof.
  unfold set_settings_body, dev_lift. intros H.
  apply dev_bind_inv in H as [(e & _ & ?)|([] & d1 & H1 & H)]; [done|].
  apply set_value_inv in H1 as [(_ & A1 & N1 & _)|[? ?]]; [|done].
  apply dev_bind_inv in H as [(e & _ & ?)|([] & d2 & H2 & H)]; [done|].
  apply set_value_inv in H2 as [(_ & A2 & N2 & _)|[? ?]]; [|done].
  apply dev_bind_inv in H as [(e & _ & ?)|([] & d3 & H3 & H)]; [done|].
  apply set_value_inv in H3 as [(_ & A3 & N3 & _)|[? ?]]; [|done].
  apply dev_bind_inv in H as [(e & _ & ?)|([] & d4 & H4 & H)]; [done|].
  apply set_value_inv in H4 as [(_ & A4 & N4 & _)|[? ?]]; [|done].
  apply dev_bind_inv in H as [(e & _ & ?)|(numch & d5 & [= Hn <-] & H)]; [done|].
  apply dev_bind_inv in H as [(e & _ & ?)|(n & d6 & [= Hi <-] & H)]; [done|].
  destruct (int numch) as [n'|] eqn:Hint; [|done]. injection Hi as ->.
  apply set_channels_inr in H as [Hassign Hall].
  exists numch, n. split; [congruence|]. split; [done|]. split; [|done].
  rewrite Hassign, A4, A3, A2, A1, <- !app_assoc. done.
Qed.

End SetSettings.

Section Listener.
Variable strip_lower : string -> string.
Variable print_settings : nat -> Py.result unit.

Lemma listen_stop lines printed :
  stop_set (listen_for_key strip_lower print_settings lines printed) = true <->
  outcome (listen_for_key strip_lower print_settings lines printed) = inr tt.
Proof.
  revert printed. induction lines as [|l lines IH]; intros printed; [done|].
  cbn [listen_for_key]. repeat case_bool_decide; [done| |by apply IH].
  destruct (print_settings printed) as [e|[]]; [done|apply IH].
Qed.

Lemma listen_quit lines printed :
  stop_set (listen_for_key strip_lower print_settings lines printed) = true ->
  exists before line after,
    lines = before ++ line :: after /\
    Forall (fun l => strip_lower l <> "q") before /\
    strip_lower line = "q" /\
    unread (listen_for_key strip_lower print_settings lines printed) = after.
Proof.
  revert printed. induction lines as [|l lines IH]; intros printed; [done|].
  cbn [listen_for_key]. case_bool_decide as Hq.
  - intros _. by exists [], l, lines.
  - assert (forall p,
              stop_set (listen_for_key strip_lower print_settings lines p) = true ->
              exists before line after,
                l :: lines = before ++ line :: after /\
                Forall (fun l => strip_lower l <> "q") before /\
                strip_lower line = "q" /\
                unread (listen_for_key strip_lower print_settings lines p) = after)
      as Hrec.
    { intros p Hs. destruct (IH p Hs) as (before & line & after & -> & Hb & Hl & Hu).
      exists (l :: before), line, after. split; [done|].
      split; [by constructor|done]. }
    case_bool_decide; [|apply Hrec].
    destruct (print_settings printed) as [e|[]]; [done|apply Hrec].
Qed.

Lemma listen_no_quit lines printed :
  Forall (fun l => strip_lower l <> "q") lines ->
  stop_set (listen_for_key strip_lower print_settings lines printed) = false.
Proof.
  revert printed. induction lines as [|l lines IH]; intros printed Hall; [done|].
  apply Forall_cons in Hall as [Hl Hall].
  cbn [listen_for_key]. rewrite bool_decide_false by done.
  case_bool_decide; [|by apply IH].
  destruct (print_settings printed) as [e|[]]; [done|by apply IH].
Qed.

Lemma listen_first_quit before line after printed :
  (forall k, print_settings k = inr tt) ->
  Forall (fun l => strip_lower l <> "q") before ->
  strip_lower line = "q" ->
  listen_for_key strip_lower print_settings (before ++ line :: after) printed
  = {| outcome := inr tt; stop_set := true;
       printed := printed
                  + length (filter (fun l => strip_lower l = "s") before);
       unread := after |}.
Proof.
  intros Hp Hb Hq. revert printed.
  induction Hb as [|l before Hl _ IH]; intros printed.
  - cbn [app listen_for_key]. rewrite bool_decide_true by done.
    cbn. by rewrite Nat.add_0_r.
  - cbn [app listen_for_key]. rewrite bool_decide_false by done.
    rewrite filter_cons. case_bool_decide; case_decide; try done.
    rewrite Hp, IH. cbn [length]. f_equal. lia.
Qed.

End Listener.
End SettingsFacts.

(** * The claims *)

Section Claims.
Import Bytes Reader.
Import BytesFacts StructFacts ReaderFacts SaveFacts PipelineFacts RoundTripFacts.

(** C7: a channel file made of whole records followed by a strict
    prefix of one more record (possibly empty) yields exactly the
    events of the whole records, in file order; the trailing fragment
    by itself raises [struct.error] and nothing before it is lost. *)
Theorem C7_truncated_tail rs r n :
  Forall Format.well_formed rs ->
  Format.well_formed r ->
  (n < length (Format.encode r))%nat ->
  read_raw_data (concat (map Format.encode rs) ++ take n (Format.encode r))
  = map Format.decode rs /\
  read_event (take n (Format.encode r)) = inl StructError.
Proof.
  intros Hrs Hr Hn.
  pose proof (read_event_truncated r n Hr Hn) as Hfrag.
  split; [|done]. apply read_raw_data_records; [done|]. by exists StructError.
Qed.

Lemma example_record_well_formed : Format.well_formed example_record.
Proof.
  unfold Format.well_formed, example_record; cbn.
  repeat split; try lia. repeat constructor; lia.
Qed.

Lemma C7_truncated_tail_witness :
  read_raw_data (concat (map Format.encode [example_record; example_record])
                 ++ take 27 (Format.encode example_record))
  = map Format.decode [example_record; example_record] /\
  read_event (take 27 (Format.encode example_record)) = inl StructError.
Proof.
  apply (C7_truncated_tail [example_record; example_record] example_record 27).
  - repeat constructor; apply example_record_well_formed.
  - apply example_record_well_formed.
  - vm_compute. lia.
Defined.




(** C4: each normal pass of the consumer's channel loop appends to
    the channel, in this order, the trigger id on 4 bytes, the
    timestamp on 8, the sample count on 4, the time resolution (the
    constant 8) on 8, then the calibrated samples on 4 bytes each, all
    little-endian; with a valid count within the row these are exactly
    [sample_count] floats, and the reader takes a record apart with
    the same widths in the same order. A channel file of a run that
    was not there before holds such records and nothing else. *)
Theorem C4_record_layout self d i waveform st st' :
  save_channel self d i waveform st = (inr tt, st') ->
  exists size,
    waveform_sizes d !! i = Some size /\
    let samples := adc_to_mv self (take (Z.to_nat size) waveform) in
    let record :=
      int_to_bytes_le 4 (trigger_num d) ++
      int_to_bytes_le 8 (timestamp d) ++
      int_to_bytes_le 4 size ++
      int_to_bytes_le 8 8 ++
      concat (map (int_to_bytes_le 4) samples) in
    channel_content st' i = channel_content st i ++ record /\
    (size <= Z.of_nat (length waveform) ->
     length samples = Z.to_nat size /\
     length record = (4 + 8 + 4 + 8 + 4 * Z.to_nat size)%nat /\
     forall rest,
       read_event (record ++ rest)
       = inr ({| EventNumber := trigger_num d; Timestamp := timestamp d;
                 NSamples := size; TimeResolution := 8;
                 Waveform := map F32.of_bits samples |}, rest)) /\
    forall dig n_ch sched j why,
      (j < n_ch)%nat ->
      cpc (run self dig n_ch sched (start ∅)) = CExit why ->
      (forall e, why <> Failed e) ->
      exists k,
        fs (io (run self dig n_ch sched (start ∅))) !! filename j
        = Some (concat ((fun d => channel_bytes self d j) <$> frames dig k)).
Proof.
  intros Hsave.
  apply save_channel_inr in Hsave as (size & Hsize & (Ht & Hts & Hsz) & Hcontent).
  exists size. split; [done|]. cbv zeta. split; [done|]. split.
  - intros Hle.
    assert (length (adc_to_mv self (take (Z.to_nat size) waveform))
            = Z.to_nat size) as Hlen.
    { unfold adc_to_mv. rewrite length_map, length_take. lia. }
    assert (Format.well_formed (record_of self d waveform size)) as Hwf.
    { unfold Format.well_formed, record_of.
      cbn [Format.trigger_id Format.rec_timestamp Format.sample_count
           Format.time_resolution Format.samples].
      do 2 (split; [done|]). split; [done|]. split; [lia|]. split; [lia|].
      unfold adc_to_mv. apply Forall_forall. intros x Hx.
      apply list_elem_of_In, in_map_iff in Hx as (r & <- & _).
      apply calibrate_range. }
    split; [done|]. split.
    + pose proof (length_encode (record_of self d waveform size)) as Hl.
      unfold Format.encode, record_of in Hl.
      cbn [Format.trigger_id Format.rec_timestamp Format.sample_count
           Format.time_resolution Format.samples] in Hl.
      rewrite Hl, Hlen. lia.
    + intros rest. apply (read_event_encode _ rest) in Hwf. exact Hwf.
  - intros dig n_ch sched j why Hj Hexit Hfail.
    pose proof (inv_run self dig n_ch ∅ sched) as (_ & _ & _ & _ & k & _ & _ & Hio).
    unfold io_inv in Hio. rewrite Hexit in Hio. exists k.
    destruct why as [| |e]; [..|by destruct (Hfail e)];
      destruct Hio as [_ Hio]; by rewrite (Hio j Hj).
Qed.

Lemma C4_record_layout_witness :
  exists size,
    waveform_sizes (example_frame 3) !! 0%nat = Some size /\
    let samples := adc_to_mv da16 (take (Z.to_nat size) [0; 65535; 7]) in
    let record :=
      int_to_bytes_le 4 (trigger_num (example_frame 3)) ++
      int_to_bytes_le 8 (timestamp (example_frame 3)) ++
      int_to_bytes_le 4 size ++
      int_to_bytes_le 8 8 ++
      concat (map (int_to_bytes_le 4) samples) in
    channel_content
      (save_channel da16 (example_frame 3) 0 [0; 65535; 7] example_io).2 0
    = channel_content example_io 0 ++ record /\
    (size <= Z.of_nat (length [0; 65535; 7]) ->
     length samples = Z.to_nat size /\
     length record = (4 + 8 + 4 + 8 + 4 * Z.to_nat size)%nat /\
     forall rest,
       read_event (record ++ rest)
       = inr ({| EventNumber := trigger_num (example_frame 3);
                 Timestamp := timestamp (example_frame 3);
                 NSamples := size; TimeResolution := 8;
                 Waveform := map F32.of_bits samples |}, rest)) /\
    forall dig n_ch sched j why,
      (j < n_ch)%nat ->
      cpc (run da16 dig n_ch sched (start ∅)) = CExit why ->
      (forall e, why <> Failed e) ->
      exists k,
        fs (io (run da16 dig n_ch sched (start ∅))) !! filename j
        = Some (concat ((fun d => channel_bytes da16 d j) <$> frames dig k)).
Proof.
  apply (C4_record_layout da16 (example_frame 3) 0 [0; 65535; 7] example_io).
  vm_compute. reflexivity.
Defined.


Lemma example_io_open : handles_open 2 example_io.
Proof.
  apply (open_files_spec 2 0 {| fs := ∅; file_handles := [] |}).
  split; [done|]. intros i f Hf. cbn in Hf. done.
Qed.


(** C10: [struct.pack("I", v)] does not wrap a value of 2^32 or more,
    it raises [struct.error]; so an acquisition with such a valid
    count on one of its channels (or such a trigger id, with at least
    one channel) makes [save_acquisition] raise, and the consumer that
    dequeues it sets the stop flag and goes to its [finally] block
    with the failure recorded, which closes the files on its next
    step. *)
Theorem C10_oversized_count_raises self dig n_ch s d q i :
  cpc s = CGet ->
  acquisition_queue s = Some d :: q ->
  (i < length (waveforms d))%nat ->
  (exists size, waveform_sizes d !! i = Some size /\ 2 ^ 32 <= size) \/
  2 ^ 32 <= trigger_num d ->
  (forall v, 2 ^ 32 <= v -> Struct.pack_I v = inl StructError) /\
  (forall st, exists e st', save_acquisition self d st = (inl e, st')) /\
  stop_event (step self dig n_ch s TConsumer) = true /\
  exists e,
    cpc (step self dig n_ch s TConsumer) = CFinally (Failed e) /\
    cpc (step self dig n_ch (step self dig n_ch s TConsumer) TConsumer)
    = CExit (Failed e).
Proof.
  intros Hpc Hq Hi Hbig.
  assert (forall st, exists e st', save_acquisition self d st = (inl e, st'))
    as Hraise.
  { intros st. apply (save_channels_raises self d (waveforms d) 0 i); [lia|done]. }
  split; [intros v Hv; apply pack_uint_error; simpl; lia|].
  split; [done|].
  destruct (Hraise (io s)) as (e & st' & Hsave).
  assert (consumer_step self n_ch s
          = {| stop_event := true; acquisition_queue := q;
               ppc := ppc s; acq_count := acq_count s; dig_cmds := dig_cmds s;
               cpc := CFinally (Failed e); io := st' |}) as Hstep.
  { unfold consumer_step. by rewrite Hpc, Hq, Hsave. }
  cbn [step]. rewrite Hstep.
  split; [done|]. by exists e.
Qed.

Lemma C10_oversized_count_raises_witness :
  (forall v, 2 ^ 32 <= v -> Struct.pack_I v = inl StructError) /\
  (forall st, exists e st',
      save_acquisition da16
        {| trigger_num := 4; timestamp := 5;
           waveforms := [[1; 2]; [3; 4]];
           waveform_sizes := [2; 2 ^ 32] |} st = (inl e, st')) /\
  stop_event
    (step da16 example_dig 2
       {| stop_event := false;
          acquisition_queue :=
            [Some {| trigger_num := 4; timestamp := 5;
                     waveforms := [[1; 2]; [3; 4]];
                     waveform_sizes := [2; 2 ^ 32] |}];
          ppc := PLoop; acq_count := 1; dig_cmds := [CmdArm; CmdStart; CmdTrigger];
          cpc := CGet; io := example_io |} TConsumer) = true /\
  exists e,
    cpc (step da16 example_dig 2
       {| stop_event := false;
          acquisition_queue :=
            [Some {| trigger_num := 4; timestamp := 5;
                     waveforms := [[1; 2]; [3; 4]];
                     waveform_sizes := [2; 2 ^ 32] |}];
          ppc := PLoop; acq_count := 1; dig_cmds := [CmdArm; CmdStart; CmdTrigger];
          cpc := CGet; io := example_io |} TConsumer) = CFinally (Failed e) /\
    cpc (step da16 example_dig 2 (step da16 example_dig 2
       {| stop_event := false;
          acquisition_queue :=
            [Some {| trigger_num := 4; timestamp := 5;
                     waveforms := [[1; 2]; [3; 4]];
                     waveform_sizes := [2; 2 ^ 32] |}];
          ppc := PLoop; acq_count := 1; dig_cmds := [CmdArm; CmdStart; CmdTrigger];
          cpc := CGet; io := example_io |} TConsumer) TConsumer)
    = CExit (Failed e).
Proof.
  apply (C10_oversized_count_raises da16 example_dig 2 _ _ [] 1).
  - reflexivity.
  - reflexivity.
  - simpl. lia.
  - left. exists (2 ^ 32). split; [reflexivity|lia].
Defined.



(** C9: the consumer opens its files for appending and only ever
    appends. Whatever the schedule and at every moment of the run, a
    file that was in the directory before the run still starts with
    the bytes it had; and when the consumer has exited without
    failure, channel file [i] is its earlier content followed by the
    records of the frames saved in this run. *)
Theorem C9_append_only self dig n_ch fs0 sched fname old :
  fs0 !! fname = Some old ->
  (exists appended,
      fs (io (run self dig n_ch sched (start fs0))) !! fname
      = Some (old ++ appended)) /\
  forall i why,
    fname = filename i -> (i < n_ch)%nat ->
    cpc (run self dig n_ch sched (start fs0)) = CExit why ->
    (forall e, why <> Failed e) ->
    exists k,
      (k <= acq_count (run self dig n_ch sched (start fs0)))%nat /\
      fs (io (run self dig n_ch sched (start fs0))) !! fname
      = Some (old ++ records self dig i k).
Proof.
  intros Hold.
  pose proof (inv_run self dig n_ch fs0 sched)
    as (_ & _ & _ & Hext & k & Hk & _ & Hio).
  split; [by apply Hext|].
  intros i why -> Hi Hexit Hnf. exists k. split; [done|].
  unfold io_inv in Hio. rewrite Hexit in Hio.
  destruct why as [| |e]; [..|by destruct (Hnf e)];
    destruct Hio as [_ Hio]; rewrite (Hio i Hi);
    unfold file_content; by rewrite Hold.
Qed.

Lemma C9_append_only_witness :
  (exists appended,
      fs (io (run da16 example_dig 2 example_schedule
                (start {[ filename 0 := [x01; x02; x03] ]})))
        !! filename 0
      = Some ([x01; x02; x03] ++ appended)) /\
  forall i why,
    filename 0 = filename i -> (i < 2)%nat ->
    cpc (run da16 example_dig 2 example_schedule
           (start {[ filename 0 := [x01; x02; x03] ]})) = CExit why ->
    (forall e, why <> Failed e) ->
    exists k,
      (k <= acq_count (run da16 example_dig 2 example_schedule
                         (start {[ filename 0 := [x01; x02; x03] ]})))%nat /\
      fs (io (run da16 example_dig 2 example_schedule
                (start {[ filename 0 := [x01; x02; x03] ]})))
        !! filename 0
      = Some ([x01; x02; x03] ++ records da16 example_dig i k).
Proof.
  apply (C9_append_only da16 example_dig 2
           {[ filename 0 := [x01; x02; x03] ]} example_schedule (filename 0)).
  vm_compute. reflexivity.
Defined.








Lemma init_16 : init 16 = inr da16.
Proof. vm_compute. reflexivity. Qed.


End Claims.

(** * Further properties *)

(** ** The worker threads *)

Section PipelineProperties.
Import SaveFacts PipelineFacts ProtocolFacts.

(** X1: The stop flag is only ever set: from any state of the pipeline in
    which it is set, no step of the producer, of the consumer or of
    the key listener clears it, whatever the schedule. *)
Theorem X1_stop_flag_never_cleared self dig n_ch sched s :
  stop_event s = true ->
  stop_event (run self dig n_ch sched s) = true.
Proof.
  revert s. induction sched as [|t sched IH]; intros s H; [done|].
  change (run self dig n_ch (t :: sched) s)
    with (run self dig n_ch sched (step self dig n_ch s t)).
  by apply IH, stop_event_step.
Qed.

Lemma X1_stop_flag_never_cleared_witness :
  stop_event (run da16 example_dig 2 example_schedule
                (listener_step (start ∅))) = true.
Proof.
  apply (X1_stop_flag_never_cleared da16 example_dig 2 example_schedule
           (listener_step (start ∅))).
  reflexivity.
Defined.





(** X4: The digitizer sees a fixed protocol. When the producer has exited
    it has sent: arm, start, one software trigger per read attempt,
    and the disarm as its last command, exactly once. After a normal
    end the triggers are as many as the frames enqueued; after a
    failure there may be one more (the attempt that raised), and when
    arming itself failed only arm and disarm were sent. Before the
    producer exits no disarm has been sent. *)
Theorem X4_producer_command_protocol self dig n_ch fs0 sched :
  (forall failed,
     ppc (run self dig n_ch sched (start fs0)) = PExit failed ->
     (dig_cmds (run self dig n_ch sched (start fs0)) = [CmdArm; CmdDisarm] /\
      acq_count (run self dig n_ch sched (start fs0)) = 0%nat /\
      failed = true) \/
     exists t,
       (acq_count (run self dig n_ch sched (start fs0)) <= t
        <= S (acq_count (run self dig n_ch sched (start fs0))))%nat /\
       (failed = false -> t = acq_count (run self dig n_ch sched (start fs0))) /\
       dig_cmds (run self dig n_ch sched (start fs0))
       = [CmdArm; CmdStart] ++ repeat CmdTrigger t ++ [CmdDisarm]) /\
  ((forall failed, ppc (run self dig n_ch sched (start fs0)) <> PExit failed) ->
   CmdDisarm ∉ dig_cmds (run self dig n_ch sched (start fs0))).
Proof.
  pose proof (cmds_inv_run self dig n_ch sched fs0) as H.
  unfold cmds_inv in H.
  set (s := run self dig n_ch sched (start fs0)) in *.
  assert (forall t, CmdDisarm ∉ [CmdArm; CmdStart] ++ repeat CmdTrigger t) as Hno.
  { intros t Hin. apply elem_of_app in Hin as [Hin|Hin].
    - by repeat (apply elem_of_cons in Hin as [?|Hin]; [done|]);
        apply elem_of_nil in Hin.
    - apply list_elem_of_In, repeat_spec in Hin. done. }
  split.
  - intros failed Hpc. rewrite Hpc in H. destruct failed.
    + destruct H as [[H1 H2]|(t & Ht & H)]; [by left|].
      right. exists t. by split.
    + right. exists (acq_count s). split; [lia|]. by split.
  - intros Hne.
    destruct (ppc s) as [| | | |[]|failed] eqn:E.
    + destruct H as [-> _]. apply not_elem_of_nil.
    + rewrite H. apply Hno.
    + rewrite H. apply Hno.
    + rewrite H. apply Hno.
    + destruct H as [[-> _]|(t & _ & ->)]; [|apply Hno].
      intros Hin. apply list_elem_of_singleton in Hin. done.
    + rewrite H. apply Hno.
    + by destruct (Hne failed).
Qed.

Lemma X4_producer_command_protocol_witness :
  (dig_cmds (run da16 failing_dig 2
               [TProducer; TProducer; TProducer; TProducer; TProducer; TProducer]
               (start ∅)) = [CmdArm; CmdDisarm] /\
   acq_count (run da16 failing_dig 2
                [TProducer; TProducer; TProducer; TProducer; TProducer; TProducer]
                (start ∅)) = 0%nat /\
   true = true) \/
  exists t,
    (acq_count (run da16 failing_dig 2
                  [TProducer; TProducer; TProducer; TProducer; TProducer; TProducer]
                  (start ∅)) <= t
     <= S (acq_count (run da16 failing_dig 2
                  [TProducer; TProducer; TProducer; TProducer; TProducer; TProducer]
                  (start ∅))))%nat /\
    (true = false ->
     t = acq_count (run da16 failing_dig 2
                  [TProducer; TProducer; TProducer; TProducer; TProducer; TProducer]
                  (start ∅))) /\
    dig_cmds (run da16 failing_dig 2
                [TProducer; TProducer; TProducer; TProducer; TProducer; TProducer]
                (start ∅))
    = [CmdArm; CmdStart] ++ repeat CmdTrigger t ++ [CmdDisarm].
Proof.
  apply (proj1 (X4_producer_command_protocol da16 failing_dig 2 ∅
                  [TProducer; TProducer; TProducer; TProducer; TProducer; TProducer])
               true).
  reflexivity.
Defined.

(** X5: The stop flag has three writers and no other: the key listener,
    the [except] clause of the producer and the [except] clause of
    the consumer. In a run in which the flag is set, the listener was
    scheduled or one of the two workers failed. *)
Theorem X5_stop_flag_set_only_by self dig n_ch fs0 sched :
  stop_event (run self dig n_ch sched (start fs0)) = true ->
  TListener ∈ sched \/
  producer_failed (ppc (run self dig n_ch sched (start fs0))) = true \/
  consumer_failed (cpc (run self dig n_ch sched (start fs0))) = true.
Proof. apply stop_cause. Qed.

Lemma X5_stop_flag_set_only_by_witness :
  TListener ∈ [TProducer; TProducer; TProducer; TProducer; TProducer] \/
  producer_failed
    (ppc (run da16 failing_dig 2
            [TProducer; TProducer; TProducer; TProducer; TProducer]
            (start ∅))) = true \/
  consumer_failed
    (cpc (run da16 failing_dig 2
            [TProducer; TProducer; TProducer; TProducer; TProducer]
            (start ∅))) = true.
Proof.
  apply (X5_stop_flag_set_only_by da16 failing_dig 2 ∅
           [TProducer; TProducer; TProducer; TProducer; TProducer]).
  reflexivity.
Defined.

(** X6: Neither worker leaves its loop, and no sentinel is put on the
    queue, unless the stop flag is set: the producer is past its
    [while] loop, the consumer in or past its [finally] block, or a
    [None] in the queue, only in states whose stop flag is set. In
    particular the sentinel never ends a run by itself. *)
Theorem X6_workers_leave_only_when_stopped self dig n_ch fs0 sched :
  producer_left_loop (ppc (run self dig n_ch sched (start fs0))) = true \/
  consumer_left_loop (cpc (run self dig n_ch sched (start fs0))) = true \/
  None ∈ acquisition_queue (run self dig n_ch sched (start fs0)) ->
  stop_event (run self dig n_ch sched (start fs0)) = true.
Proof.
  destruct (left_loop_stop self dig n_ch sched fs0) as [Hp Hc].
  pose proof (inv_run self dig n_ch fs0 sched) as (_ & _ & _ & _ & k & _ & Hq & _).
  set (s := run self dig n_ch sched (start fs0)) in *.
  intros [H|[H|H]]; [by apply Hp|by apply Hc|].
  apply Hp.
  assert (forall l : list acquisition_data,
            None ∈ (Some <$> l) ++ sentinel s -> sentinel_put (ppc s) = true)
    as Hs.
  { intros l Hin. apply elem_of_app in Hin as [Hin|Hin].
    - by apply list_elem_of_fmap in Hin as (d & ? & _).
    - unfold sentinel in Hin. destruct (sentinel_put (ppc s)); [done|].
      by apply elem_of_nil in Hin. }
  assert (sentinel_put (ppc s) = true) as Hput.
  { unfold queue_inv in Hq.
    destruct (cpc s) as [| | |[| |e]|[| |e]];
      try (rewrite Hq in H; by eapply Hs);
      try (by destruct Hq as [? _]);
      destruct Hq as [_ Hq]; rewrite Hq in H; by eapply Hs. }
  by destruct (ppc s) as [| | | |[]|[]].
Qed.

Lemma X6_workers_leave_only_when_stopped_witness :
  stop_event (run da16 example_dig 2 example_schedule (start ∅)) = true.
Proof.
  apply (X6_workers_leave_only_when_stopped da16 example_dig 2 ∅ example_schedule).
  left. reflexivity.
Defined.

(** X7: The run owns the channel files and nothing else: a file of the
    directory whose name is not [raw_CH<i>.bin] for a channel [i] of
    the run is, at every moment and on every schedule, exactly as it
    was before the run (absent if it was absent). *)
Theorem X7_other_files_untouched self dig n_ch fs0 sched g :
  (forall i, (i < n_ch)%nat -> g <> filename i) ->
  fs (io (run self dig n_ch sched (start fs0))) !! g = fs0 !! g.
Proof.
  intros Hg. induction sched as [|t sched IH] using rev_ind; [done|].
  rewrite run_snoc.
  pose proof (inv_run self dig n_ch fs0 sched) as (_ & _ & _ & _ & k & _ & _ & Hio).
  set (s := run self dig n_ch sched (start fs0)) in *.
  rewrite <- IH. destruct t; cbn [step]; [| |done].
  - unfold producer_step. destruct (ppc s); try done.
    + by destruct (ArmAcquisition dig); [|destruct (SwStartAcquisition dig)].
    + by destruct (read_data dig (acq_count s)).
  - unfold io_inv in Hio. unfold consumer_step.
    destruct (cpc s) as [| | |why|why] eqn:E; cbn [io]; try done.
    + apply open_files_other. intros j Hj. apply Hg. lia.
    + destruct Hio as [Hopen _].
      destruct (acquisition_queue s) as [|[d|] q]; try done.
      destruct (save_acquisition self d (io s)) as [[e|[]] io'] eqn:Hsave;
        cbn [io]; by eapply (save_channels_other self n_ch).
    + apply (close_files_other n_ch); [|done].
      by destruct why as [| |e]; [destruct Hio..|].
Qed.

Lemma X7_other_files_untouched_witness :
  fs (io (run da16 example_dig 2 example_schedule
            (start {[ "settings.ini" := [x01; x02] ]}))) !! "settings.ini"
  = ({[ "settings.ini" := [x01; x02] ]} : gmap string (list byte)) !! "settings.ini".
Proof.
  apply (X7_other_files_untouched da16 example_dig 2
           {[ "settings.ini" := [x01; x02] ]} example_schedule "settings.ini").
  intros [|[|i]] Hi; [vm_compute; discriminate..|lia].
Defined.

(** X8: Every channel has a file of its own: at every moment of a run the
    handle the consumer holds for channel [i] is on [raw_CH<i>.bin],
    and two different channels never share a file name. *)
Theorem X8_channels_have_own_files self dig n_ch fs0 sched :
  (forall i f,
     file_handles (io (run self dig n_ch sched (start fs0))) !! i = Some f ->
     (i < n_ch)%nat /\ name f = filename i) /\
  (forall i j f g,
     file_handles (io (run self dig n_ch sched (start fs0))) !! i = Some f ->
     file_handles (io (run self dig n_ch sched (start fs0))) !! j = Some g ->
     name f = name g -> i = j) /\
  (forall i j, filename i = filename j -> i = j).
Proof.
  pose proof (inv_run self dig n_ch fs0 sched) as (_ & _ & _ & _ & k & _ & _ & Hio).
  set (s := run self dig n_ch sched (start fs0)) in *.
  assert (forall i f, file_handles (io s) !! i = Some f ->
                      (i < n_ch)%nat /\ name f = filename i) as Hname.
  { intros i f Hf. unfold io_inv in Hio.
    destruct (cpc s) as [| | |[| |e]|[| |e]].
    - destruct Hio as [_ Hio]. by rewrite Hio in Hf.
    - destruct Hio as [[Hl Hn] _]. split; [|by apply Hn].
      apply lookup_lt_Some in Hf. lia.
    - destruct Hio as [[Hl Hn] _]. split; [|by apply Hn].
      apply lookup_lt_Some in Hf. lia.
    - destruct Hio as [[Hl Hn] _]. split; [|by apply Hn].
      apply lookup_lt_Some in Hf. lia.
    - destruct Hio as [[Hl Hn] _]. split; [|by apply Hn].
      apply lookup_lt_Some in Hf. lia.
    - destruct Hio as [Hl Hn]. split; [|by apply Hn].
      apply lookup_lt_Some in Hf. lia.
    - destruct Hio as [[Hl Hn] _]. split; [|by apply Hn].
      apply lookup_lt_Some in Hf. lia.
    - destruct Hio as [[Hl Hn] _]. split; [|by apply Hn].
      apply lookup_lt_Some in Hf. lia.
    - destruct Hio as [Hl Hn]. split; [|by apply Hn].
      apply lookup_lt_Some in Hf. lia. }
  split; [done|]. split; [|apply filename_inj].
  intros i j f g Hf Hg Heq.
  destruct (Hname i f Hf) as [_ Hi]. destruct (Hname j g Hg) as [_ Hj].
  apply filename_inj. congruence.
Qed.

End PipelineProperties.

(** ** Reader, serialisation and calibration *)

Section FormatProperties.
Import Bytes BytesFacts Struct StructFacts Reader ReaderFacts SaveFacts.
Import ReaderMoreFacts FlushFacts RangeFacts.

(** X9: The reader can follow a file that is still being written: the
    events it yields from a file are a prefix of the events it yields
    once more bytes have been appended to that file; appending never
    changes or removes an event already readable. *)
Theorem X9_reader_stable_under_append (f g : list byte) :
  read_raw_data f `prefix_of` read_raw_data (f ++ g).
Proof.
  rewrite <- (read_loop_fuel (S (length (f ++ g))) f)
    by (rewrite length_app; lia).
  apply read_loop_prefix.
Qed.

(** X10: Whatever the bytes of the file, every event the reader yields is
    consistent: its waveform has exactly [NSamples] samples and its
    four header fields lie within their unsigned 32- and 64-bit
    ranges. *)
Theorem X10_reader_events_consistent (f : list byte) :
  Forall (fun ev =>
            length (Waveform ev) = Z.to_nat (NSamples ev) /\
            0 <= EventNumber ev < 2 ^ 32 /\
            0 <= Timestamp ev < 2 ^ 64 /\
            0 <= NSamples ev < 2 ^ 32 /\
            0 <= TimeResolution ev < 2 ^ 64)
         (read_raw_data f).
Proof.
  unfold read_raw_data. generalize (S (length f)). intros fuel.
  revert f. induction fuel as [|fuel IH]; intros f; [constructor|].
  cbn [read_loop].
  destruct (read_event f) as [e|[ev f']] eqn:Hr; [constructor|].
  constructor; [|apply IH].
  by apply read_event_spec in Hr as (_ & _ & ?).
Qed.

(** X11: The reader walks the file record by record, with no
    resynchronisation: the events it yields account for
    [24 + 4 * NSamples] bytes each, taken from the start of the file
    without gaps, it stops at the first position from which no whole
    record can be read, and a file shorter than one header yields
    nothing. *)
Theorem X11_reader_consumes_whole_records (f : list byte) :
  (sum_list (event_size <$> read_raw_data f) <= length f)%nat /\
  read_event (drop (sum_list (event_size <$> read_raw_data f)) f)
  = inl StructError /\
  ((length f < 24)%nat -> read_raw_data f = []).
Proof.
  destruct (read_loop_consumed (S (length f)) f) as [H1 H2].
  fold (read_raw_data f) in H1, H2.
  split; [done|]. split; [apply H2; lia|].
  intros Hshort. unfold read_raw_data. cbn [read_loop].
  by rewrite read_event_short.
Qed.

(** X12: After a frame whose trigger number is a multiple of 10 has been
    saved, nothing of the channels it wrote is left in a buffer: for
    a channel [i] of the frame the handle has no pending bytes and the
    file in the directory holds everything written to the channel so
    far, this frame's record included. *)
Theorem X12_flush_on_tenth_trigger self n d st st' i :
  handles_open n st ->
  save_acquisition self d st = (inr tt, st') ->
  trigger_num d mod 10 = 0 ->
  (i < length (waveforms d))%nat ->
  exists f,
    file_handles st' !! i = Some f /\ pending f = [] /\
    fs st' !! filename i
    = Some (channel_content st i ++ channel_bytes self d i).
Proof.
  intros Hopen Hsave Hten Hi.
  destruct (save_acquisition_inr self n d st st' Hsave Hopen)
    as ([Hlen Hopen'] & _ & Hc).
  assert (i < n)%nat as Hin.
  { pose proof (save_channels_rows self d (waveforms d) 0 st st' Hsave) as Hrows.
    destruct Hopen as [Hn _]. rewrite Hn in Hrows.
    destruct (waveforms d); [cbn in Hi; lia|].
    specialize (Hrows ltac:(done)). lia. }
  destruct (lookup_lt_is_Some_2 (file_handles st') i) as [f Hf]; [lia|].
  exists f. split; [done|].
  assert (pending f = []) as Hp.
  { eapply (save_channels_flushed self d (waveforms d) 0 st st'); [done..| |done].
    lia. }
  split; [done|].
  destruct (Hopen' i f Hf) as (Hname & _ & [c Hfile]).
  rewrite <- Hc. unfold channel_content. rewrite Hf, Hname, Hp, app_nil_r.
  unfold file_content. by rewrite Hfile.
Qed.

Lemma X12_flush_on_tenth_trigger_witness :
  exists f,
    file_handles (save_acquisition da16 (example_frame 10) example_io).2 !! 1%nat
    = Some f /\ pending f = [] /\
    fs (save_acquisition da16 (example_frame 10) example_io).2 !! filename 1
    = Some (channel_content example_io 1
            ++ channel_bytes da16 (example_frame 10) 1).
Proof.
  apply (X12_flush_on_tenth_trigger da16 2 (example_frame 10) example_io
           (save_acquisition da16 (example_frame 10) example_io).2 1).
  - apply example_io_open.
  - vm_compute. reflexivity.
  - reflexivity.
  - simpl. lia.
Defined.

(** X13: A valid count that does not fit the 32-bit [sample_count] field
    damages the tail of its channel file and nothing else: with the
    trigger id and the timestamp in range, [struct.pack] raises on the
    count after the first two header fields were written, so the
    channel grows by exactly these 12 bytes, the other channels are
    untouched, and a reader of this channel still gets every record
    written before, the 12-byte fragment being dropped. *)
Theorem X13_oversized_count_leaves_partial_header self n d i waveform size st :
  handles_open n st -> (i < n)%nat ->
  waveform_sizes d !! i = Some size ->
  0 <= trigger_num d < 2 ^ 32 -> 0 <= timestamp d < 2 ^ 64 ->
  2 ^ 32 <= size ->
  exists st',
    save_channel self d i waveform st = (inl StructError, st') /\
    channel_content st' i
    = channel_content st i ++
      int_to_bytes_le 4 (trigger_num d) ++ int_to_bytes_le 8 (timestamp d) /\
    (forall j, j <> i -> channel_content st' j = channel_content st j) /\
    (forall rs,
       Forall Format.well_formed rs ->
       channel_content st i = concat (map Format.encode rs) ->
       read_raw_data (channel_content st' i) = map Format.decode rs).
Proof.
  intros [Hlen Hopen] Hi Hs Ht Hts Hbig.
  destruct (lookup_lt_is_Some_2 (file_handles st) i) as [f Hf]; [lia|].
  eexists. split.
  { apply (save_channel_oversized self d i waveform size st f); [done..|lia]. }
  assert (channel_content
            (set_handle i (write (write f (int_to_bytes_le 4 (trigger_num d)))
                                 (int_to_bytes_le 8 (timestamp d))) (fs st) st) i
          = channel_content st i ++
            int_to_bytes_le 4 (trigger_num d) ++ int_to_bytes_le 8 (timestamp d))
    as Hcontent.
  { unfold channel_content. rewrite (set_handle_lookup i _ _ st f Hf), Hf.
    cbn [set_handle fs write name pending]. by rewrite <- !app_assoc. }
  split; [done|]. split.
  - intros j Hne. unfold channel_content, set_handle. cbn [fs file_handles].
    by rewrite list_lookup_insert_ne.
  - intros rs Hrs Hold. rewrite Hcontent, Hold.
    apply read_raw_data_records; [done|]. exists StructError.
    apply read_event_short.
    rewrite length_app, !length_int_to_bytes_le. lia.
Qed.

Lemma X13_oversized_count_leaves_partial_header_witness :
  exists st',
    save_channel da16
      {| trigger_num := 4; timestamp := 5; waveforms := [[1; 2]; [3; 4]];
         waveform_sizes := [2; 2 ^ 32] |} 1 [3; 4] example_io
    = (inl StructError, st') /\
    channel_content st' 1
    = channel_content example_io 1 ++
      int_to_bytes_le 4 4 ++ int_to_bytes_le 8 5 /\
    (forall j, j <> 1%nat -> channel_content st' j = channel_content example_io j) /\
    (forall rs,
       Forall Format.well_formed rs ->
       channel_content example_io 1 = concat (map Format.encode rs) ->
       read_raw_data (channel_content st' 1) = map Format.decode rs).
Proof.
  apply (X13_oversized_count_leaves_partial_header da16 2
           {| trigger_num := 4; timestamp := 5; waveforms := [[1; 2]; [3; 4]];
              waveform_sizes := [2; 2 ^ 32] |} 1 [3; 4] (2 ^ 32) example_io).
  - apply example_io_open.
  - lia.
  - reflexivity.
  - simpl. lia.
  - simpl. lia.
  - lia.
Defined.

(** X14: [__init__] and the bit depth: a depth of 0 makes the scale
    [2.0 / 0] and raises [ZeroDivisionError]; for every depth from 1
    to 1023 the object is built, with a positive finite scale and the
    offset -1.0; from 1024 on (checked up to 4096) the integer
    [2**b - 1] no longer converts to a float and [OverflowError] is
    raised. *)
Theorem X14_init_bit_depth (b : N) :
  (b = 0%N -> init b = inl ZeroDivisionError) /\
  ((1 <= b <= 1023)%N ->
   exists self,
     init b = inr self /\ adc_n_bits self = b /\
     adc_offset self = PyFloat.minus_one /\
     exists m e, adc_scale self = S754_finite false m e) /\
  ((1024 <= b <= 4096)%N -> init b = inl OverflowError).
Proof.
  split; [by intros ->|]. split.
  - intros Hb.
    pose proof (forallb_range init_succeeds 1 1023 b init_succeeds_all) as H.
    specialize (H ltac:(lia)). unfold init_succeeds in H.
    destruct (init b) as [e|self] eqn:Hinit; [done|]. exists self.
    split; [done|]. destruct (init_inr b self Hinit) as [Hn Ho].
    split; [done|]. split; [done|].
    destruct (adc_scale self) as [| | |[] m e]; try done. by exists m, e.
  - intros Hb.
    pose proof (forallb_range init_overflows 1024 3073 b init_overflows_all) as H.
    specialize (H ltac:(lia)). unfold init_overflows in H.
    by destruct (init b) as [[]|self].
Qed.

(** X15: For a converter of up to 16 bits, calibrated samples stay within
    the nominal range: every raw sample between 0 and [2^b - 1] is
    mapped by [adc_to_mv] to a binary32 value [v] with
    [-1.0 <= v <= +1.0] (so never to a NaN or an infinity), and the
    output has one value per input sample. *)
Theorem X15_adc_to_mv_in_range b self adc_array :
  init b = inr self ->
  (1 <= b <= 16)%N ->
  Forall (fun r => 0 <= r <= max_raw b) adc_array ->
  length (adc_to_mv self adc_array) = length adc_array /\
  Forall (fun v => F32.leb minus_one32 v = true /\ F32.leb v plus_one32 = true)
         (adc_to_mv self adc_array).
Proof.
  intros Hinit Hb Hraw.
  pose proof (CalibrationFacts.depth_ok_range b Hb) as Hok.
  unfold depth_ok in Hok. rewrite Hinit in Hok.
  repeat (apply andb_prop in Hok as [Hok ?]).
  repeat match goal with H : (_ =? _) = true |- _ => apply Z.eqb_eq in H end.
  assert (forall r1 r2, 0 <= r1 -> r1 < r2 -> r2 <= max_raw b ->
            F32.ltb (calibrate self r1) (calibrate self r2) = true) as Hasc.
  { intros r1 r2 Hr1 Hr12 Hr2.
    eapply (CalibrationFacts.ascending_spec self _ 0); [eassumption|lia..|].
    assert (0 <= max_raw b) by lia. lia. }
  assert (calibrate self 0 = minus_one32) as Hlo by done.
  assert (calibrate self (max_raw b) = plus_one32) as Hhi by done.
  unfold adc_to_mv. split; [apply length_map|].
  apply Forall_map. eapply Forall_impl; [exact Hraw|].
  intros r [Hr0 Hr1]. cbn beta. split.
  - destruct (decide (r = 0)) as [->|Hne]; [by rewrite Hlo|].
    rewrite <- Hlo. apply ltb_leb, Hasc; lia.
  - destruct (decide (r = max_raw b)) as [->|Hne]; [by rewrite Hhi|].
    rewrite <- Hhi. apply ltb_leb, Hasc; lia.
Qed.

Lemma X15_adc_to_mv_in_range_witness :
  length (adc_to_mv da16 [0; 65535; 7]) = length [0; 65535; 7] /\
  Forall (fun v => F32.leb minus_one32 v = true /\ F32.leb v plus_one32 = true)
         (adc_to_mv da16 [0; 65535; 7]).
Proof.
  apply (X15_adc_to_mv_in_range 16 da16 [0; 65535; 7]).
  - apply init_16.
  - lia.
  - repeat constructor; vm_compute; discriminate.
Defined.

End FormatProperties.

(** ** The configuration reader *)

Section ConfigProperties.
Import Py configparser config ConfigFacts.

(** X16: Error discipline of the reader: looking an option up raises
    nothing but [ConfigurationError] (a missing key in the defaults
    and every parser error are wrapped), and so does
    [get_acquisition_settings]; [get_channel_settings] raises
    [ValueError] exactly for a channel outside
    [0 .. num_channels - 1], before anything is looked up, and
    nothing but [ConfigurationError] for a channel within. *)
Theorem X16_config_error_discipline (optionxform : string -> string)
    (int : string -> option Z) (self : ConfigReader) :
  (forall section option e,
     get optionxform self section option = inl e -> e = ConfigurationError) /\
  (forall e,
     get_acquisition_settings optionxform int self = inl e ->
     e = ConfigurationError) /\
  (forall channel,
     ~ 0 <= channel < num_channels self ->
     get_channel_settings optionxform int self channel = inl ValueError) /\
  (forall channel e,
     0 <= channel < num_channels self ->
     get_channel_settings optionxform int self channel = inl e ->
     e = ConfigurationError).
Proof.
  split; [intros section option e; apply _get_with_default_inl|].
  split.
  { intros e. unfold get_acquisition_settings. apply except_settings_inl.
    intros e'.
    repeat match goal with
    | |- context [_get_int_with_default ?x ?i ?s ?a ?b] =>
        let H := fresh "H" in
        destruct (_get_int_with_default x i s a b) eqn:H; cbn [bind];
        [intros [= <-]; by eapply _get_int_with_default_inl|clear H]
    | |- context [_get_with_default ?x ?s ?a ?b] =>
        let H := fresh "H" in
        destruct (_get_with_default x s a b) eqn:H; cbn [bind];
        [intros [= <-]; by eapply _get_with_default_inl|clear H]
    end. done. }
  split.
  { intros channel Hout. unfold get_channel_settings.
    by rewrite bool_decide_false. }
  intros channel e Hin. unfold get_channel_settings.
  rewrite bool_decide_true by done. cbn [negb].
  apply except_settings_inl. intros e'. cbv zeta.
  repeat match goal with
  | |- context [_get_int_with_default ?x ?i ?s ?a ?b] =>
      let H := fresh "H" in
      destruct (_get_int_with_default x i s a b) eqn:H; cbn [bind];
      [intros [= <-]; by eapply _get_int_with_default_inl|clear H]
  end. done.
Qed.

(** X17: Where the value of an option comes from. For a section with a
    name other than the empty one and [DEFAULT]: from that section of
    the file if it has the option (the option name being folded by
    [optionxform]); else from the [DEFAULT] section of the file,
    provided the named section exists in the file; else from
    [default_settings], under ["default_channel"] for a section whose
    name starts with [CH] and under the section name otherwise, with
    the option name as given. The [DEFAULT] section of the file is not
    consulted for a section the file does not have. *)
Theorem X17_option_resolution_order (optionxform : string -> string)
    (self : ConfigReader) (section option : string) :
  section <> "" -> section <> default_section ->
  get optionxform self section option
  = match _sections (config self) !! section with
    | Some d =>
        match d !! optionxform option with
        | Some value => inr value
        | None =>
            match _defaults (config self) !! optionxform option with
            | Some value => inr value
            | None => default_value self section option
            end
        end
    | None => default_value self section option
    end.
Proof. apply get_named. Qed.

Lemma X17_option_resolution_order_witness :
  get lower example_reader "ACQ" "ACQ_Trigger_Source"
  = match _sections (config example_reader) !! "ACQ" with
    | Some d =>
        match d !! lower "ACQ_Trigger_Source" with
        | Some value => inr value
        | None =>
            match _defaults (config example_reader) !! lower "ACQ_Trigger_Source" with
            | Some value => inr value
            | None => default_value example_reader "ACQ" "ACQ_Trigger_Source"
            end
        end
    | None => default_value example_reader "ACQ" "ACQ_Trigger_Source"
    end.
Proof.
  apply (X17_option_resolution_order lower example_reader "ACQ" "ACQ_Trigger_Source");
    discriminate.
Defined.

(** X18: With no section for a channel in the file, the channel gets the
    defaults: for every channel in range whose section [CH<channel>]
    the file does not have, [get_channel_settings] returns the integer
    values of [dc_offset] and [threshold] under ["default_channel"],
    the same for all such channels, whatever the [DEFAULT] section
    of the file says. *)
Theorem X18_channel_without_section_gets_defaults (optionxform : string -> string)
    (int : string -> option Z) (self : ConfigReader) (channel : Z)
    (d : gmap string string) (a b : string) (x y : Z) :
  0 <= channel < num_channels self ->
  _sections (config self) !! ("CH" +:+ pretty channel) = None ->
  default_settings self !! "default_channel" = Some d ->
  d !! "dc_offset" = Some a -> d !! "threshold" = Some b ->
  int a = Some x -> int b = Some y ->
  get_channel_settings optionxform int self channel
  = inr {| dc_offset := x; threshold := y |}.
Proof.
  intros Hin Hsec Hd Ha Hb Hx Hy.
  unfold get_channel_settings. rewrite bool_decide_true by done.
  cbn [negb]. cbv zeta. unfold _get_int_with_default.
  rewrite !get_named by done. rewrite Hsec.
  unfold default_value.
  rewrite prefix_CH.
  rewrite Hd, Ha, Hb. cbn [bind]. by rewrite Hx, Hy.
Qed.

Lemma X18_channel_without_section_gets_defaults_witness :
  get_channel_settings lower int_decimal example_reader 2
  = inr {| dc_offset := 50; threshold := 100 |}.
Proof.
  apply (X18_channel_without_section_gets_defaults lower int_decimal example_reader 2
           {[ "dc_offset" := "50"; "threshold" := "100" ]} "50" "100" 50 100);
    try reflexivity.
  cbn. lia.
Defined.

(** X19: [set] followed by [get] returns the value set, for every section
    name, the empty one and [DEFAULT] included, and whether or not
    the file could be written: the parser is updated before the file
    is saved. When the file is writable [set] returns normally and
    the file holds the new configuration; when it is not, [set]
    raises [ConfigurationError], the file is as before, and the
    value is set in memory all the same. *)
Theorem X19_set_then_get (optionxform : string -> string) (self : ConfigReader)
    (section option value : string) (f : ini_file) :
  parser_ok (config self) ->
  exists r self' f',
    config.set optionxform self section option value f = (r, self', f') /\
    get optionxform self' section option = inr value /\
    parser_ok (config self') /\
    (writable f = true -> r = inr tt /\ written f' = Some (config self')) /\
    (writable f = false -> r = inl ConfigurationError /\ f' = f).
Proof.
  intros [Hd He].
  destruct (decide (section = "" \/ section = default_section)) as [Hsp|Hn].
  - rewrite set_special by done. cbv zeta.
    eexists _, _, _. split; [reflexivity|].
    assert (parser_ok
              {| _defaults := <[optionxform option := value]> (_defaults (config self));
                 _sections :=
                   if contains (config self) section
                   then _sections (config self)
                   else <[section := ∅]> (_sections (config self)) |}) as Hok.
    { split; cbn [_sections].
      - destruct (contains (config self) section) eqn:Hc; [done|].
        rewrite lookup_insert_ne; [done|].
        intros ->. unfold contains in Hc. by rewrite bool_decide_true in Hc.
      - intros d. destruct (contains (config self) section) eqn:Hc; [apply He|].
        destruct Hsp as [->| ->].
        + rewrite lookup_insert_eq. by intros [= <-].
        + unfold contains in Hc. by rewrite bool_decide_true in Hc. }
    split; [|split; [exact Hok|]].
    + apply (get_special optionxform _ _ _ value Hsp); cbn [config with_config _defaults _sections].
      * by rewrite lookup_insert_eq.
      * intros ->. destruct Hok as [Hok _]. exact Hok.
      * intros ->. unfold contains, has_section.
        rewrite (bool_decide_false ("" = default_section)) by done. cbn [orb].
        destruct (_sections (config self) !! "") as [d|] eqn:Hs.
        -- rewrite bool_decide_true by done. by rewrite Hs, (He d).
        -- rewrite bool_decide_false by (by intros [? ?]).
           by rewrite lookup_insert_eq.
    + rewrite save_spec. split; intros ->; by cbn.
  - assert (section <> "") as H1 by (intros ->; apply Hn; by left).
    assert (section <> default_section) as H2 by (intros ->; apply Hn; by right).
    rewrite set_named by done. cbv zeta.
    eexists _, _, _. split; [reflexivity|]. split; [|split].
    + unfold get. rewrite get_named by done.
      cbn [config with_config _sections]. by rewrite !lookup_insert_eq.
    + split; cbn [config with_config _sections].
      * by rewrite lookup_insert_ne.
      * intros d. rewrite lookup_insert_ne by done. apply He.
    + rewrite save_spec. split; intros ->; by cbn.
Qed.

Lemma example_reader_ok : parser_ok (config example_reader).
Proof. split; [done|]. intros d H. vm_compute in H. discriminate. Qed.

Lemma X19_set_then_get_witness :
  exists r self' f',
    config.set lower example_reader "CH0" "DC_Offset" "12" example_ini
    = (r, self', f') /\
    get lower self' "CH0" "DC_Offset" = inr "12" /\
    parser_ok (config self') /\
    (writable example_ini = true ->
     r = inr tt /\ written f' = Some (config self')) /\
    (writable example_ini = false -> r = inl ConfigurationError /\ f' = example_ini).
Proof.
  apply (X19_set_then_get lower example_reader "CH0" "DC_Offset" "12" example_ini).
  apply example_reader_ok.
Defined.

(** X20: [set] on a named section changes that option and no other: the
    options of every other section resolve as before, and so do the
    other options of the same section when the file already had the
    section. (When [set] has to create the section, its other options
    start to see the [DEFAULT] section of the file.) *)
Theorem X20_set_leaves_other_options (optionxform : string -> string)
    (self : ConfigReader) (section option value : string) (f : ini_file)
    (section' option' : string) :
  section <> "" -> section <> default_section ->
  section' <> section \/
  (is_Some (_sections (config self) !! section) /\
   optionxform option' <> optionxform option) ->
  get optionxform (config.set optionxform self section option value f).1.2
      section' option'
  = get optionxform self section' option'.
Proof.
  intros H1 H2 Hother. rewrite set_named by done. cbv zeta. cbn [fst snd].
  unfold get.
  destruct (decide (section' = section)) as [->|Hne].
  - destruct Hother as [?|[[d Hd] Ho]]; [done|].
    rewrite !get_named by done.
    cbn [config with_config _sections _defaults].
    rewrite lookup_insert_eq, Hd. cbn [default from_option id].
    rewrite lookup_insert_ne by done.
    by rewrite (default_value_ext self).
  - apply get_ext; [done..|].
    cbn [config with_config _sections]. by rewrite lookup_insert_ne.
Qed.

Lemma X20_set_leaves_other_options_witness :
  get lower (config.set lower example_reader "CH1" "threshold" "5" example_ini).1.2
      "CH1" "dc_offset"
  = get lower example_reader "CH1" "dc_offset".
Proof.
  apply (X20_set_leaves_other_options lower example_reader "CH1" "threshold" "5"
           example_ini "CH1" "dc_offset"); [discriminate..|].
  right. split; [by eexists|discriminate].
Defined.

(** X21: [remove_option] on a named section. A section the file does not
    have is reported as [ConfigurationError]; an option the section
    does not have gives [False] and changes neither the reader nor
    the file. An option the section has is removed from the parser
    first and the file saved next: afterwards the option resolves to
    the [DEFAULT] section of the file or to the defaults, the result
    is [True] when the file is writable, and [ConfigurationError]
    with the option removed in memory when it is not. *)
Theorem X21_remove_option_falls_back (optionxform : string -> string)
    (self : ConfigReader) (section option : string) (f : ini_file) :
  section <> "" -> section <> default_section ->
  match _sections (config self) !! section with
  | None =>
      config.remove_option optionxform self section option f
      = (inl ConfigurationError, self, f)
  | Some d =>
      match d !! optionxform option with
      | None =>
          config.remove_option optionxform self section option f
          = (inr false, self, f)
      | Some _ =>
          exists r self' f',
            config.remove_option optionxform self section option f
            = (r, self', f') /\
            get optionxform self' section option
            = match _defaults (config self) !! optionxform option with
              | Some value => inr value
              | None => default_value self section option
              end /\
            (writable f = true ->
             r = inr true /\ written f' = Some (config self')) /\
            (writable f = false -> r = inl ConfigurationError /\ f' = f)
      end
  end.
Proof.
  intros H1 H2. unfold config.remove_option, configparser.remove_option.
  rewrite (bool_decide_false (section = "" \/ section = default_section))
    by (by intros [?|?]).
  destruct (_sections (config self) !! section) as [d|] eqn:Hs; [|done].
  destruct (d !! optionxform option) as [v|] eqn:Ho.
  - rewrite bool_decide_true by done.
    assert (forall self',
              default_settings self' = default_settings self ->
              config self'
              = {| _defaults := _defaults (config self);
                   _sections := <[section := delete (optionxform option) d]>
                                  (_sections (config self)) |} ->
              get optionxform self' section option
              = match _defaults (config self) !! optionxform option with
                | Some value => inr value
                | None => default_value self section option
                end) as Hget.
    { intros self' Hds Hc. unfold get. rewrite get_named by done. rewrite Hc.
      cbn [_sections _defaults].
      rewrite lookup_insert_eq, lookup_delete_eq.
      by rewrite (default_value_ext self). }
    rewrite save_spec. destruct (writable f) eqn:Hw.
    + eexists _, _, _. split; [reflexivity|].
      split; [by apply Hget|]. by split.
    + eexists _, _, _. split; [reflexivity|].
      split; [by apply Hget|]. by split.
  - rewrite bool_decide_false by (by intros [? ?]).
    by rewrite with_config_id.
Qed.

Lemma X21_remove_option_falls_back_witness :
  match _sections (config example_reader) !! "CH1" with
  | None =>
      config.remove_option lower example_reader "CH1" "DC_OFFSET" example_ini
      = (inl ConfigurationError, example_reader, example_ini)
  | Some d =>
      match d !! lower "DC_OFFSET" with
      | None =>
          config.remove_option lower example_reader "CH1" "DC_OFFSET" example_ini
          = (inr false, example_reader, example_ini)
      | Some _ =>
          exists r self' f',
            config.remove_option lower example_reader "CH1" "DC_OFFSET" example_ini
            = (r, self', f') /\
            get lower self' "CH1" "DC_OFFSET"
            = match _defaults (config example_reader) !! lower "DC_OFFSET" with
              | Some value => inr value
              | None => default_value example_reader "CH1" "DC_OFFSET"
              end /\
            (writable example_ini = true ->
             r = inr true /\ written f' = Some (config self')) /\
            (writable example_ini = false ->
             r = inl ConfigurationError /\ f' = example_ini)
      end
  end.
Proof.
  apply (X21_remove_option_falls_back lower example_reader "CH1" "DC_OFFSET" example_ini);
    discriminate.
Defined.

(** X22: [remove_section] on a named section the file has: the section is
    dropped from the parser and the file saved; afterwards every
    option of that section resolves to the defaults alone (the
    [DEFAULT] section of the file no longer applies to it), while the
    other sections resolve as before. For a section the file does not
    have the result is [False] and nothing changes. *)
Theorem X22_remove_section_restores_defaults (optionxform : string -> string)
    (self : ConfigReader) (section : string) (f : ini_file) :
  section <> "" -> section <> default_section ->
  (_sections (config self) !! section = None ->
   config.remove_section self section f = (inr false, self, f)) /\
  (is_Some (_sections (config self) !! section) ->
   exists r self' f',
     config.remove_section self section f = (r, self', f') /\
     (forall option,
        get optionxform self' section option = default_value self section option) /\
     (forall section' option',
        section' <> section ->
        get optionxform self' section' option'
        = get optionxform self section' option') /\
     (writable f = true -> r = inr true /\ written f' = Some (config self')) /\
     (writable f = false -> r = inl ConfigurationError /\ f' = f)).
Proof.
  intros H1 H2. unfold config.remove_section, configparser.remove_section,
    has_section.
  split.
  - intros Hs. rewrite bool_decide_false by (rewrite Hs; by intros [? ?]).
    by rewrite with_config_id.
  - intros Hs. rewrite bool_decide_true by done.
    assert (forall self',
              default_settings self' = default_settings self ->
              config self'
              = {| _defaults := _defaults (config self);
                   _sections := delete section (_sections (config self)) |} ->
              (forall option,
                 get optionxform self' section option
                 = default_value self section option) /\
              (forall section' option',
                 section' <> section ->
                 get optionxform self' section' option'
                 = get optionxform self section' option')) as Hget.
    { intros self' Hds Hc. split.
      - intros option. unfold get. rewrite get_named by done. rewrite Hc.
        cbn [_sections]. rewrite lookup_delete_eq.
        by apply default_value_ext.
      - intros section' option' Hne. apply get_ext; [done|by rewrite Hc|].
        rewrite Hc. cbn [_sections]. by rewrite lookup_delete_ne. }
    rewrite save_spec. destruct (writable f) eqn:Hw.
    + eexists _, _, _. split; [reflexivity|].
      destruct (Hget (with_config self
                        {| _defaults := _defaults (config self);
                           _sections := delete section (_sections (config self)) |})
                     eq_refl eq_refl) as [Hg1 Hg2].
      split; [exact Hg1|]. split; [exact Hg2|]. by split.
    + eexists _, _, _. split; [reflexivity|].
      destruct (Hget (with_config self
                        {| _defaults := _defaults (config self);
                           _sections := delete section (_sections (config self)) |})
                     eq_refl eq_refl) as [Hg1 Hg2].
      split; [exact Hg1|]. split; [exact Hg2|]. by split.
Qed.

Lemma X22_remove_section_restores_defaults_witness :
  (_sections (config example_reader) !! "ACQ" = None ->
   config.remove_section example_reader "ACQ" example_ini
   = (inr false, example_reader, example_ini)) /\
  (is_Some (_sections (config example_reader) !! "ACQ") ->
   exists r self' f',
     config.remove_section example_reader "ACQ" example_ini = (r, self', f') /\
     (forall option,
        get lower self' "ACQ" option = default_value example_reader "ACQ" option) /\
     (forall section' option',
        section' <> "ACQ" ->
        get lower self' section' option' = get lower example_reader section' option') /\
     (writable example_ini = true ->
      r = inr true /\ written f' = Some (config self')) /\
     (writable example_ini = false ->
      r = inl ConfigurationError /\ f' = example_ini)).
Proof.
  apply (X22_remove_section_restores_defaults lower example_reader "ACQ" example_ini);
    discriminate.
Defined.

End ConfigProperties.

(** ** Settings and key listener *)

Section SettingsProperties.
Import Setup SettingsFacts.

(** X23: [check_mask] tests one bit: for a mask that [int(mask, 16)]
    parses to [m] and a channel number that is not negative, the
    result is the string ["True"] when bit [channel] of [m] is set
    and ["False"] when it is clear (for a negative [m], the bit of
    its two's complement). *)
Theorem X23_check_mask_tests_bit (int16 : string -> option Z)
    (mask : string) (channel m : Z) :
  int16 mask = Some m -> 0 <= channel ->
  check_mask int16 mask channel
  = inr (if Z.testbit m channel then "True" else "False").
Proof.
  intros Hm Hc. unfold check_mask. rewrite Hm.
  destruct (Z.ltb_spec channel 0); [lia|].
  rewrite land_bit by done. by rewrite negb_involutive.
Qed.

Lemma X23_check_mask_tests_bit_witness :
  check_mask int_hex "0x7" 2 = inr (if Z.testbit 7 2 then "True" else "False").
Proof.
  apply (X23_check_mask_tests_bit int_hex "0x7" 2 7); [reflexivity|lia].
Defined.

(** X24: What [set_settings] does to the digitizer. It raises nothing but
    [RuntimeError], and the assignments made before a failure stay
    made. When it returns, the device has received, after those it had
    before and in this order: record length, pretrigger, trigger
    source and trigger mask, then for each channel [i] from 0 to
    [NUMCH - 1] its DC offset and threshold as decimal strings and
    its enable flag, ["True"] exactly when bit [i] of
    [selected_channels] is set; and [NUMCH] did not exceed the number
    of channels of the configuration reader. *)
Theorem X24_set_settings_assignments (optionxform : string -> string)
    (int int16 : string -> option Z) (self : Settings) (dig : Device) :
  (forall e dig',
     set_settings optionxform int int16 self dig = (inl e, dig') ->
     e = Py.RuntimeError /\
     assignments dig `prefix_of` assignments dig') /\
  (forall dig',
     set_settings optionxform int int16 self dig = (inr tt, dig') ->
     exists numch n,
       NUMCH dig = inr numch /\ int numch = Some n /\
       n <= Z.max 0 (config.num_channels (config self)) /\
       Forall (fun i =>
                 length (channel_assignments optionxform int int16 self i) = 3%nat)
              (range n) /\
       assignments dig'
       = assignments dig ++ global_assignments self
         ++ flat_map (channel_assignments optionxform int int16 self) (range n)).
Proof.
  unfold set_settings.
  destruct (set_settings_body optionxform int int16 self dig) as [[e|[]] d] eqn:H.
  - split; [|done]. intros e' dig' [= <- <-]. split; [done|].
    by eapply set_settings_body_prefix.
  - split; [done|]. intros dig' [= <-].
    apply set_settings_body_inr in H as (numch & n & Hn & Hint & Hassign & Hall).
    exists numch, n. split; [done|]. split; [done|].
    split; [|split; [|done]].
    + destruct (decide (n <= 0)) as [|Hpos]; [lia|].
      rewrite Forall_forall in Hall.
      destruct (Hall (n - 1)) as [_ ?]; [|lia].
      unfold range. apply list_elem_of_fmap. exists (Z.to_nat (n - 1)).
      split; [lia|]. apply elem_of_seq. lia.
    + eapply Forall_impl; [exact Hall|]. by intros i [? _].
Qed.

Lemma X24_set_settings_assignments_witness :
  exists numch n,
    NUMCH example_device = inr numch /\ int_decimal numch = Some n /\
    n <= Z.max 0 (config.num_channels (config example_settings)) /\
    Forall (fun i =>
              length (channel_assignments lower int_decimal int_hex
                        example_settings i) = 3%nat)
           (range n) /\
    assignments
      (set_settings lower int_decimal int_hex example_settings example_device).2
    = assignments example_device ++ global_assignments example_settings
      ++ flat_map (channel_assignments lower int_decimal int_hex example_settings)
                  (range n).
Proof.
  apply (proj2 (X24_set_settings_assignments lower int_decimal int_hex
                  example_settings example_device)).
  vm_compute. reflexivity.
Defined.

(** X25: The key listener returns if and only if it has set the stop
    flag, and it sets the flag only on the first line that, stripped
    and lower-cased, is [q]; the lines after that one are not read.
    If the input ends without such a line (or printing the settings
    raises first) the listener raises and the flag stays unset, so
    that nothing stops the workers. When printing never fails and a
    [q] line comes, the settings have been printed once for every
    [s] line before it. *)
Theorem X25_listener_stops_on_first_quit (strip_lower : string -> string)
    (print_settings : nat -> Py.result unit) (lines : list string) :
  (stop_set (listen_for_key strip_lower print_settings lines 0) = true <->
   outcome (listen_for_key strip_lower print_settings lines 0) = inr tt) /\
  (stop_set (listen_for_key strip_lower print_settings lines 0) = true ->
   exists before line after,
     lines = before ++ line :: after /\
     Forall (fun l => strip_lower l <> "q") before /\
     strip_lower line = "q" /\
     unread (listen_for_key strip_lower print_settings lines 0) = after) /\
  (Forall (fun l => strip_lower l <> "q") lines ->
   stop_set (listen_for_key strip_lower print_settings lines 0) = false) /\
  (forall before line after,
     (forall k, print_settings k = inr tt) ->
     lines = before ++ line :: after ->
     Forall (fun l => strip_lower l <> "q") before ->
     strip_lower line = "q" ->
     listen_for_key strip_lower print_settings lines 0
     = {| outcome := inr tt; stop_set := true;
          printed := length (filter (fun l => strip_lower l = "s") before);
          unread := after |}).
Proof.
  split; [apply listen_stop|]. split; [apply listen_quit|].
  split; [apply listen_no_quit|].
  intros before line after Hp -> Hb Hq.
  by rewrite (listen_first_quit _ _ before line after 0).
Qed.

Lemma X25_listener_stops_on_first_quit_witness :
  listen_for_key lower (fun _ => inr tt) ["s"; "x"; "S"; "Q"; "s"] 0
  = {| outcome := inr tt; stop_set := true;
       printed := length (filter (fun l => lower l = "s") ["s"; "x"; "S"]);
       unread := ["s"] |}.
Proof.
  apply (proj2 (proj2 (proj2
           (X25_listener_stops_on_first_quit lower (fun _ => inr tt)
              ["s"; "x"; "S"; "Q"; "s"]))) ["s"; "x"; "S"] "Q" ["s"]).
  - done.
  - reflexivity.
  - repeat constructor; vm_compute; discriminate.
  - reflexivity.
Defined.

End SettingsProperties.
